(** * Instance caches of the RAG post-processing pipeline

    A shallow embedding of the caching code of
    [api/core/rag/datasource/vdb/vector_factory.py] (class [Vector]),
    [api/core/rag/data_post_processor/data_post_processor.py]
    (class [DataPostProcessor]) and [api/core/rag/rerank/weight_rerank.py]
    (class [WeightRerankRunner]), together with the properties the
    specification states about them.

    Conventions of the embedding.
    - A Python [str] is the [string] of its UTF-8 bytes (what [.encode()]
      yields); the encoding is injective, so nothing is lost for keys.
    - A 32-bit word is a [Z] reduced modulo [2^32] after every addition.
    - A timestamp returned by [time.time()] and a score are Python floats;
      they are embedded as exact numbers ([Z] seconds, [Q] scores), so
      rounding is not modelled.  A score a runner computes or finds in a
      dict can also be [nan], the quotient of a cosine whose norms are
      zero.
    - The constructor of [Document], a class that is not among the
      sources, is a collaborator of the code that calls it.
    - An [OrderedDict] is an association list, oldest entry first.
    - Code that raises is embedded in a state-and-exception monad. *)

From Stdlib Require Import ZArith QArith Lia List String Ascii Bool Sorted Permutation.
From Stdlib Require Import DecimalString.
From stdpp Require Import gmap strings list.

Local Open Scope Z_scope.

#[local] Set Default Proof Using "Type".

(** ** [hashlib.md5] (RFC 1321) *)

Module Md5.

Definition mask32 : Z := 4294967295.

Definition add32 (x y : Z) : Z := Z.land (x + y) mask32.

Definition not32 (x : Z) : Z := Z.lxor x mask32.

Definition rotl32 (x : Z) (c : Z) : Z :=
  Z.lor (Z.land (Z.shiftl x c) mask32) (Z.shiftr x (32 - c)).

(** Per-round shift amounts. *)
Definition shifts : list Z :=
  [7; 12; 17; 22; 7; 12; 17; 22; 7; 12; 17; 22; 7; 12; 17; 22;
   5; 9; 14; 20; 5; 9; 14; 20; 5; 9; 14; 20; 5; 9; 14; 20;
   4; 11; 16; 23; 4; 11; 16; 23; 4; 11; 16; 23; 4; 11; 16; 23;
   6; 10; 15; 21; 6; 10; 15; 21; 6; 10; 15; 21; 6; 10; 15; 21].

(** [floor (2^32 * abs (sin (i + 1)))] for [i] in [0..63]. *)
Definition sines : list Z :=
  [0xd76aa478; 0xe8c7b756; 0x242070db; 0xc1bdceee;
   0xf57c0faf; 0x4787c62a; 0xa8304613; 0xfd469501;
   0x698098d8; 0x8b44f7af; 0xffff5bb1; 0x895cd7be;
   0x6b901122; 0xfd987193; 0xa679438e; 0x49b40821;
   0xf61e2562; 0xc040b340; 0x265e5a51; 0xe9b6c7aa;
   0xd62f105d; 0x02441453; 0xd8a1e681; 0xe7d3fbc8;
   0x21e1cde6; 0xc33707d6; 0xf4d50d87; 0x455a14ed;
   0xa9e3e905; 0xfcefa3f8; 0x676f02d9; 0x8d2a4c8a;
   0xfffa3942; 0x8771f681; 0x6d9d6122; 0xfde5380c;
   0xa4beea44; 0x4bdecfa9; 0xf6bb4b60; 0xbebfbc70;
   0x289b7ec6; 0xeaa127fa; 0xd4ef3085; 0x04881d05;
   0xd9d4d039; 0xe6db99e5; 0x1fa27cf8; 0xc4ac5665;
   0xf4292244; 0x432aff97; 0xab9423a7; 0xfc93a039;
   0x655b59c3; 0x8f0ccc92; 0xffeff47d; 0x85845dd1;
   0x6fa87e4f; 0xfe2ce6e0; 0xa3014314; 0x4e0811a1;
   0xf7537e82; 0xbd3af235; 0x2ad7d2bb; 0xeb86d391].

Definition bytes_of_string (s : string) : list Z :=
  map (fun c => Z.of_nat (nat_of_ascii c)) (list_ascii_of_string s).

(** The [n] low bytes of [w], least significant first. *)
Fixpoint le_bytes (n : nat) (w : Z) : list Z :=
  match n with
  | O => []
  | S n' => Z.land w 255 :: le_bytes n' (Z.shiftr w 8)
  end.

Fixpoint le_word (bs : list Z) : Z :=
  match bs with
  | [] => 0
  | b :: rest => Z.lor b (Z.shiftl (le_word rest) 8)
  end.

(** Append [0x80], zero bytes up to 56 modulo 64, and the bit length as a
    64-bit little-endian integer. *)
Definition pad (msg : list Z) : list Z :=
  let len := Z.of_nat (length msg) in
  let zeros := Z.to_nat ((55 - len) mod 64) in
  msg ++ [128] ++ repeat 0 zeros ++ le_bytes 8 (Z.land (8 * len) 18446744073709551615).

(** Cut a byte list into 16 little-endian words per 64-byte block. *)
Fixpoint words (n : nat) (bs : list Z) : list Z :=
  match n with
  | O => []
  | S n' => le_word (firstn 4 bs) :: words n' (skipn 4 bs)
  end.

Fixpoint blocks (n : nat) (bs : list Z) : list (list Z) :=
  match n with
  | O => []
  | S n' => words 16 (firstn 64 bs) :: blocks n' (skipn 64 bs)
  end.

Record regs := Regs { rA : Z; rB : Z; rC : Z; rD : Z }.

Definition init_regs : regs :=
  Regs 0x67452301 0xefcdab89 0x98badcfe 0x10325476.

(** One of the 64 operations of the main loop. *)
Definition round (M : list Z) (r : regs) (i : nat) : regs :=
  let '(Regs A B C D) := r in
  let iz := Z.of_nat i in
  let '(F, g) :=
    if iz <? 16 then (Z.lor (Z.land B C) (Z.land (not32 B) D), iz)
    else if iz <? 32 then (Z.lor (Z.land D B) (Z.land (not32 D) C), (5 * iz + 1) mod 16)
    else if iz <? 48 then (Z.lxor (Z.lxor B C) D, (3 * iz + 5) mod 16)
    else (Z.lxor C (Z.lor B (not32 D)), (7 * iz) mod 16) in
  let F' := add32 (add32 (add32 F A) (nth i sines 0)) (nth (Z.to_nat g) M 0) in
  Regs D (add32 B (rotl32 F' (nth i shifts 0))) B C.

Definition process_block (r : regs) (M : list Z) : regs :=
  let r' := fold_left (round M) (seq 0 64) r in
  Regs (add32 (rA r) (rA r')) (add32 (rB r) (rB r'))
       (add32 (rC r) (rC r')) (add32 (rD r) (rD r')).

Definition digest (msg : list Z) : list Z :=
  let padded := pad msg in
  let r := fold_left process_block (blocks (length padded / 64) padded) init_regs in
  le_bytes 4 (rA r) ++ le_bytes 4 (rB r) ++ le_bytes 4 (rC r) ++ le_bytes 4 (rD r).

Definition hex_digit (n : Z) : ascii :=
  nth (Z.to_nat n) (list_ascii_of_string "0123456789abcdef") "0"%char.

Fixpoint hex (bs : list Z) : string :=
  match bs with
  | [] => EmptyString
  | b :: rest => String (hex_digit (Z.shiftr b 4)) (String (hex_digit (Z.land b 15)) (hex rest))
  end.

(** [hashlib.md5(s.encode()).hexdigest()] *)
Definition hexdigest (s : string) : string := hex (digest (bytes_of_string s)).

End Md5.

(** The RFC 1321 test vectors, and one message longer than a block. *)
Example md5_empty : Md5.hexdigest "" = "d41d8cd98f00b204e9800998ecf8427e"%string.
Proof. vm_compute. reflexivity. Qed.

Example md5_abc : Md5.hexdigest "abc" = "900150983cd24fb0d6963f7d28e17f72"%string.
Proof. vm_compute. reflexivity. Qed.

Example md5_two_blocks :
  Md5.hexdigest "aaaaaaaaaaaaaaaaaaaaaaaaaaaaaaaaaaaaaaaaaaaaaaaaaaaaaaaaaaaaaaaaaaaaaa"
  = "0f5c6c4e740bfcc08c3c26ccb2673d46"%string.
Proof. vm_compute. reflexivity. Qed.

(** ** Exceptions, and the monad of code that mutates state and may raise *)

Inductive exn : Type :=
| KeyError (key : string)
| ValueError (msg : string)
| TypeError
| IndexError
| InvokeAuthorizationError
| OtherError (name : string).

Inductive result (A : Type) : Type :=
| Ok (a : A)
| Raise (e : exn).

Arguments Ok {A} a.
Arguments Raise {A} e.

(** A computation over a state [S]: the state reached is kept when the
    computation raises, as Python keeps the mutations made before a raise. *)
Definition M (S A : Type) : Type := S -> result A * S.

Definition ret {S A} (a : A) : M S A := fun s => (Ok a, s).

Definition raise {S A} (e : exn) : M S A := fun s => (Raise e, s).

Definition bind {S A B} (m : M S A) (k : A -> M S B) : M S B :=
  fun s => match m s with
           | (Ok a, s') => k a s'
           | (Raise e, s') => (Raise e, s')
           end.

Definition gets {S A} (f : S -> A) : M S A := fun s => (Ok (f s), s).

Definition modify {S} (f : S -> S) : M S unit := fun s => (Ok tt, f s).

(** [try: m except InvokeAuthorizationError: h] *)
Definition try_except_auth {S A} (m : M S A) (h : M S A) : M S A :=
  fun s => match m s with
           | (Raise InvokeAuthorizationError, s') => h s'
           | r => r
           end.

(** [for x in xs: body x] *)
Fixpoint for_each {S A} (xs : list A) (body : A -> M S unit) : M S unit :=
  match xs with
  | [] => ret tt
  | x :: rest => bind (body x) (fun _ => for_each rest body)
  end.

Declare Scope monad_scope.
Delimit Scope monad_scope with monad.
Notation "x <- m ;; k" := (bind m (fun x => k))
  (at level 100, m at next level, right associativity) : monad_scope.
Notation "m ;; k" := (bind m (fun _ => k))
  (at level 100, right associativity) : monad_scope.

Local Open Scope monad_scope.

(** ** [collections.OrderedDict], oldest entry first *)

Module OD.
Section OrderedDict.
Context {E : Type}.

Definition t : Type := list (string * E).

Definition keys (d : t) : list string := map fst d.

(** [d.get(k)] *)
Fixpoint lookup (k : string) (d : t) : option E :=
  match d with
  | [] => None
  | (k', e) :: rest => if String.eqb k' k then Some e else lookup k rest
  end.

(** [k in d] *)
Definition mem (k : string) (d : t) : bool :=
  match lookup k d with Some _ => true | None => false end.

(** The entries other than [k]'s, in order. *)
Definition remove (k : string) (d : t) : t :=
  List.filter (fun p => negb (String.eqb (fst p) k)) d.

(** [d.move_to_end(k)] on a dict that holds [k]. *)
Definition to_end (k : string) (e : E) (d : t) : t := remove k d ++ [(k, e)].

(** [d[k] = e]: a key the dict holds keeps its position, a new key goes last. *)
Fixpoint set (k : string) (e : E) (d : t) : t :=
  match d with
  | [] => [(k, e)]
  | (k', e') :: rest => if String.eqb k' k then (k', e) :: rest else (k', e') :: set k e rest
  end.

End OrderedDict.
End OD.

(** ** The cache code shared by the four caches

    [Vector._embedding_model_cache], [Vector._vector_processor_cache],
    [DataPostProcessor._rerank_model_cache] and
    [WeightRerankRunner._embedding_model_cache] are four copies of the same
    code over an [OrderedDict] of [(instance, cached_time)] pairs; the copies
    differ in the two class constants and, for the rerank model, in the
    [try ... except InvokeAuthorizationError] around the load.  The section
    embeds the code once, with the constants as variables. *)

Module Cache.

Record stats : Type := Stats {
  hits : nat;
  misses : nat;
  evictions : nat;
  expired : nat }.

Section TtlLru.
Context {V : Type}.

(** [_CACHE_TTL_SECONDS] and [_CACHE_MAX_SIZE] of the class. *)
Variable TTL_SECONDS : Z.
Variable MAX_SIZE : nat.

(** The process as one cache sees it.  [clock n] is what the [n]-th call of
    [time.time()] returns and [ticks] counts the calls made; [loader n] is
    the outcome of the [n]-th construction of an instance (the model manager,
    or the vector factory) and [loads] counts the constructions. *)
Record world : Type := World {
  clock : nat -> Z;
  ticks : nat;
  loader : nat -> result V;
  loads : nat;
  cache : OD.t (E := V * Z);
  cache_stats : stats }.

Definition set_cache (f : OD.t (E := V * Z) -> OD.t (E := V * Z)) (w : world) : world :=
  World (clock w) (ticks w) (loader w) (loads w) (f (cache w)) (cache_stats w).

Definition set_stats (f : stats -> stats) (w : world) : world :=
  World (clock w) (ticks w) (loader w) (loads w) (cache w) (f (cache_stats w)).

(** [time.time()] *)
Definition time_time : M world Z :=
  fun w => (Ok (clock w (ticks w)),
            World (clock w) (S (ticks w)) (loader w) (loads w) (cache w) (cache_stats w)).

(** The construction of an instance on a miss. *)
Definition load_instance : M world V :=
  fun w => (loader w (loads w),
            World (clock w) (ticks w) (loader w) (S (loads w)) (cache w) (cache_stats w)).

(** [cache_key in cache] *)
Definition contains (k : string) : M world bool := gets (fun w => OD.mem k (cache w)).

(** [cache[cache_key]] *)
Definition getitem (k : string) : M world (V * Z) :=
  e <- gets (fun w => OD.lookup k (cache w));;
  match e with
  | Some e => ret e
  | None => raise (KeyError k)
  end.

(** [del cache[cache_key]] *)
Definition delitem (k : string) : M world unit :=
  present <- contains k;;
  if present then modify (set_cache (OD.remove k)) else raise (KeyError k).

(** [cache.move_to_end(cache_key)] *)
Definition move_to_end (k : string) : M world unit :=
  e <- getitem k;;
  modify (set_cache (OD.to_end k e)).

(** [cache[cache_key] = (instance, cached_time)] *)
Definition setitem (k : string) (e : V * Z) : M world unit :=
  modify (set_cache (OD.set k e)).

(** [cache.popitem(last=False)] *)
Definition popitem_first : M world unit :=
  c <- gets cache;;
  match c with
  | [] => raise (KeyError "dictionary is empty")
  | _ :: rest => modify (set_cache (fun _ => rest))
  end.

Definition incr_hits : M world unit :=
  modify (set_stats (fun s => Stats (S (hits s)) (misses s) (evictions s) (expired s))).

Definition incr_misses : M world unit :=
  modify (set_stats (fun s => Stats (hits s) (S (misses s)) (evictions s) (expired s))).

Definition incr_evictions : M world unit :=
  modify (set_stats (fun s => Stats (hits s) (misses s) (S (evictions s)) (expired s))).

Definition incr_expired : M world unit :=
  modify (set_stats (fun s => Stats (hits s) (misses s) (evictions s) (S (expired s)))).

(** [_is_cache_expired]: [(time.time() - cached_time) > TTL]. *)
Definition is_cache_expired (cached_time : Z) : M world bool :=
  now <- time_time;;
  ret (TTL_SECONDS <? now - cached_time).

(** [_evict_lru_embedding], [_evict_lru_processor],
    [_evict_lru_rerank_model], [_evict_lru_embedding_model]. *)
Definition evict_lru : M world unit :=
  c <- gets cache;;
  match c with
  | [] => ret tt
  | _ :: _ => popitem_first;; incr_evictions
  end.

(** [_cleanup_expired_embeddings], [_cleanup_expired_processors],
    [_cleanup_expired_rerank_models]. *)
Definition cleanup_expired : M world unit :=
  current_time <- time_time;;
  c <- gets cache;;
  let expired_keys :=
    map fst (List.filter (fun p => TTL_SECONDS <? current_time - snd (snd p)) c) in
  for_each expired_keys (fun key => delitem key;; incr_expired).

(** [clear_cache], for one cache. *)
Definition clear_cache : M world unit := modify (set_cache (fun _ => [])).

(** [clear_cache_stats] *)
Definition clear_cache_stats : M world unit := modify (set_stats (fun _ => Stats 0 0 0 0)).

(** The first check, made without the lock.  [Some v] is the instance the
    function returns at once; [None] falls through to the locked part.  The
    hit branch reads the clock once more to log the entry's age. *)
Definition first_check (k : string) : M world (option V) :=
  present <- contains k;;
  if present then
    e <- getitem k;;
    let '(cached, cached_time) := e in
    is_expired <- is_cache_expired cached_time;;
    if negb is_expired then
      move_to_end k;; incr_hits;;
      _ <- time_time;;
      ret (Some cached)
    else
      delitem k;; incr_expired;;
      ret None
  else ret None.

(** The second check, made after taking the lock. *)
Definition double_check (k : string) : M world (option V) :=
  present <- contains k;;
  if present then
    e <- getitem k;;
    let '(cached, cached_time) := e in
    is_expired <- is_cache_expired cached_time;;
    if negb is_expired then
      move_to_end k;; incr_hits;;
      ret (Some cached)
    else ret None
  else ret None.

(** After a successful load: evict when full, then store with the time. *)
Definition store (k : string) (v : V) : M world V :=
  c <- gets cache;;
  (if (MAX_SIZE <=? length c)%nat then evict_lru else ret tt);;
  now <- time_time;;
  setitem k (v, now);;
  ret v.

(** The body of [Vector._get_embeddings], [Vector._init_vector] and
    [WeightRerankRunner._get_cached_embedding_model] from the first check
    on; [construct] is the code that builds the instance on a miss.  Without
    contention [with lock:] changes nothing. *)
Definition get_cached (k : string) (construct : M world V) : M world V :=
  fast <- first_check k;;
  match fast with
  | Some v => ret v
  | None =>
      again <- double_check k;;
      match again with
      | Some v => ret v
      | None =>
          incr_misses;;
          cleanup_expired;;
          v <- construct;;
          store k v
      end
  end.

(** The same for [DataPostProcessor._get_rerank_model_instance]: the load
    and the store are inside [try], an authorization error returns [None]. *)
Definition get_cached_or_none (k : string) (construct : M world V) : M world (option V) :=
  fast <- first_check k;;
  match fast with
  | Some v => ret (Some v)
  | None =>
      again <- double_check k;;
      match again with
      | Some v => ret (Some v)
      | None =>
          incr_misses;;
          cleanup_expired;;
          try_except_auth
            (v <- construct;; v' <- store k v;; ret (Some v'))
            (ret None)
      end
  end.

(** [get_cache_stats]: the counters, the hit rate and the size. *)
Definition hit_rate (s : stats) : Q :=
  let total := (hits s + misses s)%nat in
  if (0 <? total)%nat then Z.of_nat (hits s) # Pos.of_nat total else 0%Q.

Definition get_cache_stats : M world (stats * Q * nat) :=
  w <- gets (fun w => w);;
  ret (cache_stats w, hit_rate (cache_stats w), length (cache w)).

(** The class attributes at import: an empty cache, zeroed counters. *)
Definition initial (clk : nat -> Z) (ldr : nat -> result V) : world :=
  World clk 0 ldr 0 [] (Stats 0 0 0 0).

End TtlLru.
End Cache.

(** [zoom] runs a computation on one component of a larger state. *)
Definition zoom {S T A} (get : S -> T) (put : T -> S -> S) (m : M T A) : M S A :=
  fun s => let '(r, t') := m (get s) in (r, put t' s).

(** [f"{a}:{b}:{c}"] and [f"{a}:{b}"] *)
Definition key_str3 (a b c : string) : string := (a ++ ":" ++ b ++ ":" ++ c)%string.

Definition key_str2 (a b : string) : string := (a ++ ":" ++ b)%string.

(** Python truthiness of an optional string. *)
Definition truthy_str (s : option string) : bool :=
  match s with
  | Some s => negb (String.eqb s "")
  | None => false
  end.

(** ** [class Vector] *)

Module Vector.

Definition _CACHE_TTL_SECONDS : Z := 1800.

Definition _CACHE_MAX_SIZE : nat := 100.

Definition _generate_embedding_cache_key (tenant_id provider model : string) : string :=
  let key_str := key_str3 tenant_id provider model in
  Md5.hexdigest key_str.

Definition _generate_processor_cache_key (dataset_id vector_type : string) : string :=
  let key_str := key_str2 dataset_id vector_type in
  Md5.hexdigest key_str.

(** The fields of [models.dataset.Dataset] the class reads. *)
Record Dataset : Type := {
  id : string;
  tenant_id : string;
  embedding_model_provider : string;
  embedding_model : string;
  index_struct_dict : option (gmap string string) }.

(** What [_init_vector] reads from outside the class: [dify_config], the
    whitelist table, the [VectorType] member it assigns and the members
    [get_vector_factory] has a case for. *)
Record Config : Type := {
  VECTOR_STORE : option string;
  VECTOR_STORE_WHITELIST_ENABLE : bool;
  whitelisted : string -> bool;
  TIDB_ON_QDRANT : string;
  known_vector_type : string -> bool }.

Section Instances.
Context {CacheEmbedding BaseVector : Type}.

(** The two caches of the class; [_cache_stats] holds the counters of both
    under the prefixes [embedding_] and [processor_]. *)
Record state : Type := State {
  embedding : Cache.world (V := CacheEmbedding);
  processor : Cache.world (V := BaseVector) }.

Definition on_embedding {A} (m : M (Cache.world (V := CacheEmbedding)) A) : M state A :=
  zoom embedding (fun e s => State e (processor s)) m.

Definition on_processor {A} (m : M (Cache.world (V := BaseVector)) A) : M state A :=
  zoom processor (fun p s => State (embedding s) p) m.

Definition _is_cache_expired (cached_time : Z) : M state bool :=
  on_embedding (Cache.is_cache_expired _CACHE_TTL_SECONDS cached_time).

Definition _evict_lru_embedding : M state unit := on_embedding Cache.evict_lru.

Definition _evict_lru_processor : M state unit := on_processor Cache.evict_lru.

Definition _cleanup_expired_embeddings : M state unit :=
  on_embedding (Cache.cleanup_expired _CACHE_TTL_SECONDS).

Definition _cleanup_expired_processors : M state unit :=
  on_processor (Cache.cleanup_expired _CACHE_TTL_SECONDS).

Definition clear_cache : M state unit :=
  on_embedding Cache.clear_cache;; on_processor Cache.clear_cache.

Definition clear_cache_stats : M state unit :=
  on_embedding Cache.clear_cache_stats;; on_processor Cache.clear_cache_stats.

Definition get_cache_stats : M state ((Cache.stats * Q * nat) * (Cache.stats * Q * nat)) :=
  e <- on_embedding Cache.get_cache_stats;;
  p <- on_processor Cache.get_cache_stats;;
  ret (e, p).

(** [_get_embeddings]: the model manager is asked for the text-embedding
    model, and the instance is wrapped in [CacheEmbedding]. *)
Definition _get_embeddings (dataset : Dataset) : M state CacheEmbedding :=
  let cache_key :=
    _generate_embedding_cache_key
      (tenant_id dataset) (embedding_model_provider dataset) (embedding_model dataset) in
  on_embedding
    (Cache.get_cached _CACHE_TTL_SECONDS _CACHE_MAX_SIZE cache_key Cache.load_instance).

(** [get_vector_factory]: a factory class for a known type, else [ValueError]. *)
Definition get_vector_factory {S} (cfg : Config) (vector_type : string) : M S unit :=
  if known_vector_type cfg vector_type then ret tt
  else raise (ValueError ("Vector store " ++ vector_type ++ " is not supported.")).

(** The choice of the vector type at the head of [_init_vector]. *)
Definition resolve_vector_type {S} (cfg : Config) (dataset : Dataset) : M S string :=
  vector_type <-
    match index_struct_dict dataset with
    | Some d =>
        if decide (d = ∅) then
          ret (if VECTOR_STORE_WHITELIST_ENABLE cfg && whitelisted cfg (tenant_id dataset)
               then Some (TIDB_ON_QDRANT cfg) else VECTOR_STORE cfg)
        else
          match d !! "type"%string with
          | Some t => ret (Some t)
          | None => raise (KeyError "type")
          end
    | None =>
        ret (if VECTOR_STORE_WHITELIST_ENABLE cfg && whitelisted cfg (tenant_id dataset)
             then Some (TIDB_ON_QDRANT cfg) else VECTOR_STORE cfg)
    end;;
  match vector_type with
  | Some t => if String.eqb t "" then raise (ValueError "Vector store must be specified.")
              else ret t
  | None => raise (ValueError "Vector store must be specified.")
  end.

Definition _init_vector (cfg : Config) (dataset : Dataset) : M state BaseVector :=
  vector_type <- resolve_vector_type cfg dataset;;
  let cache_key := _generate_processor_cache_key (id dataset) vector_type in
  on_processor
    (Cache.get_cached _CACHE_TTL_SECONDS _CACHE_MAX_SIZE cache_key
       (get_vector_factory cfg vector_type;; Cache.load_instance)).

(** [Vector(dataset)]: the object holds the two instances. *)
Definition __init__ (cfg : Config) (dataset : Dataset) : M state (CacheEmbedding * BaseVector) :=
  embeddings <- _get_embeddings dataset;;
  vector_processor <- _init_vector cfg dataset;;
  ret (embeddings, vector_processor).

(** The operations on the class: the constructor and the class methods. *)
Inductive op : Type :=
| OpVector (cfg : Config) (dataset : Dataset)
| OpClearCache
| OpClearCacheStats
| OpGetCacheStats
| OpEvictLruEmbedding
| OpEvictLruProcessor
| OpCleanupExpiredEmbeddings
| OpCleanupExpiredProcessors.

Definition run_op (o : op) (s : state) : state :=
  match o with
  | OpVector cfg dataset => snd (__init__ cfg dataset s)
  | OpClearCache => snd (clear_cache s)
  | OpClearCacheStats => snd (clear_cache_stats s)
  | OpGetCacheStats => snd (get_cache_stats s)
  | OpEvictLruEmbedding => snd (_evict_lru_embedding s)
  | OpEvictLruProcessor => snd (_evict_lru_processor s)
  | OpCleanupExpiredEmbeddings => snd (_cleanup_expired_embeddings s)
  | OpCleanupExpiredProcessors => snd (_cleanup_expired_processors s)
  end.

Definition run_ops (ops : list op) (s : state) : state :=
  fold_left (fun s o => run_op o s) ops s.

(** Each cache is given the clock readings and the construction outcomes
    that its own code will see. *)
Definition initial (clk_e clk_p : nat -> Z) (models : nat -> result CacheEmbedding)
  (vectors : nat -> result BaseVector) : state :=
  State (Cache.initial clk_e models) (Cache.initial clk_p vectors).

End Instances.
End Vector.

(** ** Documents

    A [Document] is handed around by reference and the runners write into
    its [metadata] dict, which several documents may share; the dicts live in
    a heap and a document holds the address of its dict. *)

(** A float: a number, or [nan], which numpy gives for [0.0 / 0.0]. *)
Inductive pyfloat : Type :=
| Num (q : Q)
| NaN.

Inductive pyval : Type :=
| PyFloat (x : pyfloat)
| PyStr (s : string)
| PyList (l : list string).

Definition loc : Type := nat.

Record Document : Type := {
  page_content : string;
  metadata : option loc;
  vector : option (list Q);
  provider : string }.

Definition heap : Type := loc -> gmap string pyval.

(** [d[key] = v] for the dict at [l]. *)
Definition dict_set (l : loc) (key : string) (v : pyval) (h : heap) : heap :=
  fun l' => if Nat.eqb l' l then <[key := v]> (h l) else h l'.

(** [xs[:n]] *)
Definition slice_to {A} (n : Z) (xs : list A) : list A :=
  if 0 <=? n then firstn (Z.to_nat n) xs
  else firstn (length xs - Z.to_nat (- n)) xs.

(** [xs[i]] *)
Definition index {S A} (xs : list A) (i : Z) : M S A :=
  let j := if 0 <=? i then i else Z.of_nat (length xs) + i in
  if 0 <=? j then
    match nth_error xs (Z.to_nat j) with
    | Some x => ret x
    | None => raise IndexError
    end
  else raise IndexError.

(** [x < y] on numbers. *)
Definition Qltb (x y : Q) : bool := negb (Qle_bool y x).

(** [x * y], [x + y] and [x < y] on floats: with [nan] for an operand the
    product and the sum are [nan] and the comparison is false. *)
Definition float_mul (x y : pyfloat) : pyfloat :=
  match x, y with
  | Num a, Num b => Num (a * b)
  | _, _ => NaN
  end.

Definition float_add (x y : pyfloat) : pyfloat :=
  match x, y with
  | Num a, Num b => Num (a + b)
  | _, _ => NaN
  end.

Definition float_ltb (x y : pyfloat) : bool :=
  match x, y with
  | Num a, Num b => Qltb a b
  | _, _ => false
  end.

(** Python truthiness of an optional float and of an optional int. *)
Definition truthy_float (x : option Q) : bool :=
  match x with
  | Some q => negb (Qeq_bool q 0)
  | None => false
  end.

Definition truthy_int (x : option Z) : bool :=
  match x with
  | Some n => negb (n =? 0)
  | None => false
  end.

(** [xs.sort(key=..., reverse=True)] on a list already paired with its keys.
    With numbers for keys the result is the list in descending order, equal
    keys keeping their order (the sort is stable).  With [nan] among the
    keys [<] is no order: Python then leaves the list in a permutation that
    depends on the internals of its sort, and the permutation computed here
    is not meant to be the same one. *)
Fixpoint insert_desc {A} (x : pyfloat * A) (sorted : list (pyfloat * A))
  : list (pyfloat * A) :=
  match sorted with
  | [] => [x]
  | y :: rest => if float_ltb (fst x) (fst y) then y :: insert_desc x rest else x :: y :: rest
  end.

Definition sort_desc {A} (xs : list (pyfloat * A)) : list (pyfloat * A) :=
  foldr insert_desc [] xs.

(** [for x in xs: ...] collecting one result per element. *)
Fixpoint map_m {S A B} (f : A -> M S B) (xs : list A) : M S (list B) :=
  match xs with
  | [] => ret []
  | x :: rest => y <- f x;; ys <- map_m f rest;; ret (y :: ys)
  end.

Fixpoint zip3 {A B C} (xs : list A) (ys : list B) (zs : list C) : list (A * B * C) :=
  match xs, ys, zs with
  | x :: xs', y :: ys', z :: zs' => (x, y, z) :: zip3 xs' ys' zs'
  | _, _, _ => []
  end.

(** [core.rag.rerank.entity.weight] *)
Record VectorSetting : Type := {
  vector_weight : pyfloat;
  embedding_provider_name : string;
  embedding_model_name : string }.

Record KeywordSetting : Type := { keyword_weight : pyfloat }.

Record Weights : Type := {
  vector_setting : VectorSetting;
  keyword_setting : KeywordSetting }.

(** ** The methods of a [Vector] that write texts

    The object holds [self._embeddings] and [self._vector_processor].  What
    they answer is given by [embed_documents], [processor_create] and
    [processor_text_exists]; the calls of [self._vector_processor.create] are
    recorded, in order, with the texts and the embeddings passed. *)

Module VectorTexts.

Section Texts.

Variable embed_documents : list string -> result (list (list Q)).
Variable processor_create : list Document -> list (list Q) -> result unit.
Variable processor_text_exists : pyval -> result bool.

(** [x == y] on documents.  The class [Document] is not among the sources;
    it is a pydantic model, which compares the fields. *)
Variable document_eq : Document -> Document -> bool.

(** [documents] is the list object the caller passed, which
    [_filter_duplicate_texts] changes in place. *)
Record texts_state : Type := TextsState {
  documents : list Document;
  created : list (list Document * list (list Q)) }.

Definition lift {A} (r : result A) : M texts_state A := fun s => (r, s).

(** [self._vector_processor.create(texts=..., embeddings=...)] *)
Definition vector_processor_create (texts : list Document) (embeddings : list (list Q))
  : M texts_state unit :=
  fun s => (processor_create texts embeddings,
            TextsState (documents s) (created s ++ [(texts, embeddings)])).

(** [range(start, stop, step)] for a positive step. *)
Definition range (start stop step : nat) : list nat :=
  map (fun j => start + j * step)%nat (seq 0 ((stop - start + (step - 1)) / step)).

(** [xs[i:j]] for indices that are not negative. *)
Definition slice {A} (xs : list A) (i j : nat) : list A := firstn (j - i) (skipn i xs).

Definition batch_size : nat := 1000.

(** [create]: [if texts:] is false for [None] and for the empty list. *)
Definition create (texts : option (list Document)) : M texts_state unit :=
  match texts with
  | None | Some [] => ret tt
  | Some texts =>
      for_each (range 0 (length texts) batch_size) (fun i =>
        let batch := slice texts i (i + batch_size) in
        batch_embeddings <- lift (embed_documents (map page_content batch));;
        vector_processor_create batch batch_embeddings)
  end.

(** Python truthiness of a value. *)
Definition truthy_val (v : pyval) : bool :=
  match v with
  | PyFloat (Num q) => negb (Qeq_bool q 0)
  | PyFloat NaN => true
  | PyStr s => negb (String.eqb s "")
  | PyList l => match l with [] => false | _ :: _ => true end
  end.

(** [xs.remove(x)]: the first item equal to [x] goes; [None] when there is
    no such item. *)
Fixpoint remove_first (x : Document) (xs : list Document) : option (list Document) :=
  match xs with
  | [] => None
  | item :: rest =>
      if document_eq item x then Some rest
      else option_map (cons item) (remove_first x rest)
  end.

(** [texts.remove(text)] *)
Definition list_remove (text : Document) : M texts_state unit :=
  fun s =>
    match remove_first text (documents s) with
    | Some rest => (Ok tt, TextsState rest (created s))
    | None => (Raise (ValueError "list.remove(x): x not in list"), s)
    end.

(** [text_exists] *)
Definition text_exists (id : pyval) : M texts_state bool := lift (processor_text_exists id).

(** [_filter_duplicate_texts], on the list object of the state; [h] holds
    the metadata dicts.  The loop runs over a copy of the list. *)
Definition _filter_duplicate_texts (h : heap) : M texts_state (list Document) :=
  copy <- gets documents;;
  for_each copy (fun text =>
    match metadata text with
    | None => ret tt
    | Some l =>
        doc_id <- match h l !! "doc_id"%string with
                  | Some v => ret v
                  | None => raise (KeyError "doc_id")
                  end;;
        if truthy_val doc_id then
          exists_duplicate_node <- text_exists doc_id;;
          if exists_duplicate_node then list_remove text else ret tt
        else ret tt
    end);;
  gets documents.

(** [add_texts]: [duplicate_check] is [kwargs.get("duplicate_check", False)]. *)
Definition add_texts (h : heap) (duplicate_check : bool) : M texts_state unit :=
  documents <- (if duplicate_check then _filter_duplicate_texts h else gets documents);;
  embeddings <- lift (embed_documents (map page_content documents));;
  vector_processor_create documents embeddings.

End Texts.
End VectorTexts.

(** ** [class WeightRerankRunner] *)

Module WeightRerankRunner.

Definition _EMBEDDING_CACHE_TTL_SECONDS : Z := 1800.

Definition _EMBEDDING_CACHE_MAX_SIZE : nat := 50.

Definition _generate_embedding_cache_key (tenant_id provider model : string) : string :=
  let key_str := key_str3 tenant_id provider model in
  Md5.hexdigest key_str.

Section Runner.
Context {CacheEmbedding : Type}.

(** The collaborators: [JiebaKeywordTableHandler.extract_keywords],
    [CacheEmbedding.embed_query], [math.log] and [math.sqrt]. *)
Variable extract_keywords : string -> list string.
Variable embed_query : CacheEmbedding -> string -> result (list Q).
Variable math_log : Q -> Q.
Variable math_sqrt : Q -> Q.

Record state : Type := State {
  docs_heap : heap;
  embedding_cache : Cache.world (V := CacheEmbedding) }.

Definition on_cache {A} (m : M (Cache.world (V := CacheEmbedding)) A) : M state A :=
  zoom embedding_cache (fun c s => State (docs_heap s) c) m.

Definition set_metadata (l : loc) (key : string) (v : pyval) : M state unit :=
  modify (fun s => State (dict_set l key v (docs_heap s)) (embedding_cache s)).

Definition _is_cache_expired (cached_time : Z) : M state bool :=
  on_cache (Cache.is_cache_expired _EMBEDDING_CACHE_TTL_SECONDS cached_time).

Definition _evict_lru_embedding_model : M state unit := on_cache Cache.evict_lru.

Definition _cleanup_expired_embeddings : M state unit :=
  on_cache (Cache.cleanup_expired _EMBEDDING_CACHE_TTL_SECONDS).

Definition clear_cache : M state unit := on_cache Cache.clear_cache.

Definition clear_cache_stats : M state unit := on_cache Cache.clear_cache_stats.

Definition get_cache_stats : M state (Cache.stats * Q * nat) := on_cache Cache.get_cache_stats.

Definition _get_cached_embedding_model (tenant_id provider model : string)
  : M state CacheEmbedding :=
  let cache_key := _generate_embedding_cache_key tenant_id provider model in
  on_cache
    (Cache.get_cached _EMBEDDING_CACHE_TTL_SECONDS _EMBEDDING_CACHE_MAX_SIZE
       cache_key Cache.load_instance).

(** [Counter(keywords)]: each keyword once, in the order of its first
    occurrence, with its number of occurrences. *)
Fixpoint first_occurrences (seen keywords : list string) : list string :=
  match keywords with
  | [] => []
  | k :: rest =>
      if bool_decide (k ∈ seen) then first_occurrences seen rest
      else k :: first_occurrences (k :: seen) rest
  end.

Definition Counter (keywords : list string) : list (string * nat) :=
  map (fun k => (k, count_occ string_dec keywords k)) (first_occurrences [] keywords).

(** [d.get(keyword, 0)] *)
Fixpoint get_or_zero (d : list (string * Q)) (keyword : string) : Q :=
  match d with
  | [] => 0%Q
  | (k, v) :: rest => if String.eqb k keyword then v else get_or_zero rest keyword
  end.

Definition has_key (d : list (string * Q)) (keyword : string) : bool :=
  existsb (fun p => String.eqb (fst p) keyword) d.

Definition Qsum (xs : list Q) : Q := foldr Qplus 0%Q xs.

(** The inner function [cosine_similarity] of [_calculate_keyword_score].
    The sums run over sets, whose order Python leaves open; the order taken
    here is that of the first vector. *)
Definition cosine_similarity (vec1 vec2 : list (string * Q)) : Q :=
  let intersection := List.filter (fun x => has_key vec2 x) (map fst vec1) in
  let numerator := Qsum (map (fun x => get_or_zero vec1 x * get_or_zero vec2 x)%Q intersection) in
  let sum1 := Qsum (map (fun p => snd p * snd p)%Q vec1) in
  let sum2 := Qsum (map (fun p => snd p * snd p)%Q vec2) in
  let denominator := (math_sqrt sum1 * math_sqrt sum2)%Q in
  if Qeq_bool denominator 0 then 0%Q else (numerator / denominator)%Q.

(** The loop that extracts the keywords of every document: a document
    without metadata gets no entry in [documents_keywords]. *)
Fixpoint collect_keywords (documents : list Document) : M state (list (list string)) :=
  match documents with
  | [] => ret []
  | document :: rest =>
      let document_keywords := extract_keywords (page_content document) in
      match metadata document with
      | Some l =>
          set_metadata l "keywords" (PyList document_keywords);;
          others <- collect_keywords rest;;
          ret (document_keywords :: others)
      | None => collect_keywords rest
      end
  end.

Definition tfidf (keyword_idf : list (string * Q)) (keywords : list string) : list (string * Q) :=
  map (fun p => (fst p, (inject_Z (Z.of_nat (snd p)) * get_or_zero keyword_idf (fst p))%Q))
      (Counter keywords).

(** The [keyword_idf] dict: for every keyword of the corpus,
    [math.log((1 + total_documents) / (1 + doc_count_containing_keyword)) + 1]. *)
Definition keyword_idf (total_documents : nat) (documents_keywords : list (list string))
  : list (string * Q) :=
  let all_keywords := remove_dups (concat documents_keywords) in
  map (fun keyword =>
         let doc_count_containing_keyword :=
           length (List.filter (fun doc_keywords => bool_decide (keyword ∈ doc_keywords))
                               documents_keywords) in
         (keyword,
          (math_log (inject_Z (Z.of_nat (1 + total_documents))
                     / inject_Z (Z.of_nat (1 + doc_count_containing_keyword))) + 1)%Q))
      all_keywords.

(** The similarity of the query with the keywords of one document. *)
Definition similarity (query_keywords : list string) (idf : list (string * Q))
  (document_keywords : list string) : Q :=
  cosine_similarity (tfidf idf query_keywords) (tfidf idf document_keywords).

Definition _calculate_keyword_score (query : string) (documents : list Document)
  : M state (list Q) :=
  let query_keywords := extract_keywords query in
  documents_keywords <- collect_keywords documents;;
  let total_documents := length documents in
  let idf := keyword_idf total_documents documents_keywords in
  let query_tfidf := tfidf idf query_keywords in
  let documents_tfidf := map (tfidf idf) documents_keywords in
  ret (map (cosine_similarity query_tfidf) documents_tfidf).

(** [np.dot] and [np.linalg.norm]. *)
Fixpoint np_dot {S} (v1 v2 : list Q) : M S Q :=
  match v1, v2 with
  | [], [] => ret 0%Q
  | x :: v1', y :: v2' => d <- np_dot v1' v2';; ret (x * y + d)%Q
  | _, _ => raise (ValueError "shapes not aligned")
  end.

Definition np_norm (v : list Q) : Q := math_sqrt (Qsum (map (fun x => x * x)%Q v)).

(** [x / y] on numpy scalars, for the quotient of [_calculate_cosine].  The
    norm of a vector is zero when all its entries are zero (or it has none),
    and then the dot product is zero as well: the quotient is [0.0 / 0.0],
    which numpy gives as [nan], with a warning and no exception. *)
Definition np_divide (x y : Q) : pyfloat :=
  if Qeq_bool y 0 then NaN else Num (x / y).

Definition document_cosine (query_vector : list Q) (document : Document) : M state pyval :=
  h <- gets docs_heap;;
  let upstream :=
    match metadata document with
    | Some l => h l !! "score"%string
    | None => None
    end in
  match upstream with
  | Some score => ret score
  | None =>
      match vector document with
      | None => raise TypeError
      | Some vec2 =>
          dot_product <- np_dot query_vector vec2;;
          let norm_vec1 := np_norm query_vector in
          let norm_vec2 := np_norm vec2 in
          ret (PyFloat (np_divide dot_product (norm_vec1 * norm_vec2)))
      end
  end.

Definition _calculate_cosine (tenant_id query : string) (documents : list Document)
  (vs : VectorSetting) : M state (list pyval) :=
  cache_embedding <-
    _get_cached_embedding_model tenant_id (embedding_provider_name vs) (embedding_model_name vs);;
  query_vector <- (fun s => (embed_query cache_embedding query, s));;
  map_m (document_cosine query_vector) documents.

(** The loop of [run] over [zip(documents, query_scores, query_vector_scores)]. *)
Fixpoint fuse (weights : Weights) (score_threshold : option Q)
  (rows : list (Document * Q * pyval)) : M state (list Document) :=
  match rows with
  | [] => ret []
  | (document, query_score, query_vector_score) :: rest =>
      match query_vector_score with
      | PyFloat vscore =>
          let score :=
            float_add (float_mul (vector_weight (vector_setting weights)) vscore)
                      (float_mul (keyword_weight (keyword_setting weights)) (Num query_score)) in
          if truthy_float score_threshold
             && match score_threshold with
                | Some t => float_ltb score (Num t)
                | None => false
                end
          then fuse weights score_threshold rest
          else
            match metadata document with
            | Some l =>
                set_metadata l "score" (PyFloat score);;
                kept <- fuse weights score_threshold rest;;
                ret (document :: kept)
            | None => fuse weights score_threshold rest
            end
      | _ => raise TypeError
      end
  end.

(** The sort key [x.metadata["score"] if x.metadata else 0]. *)
Definition sort_key (x : Document) : M state pyfloat :=
  h <- gets docs_heap;;
  match metadata x with
  | None => ret (Num 0)
  | Some l =>
      if decide (h l = ∅) then ret (Num 0)
      else match h l !! "score"%string with
           | Some (PyFloat q) => ret q
           | Some _ => raise TypeError
           | None => raise (KeyError "score")
           end
  end.

Definition run (tenant_id : string) (weights : Weights) (query : string)
  (documents : list Document) (score_threshold : option Q) (top_n : option Z)
  : M state (list Document) :=
  query_scores <- _calculate_keyword_score query documents;;
  query_vector_scores <- _calculate_cosine tenant_id query documents (vector_setting weights);;
  rerank_documents <- fuse weights score_threshold (zip3 documents query_scores query_vector_scores);;
  keyed <- map_m (fun x => k <- sort_key x;; ret (k, x)) rerank_documents;;
  let sorted := map snd (sort_desc keyed) in
  ret (if truthy_int top_n
       then match top_n with Some n => slice_to n sorted | None => sorted end
       else sorted).

(** The operations on the class: [run] and the class methods. *)
Inductive op : Type :=
| OpRun (tenant_id : string) (weights : Weights) (query : string)
    (documents : list Document) (score_threshold : option Q) (top_n : option Z)
| OpClearCache
| OpClearCacheStats
| OpGetCacheStats
| OpEvictLru
| OpCleanupExpired.

Definition run_op (o : op) (s : state) : state :=
  match o with
  | OpRun tenant_id weights query documents score_threshold top_n =>
      snd (run tenant_id weights query documents score_threshold top_n s)
  | OpClearCache => snd (clear_cache s)
  | OpClearCacheStats => snd (clear_cache_stats s)
  | OpGetCacheStats => snd (get_cache_stats s)
  | OpEvictLru => snd (_evict_lru_embedding_model s)
  | OpCleanupExpired => snd (_cleanup_expired_embeddings s)
  end.

Definition run_ops (ops : list op) (s : state) : state :=
  fold_left (fun s o => run_op o s) ops s.

Definition initial (h : heap) (clk : nat -> Z) (models : nat -> result CacheEmbedding) : state :=
  State h (Cache.initial clk models).

End Runner.
End WeightRerankRunner.

(** ** [class RerankModelRunner] *)

Module RerankModelRunner.

(** One entry of [rerank_result.docs]. *)
Record RerankDocument : Type := {
  index_ : Z;
  text : string;
  score : Q }.

Section Runner.
Context {ModelInstance : Type}.

(** [ModelInstance.invoke_rerank] *)
Variable invoke_rerank :
  ModelInstance -> string -> list string -> option Q -> option Z -> option string ->
  result (list RerankDocument).

(** [Document(page_content=..., metadata=..., provider=...)].  The class
    [Document] is not among the sources, so its constructor is a
    collaborator: given the text of a result, and the metadata and the
    provider of the document the result points at, it gives the new
    document.  Whether the new document holds the dict it was given or a
    dict of its own is the constructor's business, which is why it works on
    the heap.  Its arguments are a text of the rerank result and two fields
    of a document that was constructed before, and it is taken to return. *)
Variable new_document : string -> option loc -> string -> heap -> Document * heap.

Definition construct (page_content : string) (metadata : option loc) (provider : string)
  : M heap Document :=
  fun h =>
    let built := new_document page_content metadata provider h in
    (Ok (fst built), snd built).

Fixpoint collect (documents : list Document) (score_threshold : option Q)
  (results : list RerankDocument) : M heap (list Document) :=
  match results with
  | [] => ret []
  | r :: rest =>
      if match score_threshold with None => true | Some t => Qle_bool t (score r) end then
        d <- index documents (index_ r);;
        rerank_document <- construct (text r) (metadata d) (provider d);;
        match metadata rerank_document with
        | Some l =>
            modify (dict_set l "score" (PyFloat (Num (score r))));;
            kept <- collect documents score_threshold rest;;
            ret (rerank_document :: kept)
        | None => collect documents score_threshold rest
        end
      else collect documents score_threshold rest
  end.

(** The sort key [x.metadata.get("score", 0.0)]. *)
Definition sort_key (x : Document) : M heap pyfloat :=
  h <- gets (fun h => h);;
  match metadata x with
  | None => raise (OtherError "AttributeError")
  | Some l =>
      match h l !! "score"%string with
      | Some (PyFloat q) => ret q
      | Some _ => raise TypeError
      | None => ret (Num 0)
      end
  end.

Definition run (rerank_model_instance : ModelInstance) (query : string)
  (documents : list Document) (score_threshold : option Q) (top_n : option Z)
  (user : option string) : M heap (list Document) :=
  let docs := map page_content documents in
  rerank_result <-
    (fun h => (invoke_rerank rerank_model_instance query docs score_threshold top_n user, h));;
  rerank_documents <- collect documents score_threshold rerank_result;;
  keyed <- map_m (fun x => k <- sort_key x;; ret (k, x)) rerank_documents;;
  let sorted := map snd (sort_desc keyed) in
  ret (if truthy_int top_n
       then match top_n with Some n => slice_to n sorted | None => sorted end
       else sorted).

End Runner.
End RerankModelRunner.

(** ** [class DataPostProcessor] *)

Module DataPostProcessor.

Definition _RERANK_MODEL_CACHE_TTL_SECONDS : Z := 1800.

Definition _RERANK_MODEL_CACHE_MAX_SIZE : nat := 50.

Definition _generate_rerank_model_cache_key (tenant_id provider model : string) : string :=
  let key_str := key_str3 tenant_id provider model in
  Md5.hexdigest key_str.

(** Modelled from the spec: the members of [RerankMode]
    ([core/rag/rerank/rerank_type.py] is not among the sources); the mode
    table of the post-processor names the two modes by these strings. *)
Definition RERANKING_MODEL : string := "reranking_model".

Definition WEIGHTED_SCORE : string := "weighted_score".

Section Processor.
Context {ModelInstance CacheEmbedding : Type}.

(** The collaborators of the runners and [ReorderRunner.run]. *)
Variable extract_keywords : string -> list string.
Variable embed_query : CacheEmbedding -> string -> result (list Q).
Variable math_log : Q -> Q.
Variable math_sqrt : Q -> Q.
Variable invoke_rerank :
  ModelInstance -> string -> list string -> option Q -> option Z -> option string ->
  result (list RerankModelRunner.RerankDocument).
Variable new_document : string -> option loc -> string -> heap -> Document * heap.
Variable reorder_run : list Document -> list Document.

(** The two implementations of [BaseRerankRunner]. *)
Inductive runner : Type :=
| ModelRunner (rerank_model_instance : ModelInstance)
| WeightRunner (tenant_id : string) (weights : Weights).

Record processor : Type := {
  rerank_runner : option runner;
  reorder_runner : bool }.

Definition cache_state : Type := Cache.world (V := ModelInstance).

Definition _is_cache_expired (cached_time : Z) : M cache_state bool :=
  Cache.is_cache_expired _RERANK_MODEL_CACHE_TTL_SECONDS cached_time.

Definition _evict_lru_rerank_model : M cache_state unit := Cache.evict_lru.

Definition _cleanup_expired_rerank_models : M cache_state unit :=
  Cache.cleanup_expired _RERANK_MODEL_CACHE_TTL_SECONDS.

Definition clear_cache : M cache_state unit := Cache.clear_cache.

Definition clear_cache_stats : M cache_state unit := Cache.clear_cache_stats.

Definition get_cache_stats : M cache_state (Cache.stats * Q * nat) := Cache.get_cache_stats.

Definition _get_rerank_model_instance (tenant_id : string)
  (reranking_model : option (gmap string string)) : M cache_state (option ModelInstance) :=
  match reranking_model with
  | None => ret None
  | Some d =>
      if decide (d = ∅) then ret None
      else
        let reranking_provider_name := d !! "reranking_provider_name"%string in
        let reranking_model_name := d !! "reranking_model_name"%string in
        if negb (truthy_str reranking_provider_name) || negb (truthy_str reranking_model_name)
        then ret None
        else
          let cache_key :=
            _generate_rerank_model_cache_key tenant_id
              (default ""%string reranking_provider_name)
              (default ""%string reranking_model_name) in
          Cache.get_cached_or_none _RERANK_MODEL_CACHE_TTL_SECONDS
            _RERANK_MODEL_CACHE_MAX_SIZE cache_key Cache.load_instance
  end.

(** The entries [_get_rerank_runner] reads from the [weights] dict. *)
Definition weight_entry {S} (weights : gmap string (gmap string pyval))
  (setting name : string) : M S pyval :=
  match weights !! setting with
  | None => raise (KeyError setting)
  | Some d =>
      match d !! name with
      | None => raise (KeyError name)
      | Some v => ret v
      end
  end.

Definition as_float {S} (v : pyval) : M S pyfloat :=
  match v with
  | PyFloat x => ret x
  | _ => raise (OtherError "ValidationError")
  end.

Definition as_str {S} (v : pyval) : M S string :=
  match v with
  | PyStr s => ret s
  | _ => raise (OtherError "ValidationError")
  end.

Definition make_weights {S} (weights : gmap string (gmap string pyval)) : M S Weights :=
  vw <- weight_entry weights "vector_setting" "vector_weight";;
  vw <- as_float vw;;
  pn <- weight_entry weights "vector_setting" "embedding_provider_name";;
  pn <- as_str pn;;
  mn <- weight_entry weights "vector_setting" "embedding_model_name";;
  mn <- as_str mn;;
  kw <- weight_entry weights "keyword_setting" "keyword_weight";;
  kw <- as_float kw;;
  ret {| vector_setting :=
           {| vector_weight := vw; embedding_provider_name := pn; embedding_model_name := mn |};
         keyword_setting := {| keyword_weight := kw |} |}.

(** Modelled from the spec: [RerankRunnerFactory.create_rerank_runner]
    ([core/rag/rerank/rerank_factory.py] is not among the sources): the
    weighted-score mode yields the weighted runner and the reranking-model
    mode the model runner. *)
Definition create_rerank_runner {S} (runner_type : string) (tenant_id : option string)
  (weights : option Weights) (rerank_model_instance : option ModelInstance) : M S runner :=
  if String.eqb runner_type RERANKING_MODEL then
    match rerank_model_instance with
    | Some inst => ret (ModelRunner inst)
    | None => raise TypeError
    end
  else if String.eqb runner_type WEIGHTED_SCORE then
    match tenant_id, weights with
    | Some t, Some w => ret (WeightRunner t w)
    | _, _ => raise TypeError
    end
  else raise (ValueError "Unknown runner type").

Definition _get_rerank_runner (reranking_mode tenant_id : string)
  (reranking_model : option (gmap string string))
  (weights : option (gmap string (gmap string pyval))) : M cache_state (option runner) :=
  let weights_given :=
    match weights with
    | Some w => if decide (w = ∅) then None else Some w
    | None => None
    end in
  match String.eqb reranking_mode WEIGHTED_SCORE, weights_given with
  | true, Some w =>
      ws <- make_weights w;;
      runner <- create_rerank_runner reranking_mode (Some tenant_id) (Some ws) None;;
      ret (Some runner)
  | _, _ =>
      if String.eqb reranking_mode RERANKING_MODEL then
        rerank_model_instance <- _get_rerank_model_instance tenant_id reranking_model;;
        match rerank_model_instance with
        | None => ret None
        | Some inst =>
            runner <- create_rerank_runner reranking_mode None None (Some inst);;
            ret (Some runner)
        end
      else ret None
  end.

Definition _get_reorder_runner (reorder_enabled : bool) : bool := reorder_enabled.

Definition __init__ (tenant_id reranking_mode : string)
  (reranking_model : option (gmap string string))
  (weights : option (gmap string (gmap string pyval))) (reorder_enabled : bool)
  : M cache_state processor :=
  r <- _get_rerank_runner reranking_mode tenant_id reranking_model weights;;
  ret {| rerank_runner := r; reorder_runner := _get_reorder_runner reorder_enabled |}.

Definition run_state : Type := WeightRerankRunner.state (CacheEmbedding := CacheEmbedding).

(** [self.rerank_runner.run(query, documents, score_threshold, top_n, user)] *)
Definition runner_run (r : runner) (query : string) (documents : list Document)
  (score_threshold : option Q) (top_n : option Z) (user : option string)
  : M run_state (list Document) :=
  match r with
  | ModelRunner inst =>
      zoom WeightRerankRunner.docs_heap
           (fun h s => WeightRerankRunner.State h (WeightRerankRunner.embedding_cache s))
           (RerankModelRunner.run invoke_rerank new_document inst query documents
              score_threshold top_n user)
  | WeightRunner tenant_id weights =>
      WeightRerankRunner.run extract_keywords embed_query math_log math_sqrt
        tenant_id weights query documents score_threshold top_n
  end.

Definition invoke (self : processor) (query : string) (documents : list Document)
  (score_threshold : option Q) (top_n : option Z) (user : option string)
  : M run_state (list Document) :=
  documents <-
    match rerank_runner self with
    | Some r => runner_run r query documents score_threshold top_n user
    | None => ret documents
    end;;
  documents <-
    (if reorder_runner self then ret (reorder_run documents) else ret documents);;
  ret documents.

(** The operations on the rerank-model cache: the constructor and the
    class methods. *)
Inductive op : Type :=
| OpNew (tenant_id reranking_mode : string) (reranking_model : option (gmap string string))
    (weights : option (gmap string (gmap string pyval))) (reorder_enabled : bool)
| OpClearCache
| OpClearCacheStats
| OpGetCacheStats
| OpEvictLru
| OpCleanupExpired.

Definition run_op (o : op) (s : cache_state) : cache_state :=
  match o with
  | OpNew tenant_id reranking_mode reranking_model weights reorder_enabled =>
      snd (__init__ tenant_id reranking_mode reranking_model weights reorder_enabled s)
  | OpClearCache => snd (clear_cache s)
  | OpClearCacheStats => snd (clear_cache_stats s)
  | OpGetCacheStats => snd (get_cache_stats s)
  | OpEvictLru => snd (_evict_lru_rerank_model s)
  | OpCleanupExpired => snd (_cleanup_expired_rerank_models s)
  end.

Definition run_ops (ops : list op) (s : cache_state) : cache_state :=
  fold_left (fun s o => run_op o s) ops s.

End Processor.
End DataPostProcessor.

(** ** [schedule/mail_clean_document_notify_task.py] *)

Module MailCleanDocumentNotifyTask.

(** The columns the task reads. *)
Record DatasetAutoDisableLog : Type := {
  tenant_id : string;
  dataset_id : string;
  document_id : string }.

Record Tenant : Type := { id : string }.

Record TenantAccountJoin : Type := { account_id : string }.

Record Account : Type := { email : string }.

Record Dataset : Type := { name : string }.

(** A dict whose values are lists, in insertion order. *)
Definition dict (X : Type) : Type := list (string * list X).

Fixpoint dict_get {X} (d : dict X) (key : string) : option (list X) :=
  match d with
  | [] => None
  | (k, v) :: rest => if String.eqb k key then Some v else dict_get rest key
  end.

Fixpoint dict_put {X} (d : dict X) (key : string) (v : list X) : dict X :=
  match d with
  | [] => [(key, v)]
  | (k, v') :: rest => if String.eqb k key then (k, v) :: rest else (k, v') :: dict_put rest key v
  end.

Section Task.

(** The mail extension, the tables and the template engine. *)
Variable mail_is_inited : bool.
Variable unnotified_logs : result (list DatasetAutoDisableLog).
Variable tenant_first : string -> result (option Tenant).
Variable owner_join_first : string -> result (option TenantAccountJoin).
Variable account_first : string -> result (option Account).
Variable dataset_first : string -> result (option Dataset).
Variable render_template : string -> result string.
Variable mail_send_outcome : string -> string -> string -> result unit.

(** The mails handed to [mail.send]: recipient, subject and body. *)
Definition outbox : Type := list (string * string * string).

Definition lift {A} (r : result A) : M outbox A := fun s => (r, s).

(** [mail.send(to=..., subject=..., html=...)] *)
Definition mail_send (to subject html : string) : M outbox unit :=
  fun s => (mail_send_outcome to subject html, s ++ [(to, subject, html)]).

(** [try: m except Exception: handler]; every exception of the model is
    an [Exception]. *)
Definition try_except {A} (m handler : M outbox A) : M outbox A :=
  fun s => match m s with
           | (Raise _, s') => handler s'
           | r => r
           end.

(** The name [to] is read twice and bound nowhere: the function assigns
    no [to], the module defines and imports none, and it is no builtin.
    Reading it raises [NameError]. *)
Definition load_to : M outbox string :=
  raise (OtherError "NameError: name 'to' is not defined").

(** [d[key].append(x)] on a plain dict: a key the dict lacks raises
    [KeyError]. *)
Definition append_at {X} (d : dict X) (key : string) (x : X) : M outbox (dict X) :=
  match dict_get d key with
  | Some l => ret (dict_put d key (l ++ [x]))
  | None => raise (KeyError key)
  end.

(** [for x in xs: d[key(x)].append(value(x))] *)
Fixpoint append_each {X Y} (key : X -> string) (value : X -> Y) (xs : list X) (d : dict Y)
  : M outbox (dict Y) :=
  match xs with
  | [] => ret d
  | x :: rest => d' <- append_at d (key x) (value x);; append_each key value rest d'
  end.

(** [str(n)] for a count. *)
Definition str (n : nat) : string := NilEmpty.string_of_uint (Nat.to_uint n).

(** The loop over the datasets of a tenant, which fills [knowledge_details]. *)
Fixpoint dataset_details (entries : dict string) (knowledge_details : list string)
  : M outbox (list string) :=
  match entries with
  | [] => ret knowledge_details
  | (dataset_id, document_ids) :: rest =>
      dataset <- lift (dataset_first dataset_id);;
      match dataset with
      | Some dataset =>
          let document_count := length document_ids in
          dataset_details rest
            (knowledge_details
             ++ ["<li>Knowledge base " ++ name dataset ++ ": " ++ str document_count
                 ++ " documents</li>"]%string)
      | None => dataset_details rest knowledge_details
      end
  end.

(** The body of the loop over the tenants; [knowledge_details] is built and
    not used. *)
Definition notify_tenant (entry : string * list DatasetAutoDisableLog) : M outbox unit :=
  let '(tenant_id, tenant_dataset_auto_disable_logs) := entry in
  tenant <- lift (tenant_first tenant_id);;
  match tenant with
  | None => ret tt
  | Some tenant =>
      current_owner_join <- lift (owner_join_first (id tenant));;
      owner_id <- match current_owner_join with
                  | Some j => ret (account_id j)
                  | None => raise (OtherError "AttributeError")
                  end;;
      account <- lift (account_first owner_id);;
      match account with
      | None => ret tt
      | Some _ =>
          dataset_auto_dataset_map <-
            append_each dataset_id document_id tenant_dataset_auto_disable_logs [];;
          knowledge_details <- dataset_details dataset_auto_dataset_map [];;
          ret tt
      end
  end.

Definition send_document_clean_notify_task : M outbox unit :=
  if negb mail_is_inited then ret tt
  else
    try_except
      (dataset_auto_disable_logs <- lift unnotified_logs;;
       dataset_auto_disable_logs_map <-
         append_each tenant_id (fun log => log) dataset_auto_disable_logs [];;
       for_each dataset_auto_disable_logs_map notify_tenant;;
       html_content <- lift (render_template "clean_document_job_mail_template-US.html");;
       to <- load_to;;
       mail_send to "立即加入 Dify 工作空间" html_content)
      (to <- load_to;;
       ret tt).

End Task.
End MailCleanDocumentNotifyTask.

(** ** Threads that look up the cache at the same time

    Each thread runs the code of [Cache.get_cached] (or of
    [Cache.get_cached_or_none] when [catch_auth] is set), cut into steps
    that the interpreter runs without interruption: one operation on the
    [OrderedDict], one reading of the clock, one construction.  A counter
    update and the release of the lock are joined to the step before them.
    [threading.Lock] is the thread that holds it, if any; a thread that
    raises inside [with lock:] releases it. *)

Module Concurrent.
Section Threads.
Context {V : Type}.
Variable TTL_SECONDS : Z.
Variable MAX_SIZE : nat.
Variable catch_auth : bool.

(** Where a thread stands, with the locals it holds there. *)
Inductive pc : Type :=
| PStart
| PFirstGet
| PFirstExpiry (cached : V) (cached_time : Z)
| PHitLock (cached : V)
| PHitMove (cached : V)
| PHitLog (cached : V)
| PExpLock
| PExpDel
| PMissLock
| PDoubleCheck
| PDoubleGet
| PDoubleExpiry (cached : V) (cached_time : Z)
| PDoubleMove (cached : V)
| PMiss
| PSweepScan
| PSweepDel (expired_keys : list string)
| PConstruct
| PEvict (instance : V)
| PStore (instance : V)
| PDone (r : result (option V)).

Record sys : Type := Sys {
  shared : Cache.world (V := V);
  lock : option nat;
  threads : list (string * pc) }.

(** Run [m]; on success continue at [k a], on a raise finish with the
    exception and leave the lock as [lock_on_raise] says. *)
Definition next {A} (m : M (Cache.world (V := V)) A) (w : Cache.world (V := V))
  (lock_on_raise : option nat) (k : A -> pc * option nat)
  : option (pc * option nat * Cache.world (V := V)) :=
  match m w with
  | (Ok a, w') => let '(p, l) := k a in Some (p, l, w')
  | (Raise e, w') => Some (PDone (Raise e), lock_on_raise, w')
  end.

(** [with lock:] entered by thread [me]: possible only when the lock is free. *)
Definition acquire (me : nat) (l : option nat) (w : Cache.world (V := V)) (p : pc)
  : option (pc * option nat * Cache.world (V := V)) :=
  match l with
  | None => Some (p, Some me, w)
  | Some _ => None
  end.

Definition step (me : nat) (key : string) (p : pc) (l : option nat)
  (w : Cache.world (V := V)) : option (pc * option nat * Cache.world (V := V)) :=
  match p with
  | PStart =>
      next (Cache.contains key) w l (fun present => (if present then PFirstGet else PMissLock, l))
  | PFirstGet =>
      next (Cache.getitem key) w l (fun e => (PFirstExpiry (fst e) (snd e), l))
  | PFirstExpiry cached cached_time =>
      next (Cache.is_cache_expired TTL_SECONDS cached_time) w l
           (fun is_expired => (if negb is_expired then PHitLock cached else PExpLock, l))
  | PHitLock cached => acquire me l w (PHitMove cached)
  | PHitMove cached =>
      next (Cache.move_to_end key;; Cache.incr_hits) w None (fun _ => (PHitLog cached, None))
  | PHitLog cached =>
      next Cache.time_time w l (fun _ => (PDone (Ok (Some cached)), l))
  | PExpLock => acquire me l w PExpDel
  | PExpDel =>
      next (Cache.delitem key;; Cache.incr_expired) w None (fun _ => (PMissLock, None))
  | PMissLock => acquire me l w PDoubleCheck
  | PDoubleCheck =>
      next (Cache.contains key) w None (fun present => (if present then PDoubleGet else PMiss, l))
  | PDoubleGet =>
      next (Cache.getitem key) w None (fun e => (PDoubleExpiry (fst e) (snd e), l))
  | PDoubleExpiry cached cached_time =>
      next (Cache.is_cache_expired TTL_SECONDS cached_time) w None
           (fun is_expired => (if negb is_expired then PDoubleMove cached else PMiss, l))
  | PDoubleMove cached =>
      next (Cache.move_to_end key;; Cache.incr_hits) w None
           (fun _ => (PDone (Ok (Some cached)), None))
  | PMiss => next Cache.incr_misses w None (fun _ => (PSweepScan, l))
  | PSweepScan =>
      next (current_time <- Cache.time_time;;
            c <- gets Cache.cache;;
            ret (map fst (List.filter (fun e => TTL_SECONDS <? current_time - snd (snd e)) c)))
           w None (fun expired_keys => (PSweepDel expired_keys, l))
  | PSweepDel [] => Some (PConstruct, l, w)
  | PSweepDel (key' :: rest) =>
      next (Cache.delitem key';; Cache.incr_expired) w None (fun _ => (PSweepDel rest, l))
  | PConstruct =>
      match Cache.load_instance w with
      | (Ok v, w') => Some (PEvict v, l, w')
      | (Raise e, w') =>
          Some (match e with
                | InvokeAuthorizationError =>
                    if catch_auth then PDone (Ok None) else PDone (Raise e)
                | _ => PDone (Raise e)
                end, None, w')
      end
  | PEvict instance =>
      next (c <- gets Cache.cache;;
            if (MAX_SIZE <=? length c)%nat then Cache.evict_lru else ret tt)
           w None (fun _ => (PStore instance, l))
  | PStore instance =>
      next (now <- Cache.time_time;; Cache.setitem key (instance, now)) w None
           (fun _ => (PDone (Ok (Some instance)), None))
  | PDone _ => None
  end.

(** Thread [i] makes its next step, if it has one. *)
Definition sys_step (i : nat) (s : sys) : sys :=
  match threads s !! i with
  | None => s
  | Some (key, p) =>
      match step i key p (lock s) (shared s) with
      | None => s
      | Some (p', l', w') => Sys w' l' (<[i := (key, p')]> (threads s))
      end
  end.

(** A schedule names the thread that runs at each instant. *)
Definition run (schedule : list nat) (s : sys) : sys :=
  fold_left (fun s i => sys_step i s) schedule s.

(** [n] threads that all start a lookup of [key]. *)
Definition start (n : nat) (key : string) (w : Cache.world (V := V)) : sys :=
  Sys w None (replicate n (key, PStart)).

(** One thread alone, for at most [fuel] steps. *)
Fixpoint run_alone (fuel : nat) (key : string) (p : pc) (l : option nat)
  (w : Cache.world (V := V)) : pc * option nat * Cache.world (V := V) :=
  match fuel with
  | O => (p, l, w)
  | S fuel' =>
      match step 0 key p l w with
      | None => (p, l, w)
      | Some (p', l', w') => run_alone fuel' key p' l' w'
      end
  end.

End Threads.
End Concurrent.

(** * Properties *)

(** ** The monad *)

Lemma bind_ok {S A B} (m : M S A) (k : A -> M S B) s a s' :
  m s = (Ok a, s') -> bind m k s = k a s'.
Proof. intros H. unfold bind. now rewrite H. Qed.

Lemma bind_raise {S A B} (m : M S A) (k : A -> M S B) s e s' :
  m s = (Raise e, s') -> bind m k s = (Raise e, s').
Proof. intros H. unfold bind. now rewrite H. Qed.

(** A property of the state that a computation keeps, however it ends. *)
Definition preserves {S A} (I : S -> Prop) (m : M S A) : Prop :=
  forall s, I s -> I (snd (m s)).

Lemma preserves_ret {S A} (I : S -> Prop) (a : A) : preserves I (ret a).
Proof. intros s H. exact H. Qed.

Lemma preserves_raise {S A} (I : S -> Prop) e : preserves I (raise (A := A) e).
Proof. intros s H. exact H. Qed.

Lemma preserves_gets {S A} (I : S -> Prop) (f : S -> A) : preserves I (gets f).
Proof. intros s H. exact H. Qed.

Lemma preserves_bind {S A B} (I : S -> Prop) (m : M S A) (k : A -> M S B) :
  preserves I m -> (forall a, preserves I (k a)) -> preserves I (bind m k).
Proof.
  intros Hm Hk s H. unfold bind. specialize (Hm s H).
  destruct (m s) as [[a|e] s']; simpl in *.
  - apply Hk, Hm.
  - exact Hm.
Qed.

Lemma preserves_try {S A} (I : S -> Prop) (m h : M S A) :
  preserves I m -> preserves I h -> preserves I (try_except_auth m h).
Proof.
  intros Hm Hh s H. unfold try_except_auth. specialize (Hm s H).
  destruct (m s) as [[a|e] s']; simpl in *; [exact Hm|].
  destruct e; simpl; try exact Hm. apply Hh, Hm.
Qed.

Lemma preserves_for_each {S A} (I : S -> Prop) (xs : list A) (body : A -> M S unit) :
  (forall x, preserves I (body x)) -> preserves I (for_each xs body).
Proof.
  intros Hb. induction xs as [|x xs IH]; simpl.
  - apply preserves_ret.
  - apply preserves_bind; [apply Hb | intros _; exact IH].
Qed.

Lemma preserves_map_m {S A B} (I : S -> Prop) (f : A -> M S B) (xs : list A) :
  (forall x, preserves I (f x)) -> preserves I (map_m f xs).
Proof.
  intros Hf. induction xs as [|x xs IH]; simpl.
  - apply preserves_ret.
  - apply preserves_bind; [apply Hf | intros y].
    apply preserves_bind; [exact IH | intros ys; apply preserves_ret].
Qed.

Lemma preserves_zoom {S T A} (I : T -> Prop) (get : S -> T) (put : T -> S -> S)
  (m : M T A) :
  (forall t s, get (put t s) = t) ->
  preserves I m -> preserves (fun s => I (get s)) (zoom get put m).
Proof.
  intros Hgp Hm s H. unfold zoom. specialize (Hm (get s) H).
  destruct (m (get s)) as [r t']; simpl in *. now rewrite Hgp.
Qed.

(** A computation on one component leaves what the other components say. *)
Lemma preserves_zoom_other {S T A} (J : S -> Prop) (get : S -> T) (put : T -> S -> S)
  (m : M T A) :
  (forall t s, J s -> J (put t s)) -> preserves J (zoom get put m).
Proof.
  intros Hput s H. unfold zoom. destruct (m (get s)) as [r t']; simpl. now apply Hput.
Qed.

Create HintDb pres.
#[export] Hint Resolve preserves_ret preserves_raise preserves_gets preserves_bind
  preserves_try preserves_for_each preserves_map_m : pres.

(** ** The ordered dict *)

Section OrderedDictFacts.
Context {E : Type}.
Implicit Types (d : OD.t (E := E)) (k : string) (e : E).

Lemma od_remove_length d k : (length (OD.remove k d) <= length d)%nat.
Proof. unfold OD.remove. apply List.filter_length_le. Qed.

Lemma od_lookup_remove d k : OD.lookup k (OD.remove k d) = None.
Proof.
  induction d as [|[k' e'] d IH]; simpl; [reflexivity|].
  destruct (String.eqb k' k) eqn:Hk; simpl; [exact IH|].
  now rewrite Hk.
Qed.

Lemma od_lookup_remove_ne d k k' : k' <> k -> OD.lookup k' (OD.remove k d) = OD.lookup k' d.
Proof.
  intros Hne. induction d as [|[k1 e1] d IH]; simpl; [reflexivity|].
  destruct (String.eqb k1 k) eqn:Hk; simpl.
  - apply String.eqb_eq in Hk. subst k1.
    destruct (String.eqb k k') eqn:Hk'; [apply String.eqb_eq in Hk'; congruence | exact IH].
  - destruct (String.eqb k1 k'); [reflexivity | exact IH].
Qed.

Lemma od_remove_mem_length d k :
  OD.mem k d = true -> (length (OD.remove k d) < length d)%nat.
Proof.
  unfold OD.mem. induction d as [|[k' e'] d IH]; simpl; [discriminate|].
  destruct (String.eqb k' k) eqn:Hk; simpl.
  - intros _. pose proof (od_remove_length d k). lia.
  - intros H. specialize (IH H). lia.
Qed.

Lemma od_remove_absent d k : OD.lookup k d = None -> OD.remove k d = d.
Proof.
  induction d as [|[k' e'] d IH]; simpl; [reflexivity|].
  destruct (String.eqb k' k) eqn:Hk; simpl; [discriminate|].
  intros H. now rewrite IH.
Qed.

Lemma od_lookup_app d1 d2 k :
  OD.lookup k (d1 ++ d2) =
  match OD.lookup k d1 with Some e => Some e | None => OD.lookup k d2 end.
Proof.
  induction d1 as [|[k' e'] d1 IH]; simpl; [reflexivity|].
  destruct (String.eqb k' k); [reflexivity | exact IH].
Qed.

Lemma od_to_end_length d k e :
  OD.mem k d = true -> (length (OD.to_end k e d) <= length d)%nat.
Proof.
  intros H. unfold OD.to_end. rewrite length_app. simpl.
  pose proof (od_remove_mem_length d k H). lia.
Qed.

Lemma od_set_length d k e :
  length (OD.set k e d) = if OD.mem k d then length d else S (length d).
Proof.
  unfold OD.mem. induction d as [|[k' e'] d IH]; simpl; [reflexivity|].
  destruct (String.eqb k' k); simpl; [reflexivity|].
  rewrite IH. now destruct (OD.lookup k d).
Qed.

Lemma od_set_absent d k e : OD.lookup k d = None -> OD.set k e d = d ++ [(k, e)].
Proof.
  induction d as [|[k' e'] d IH]; simpl; [reflexivity|].
  destruct (String.eqb k' k); [discriminate|].
  intros H. now rewrite IH.
Qed.

Lemma od_lookup_set d k e : OD.lookup k (OD.set k e d) = Some e.
Proof.
  induction d as [|[k' e'] d IH]; simpl.
  - now rewrite String.eqb_refl.
  - destruct (String.eqb k' k) eqn:Hk; simpl; now rewrite Hk.
Qed.

Lemma od_lookup_set_ne d k k' e : k' <> k -> OD.lookup k' (OD.set k e d) = OD.lookup k' d.
Proof.
  intros Hne. induction d as [|[k1 e1] d IH]; simpl.
  - destruct (String.eqb k k') eqn:Hk; [apply String.eqb_eq in Hk; congruence | reflexivity].
  - destruct (String.eqb k1 k) eqn:Hk; simpl.
    + apply String.eqb_eq in Hk. subst k1.
      destruct (String.eqb k k') eqn:Hk'; [apply String.eqb_eq in Hk'; congruence | reflexivity].
    + now rewrite IH.
Qed.

Lemma od_keys_remove d k : OD.keys (OD.remove k d) = List.filter (fun k' => negb (String.eqb k' k)) (OD.keys d).
Proof.
  unfold OD.keys, OD.remove. induction d as [|[k' e'] d IH]; simpl; [reflexivity|].
  destruct (String.eqb k' k); simpl; now rewrite IH.
Qed.

Lemma od_lookup_keys d k : OD.lookup k d = None <-> ~ In k (OD.keys d).
Proof.
  unfold OD.keys. induction d as [|[k' e'] d IH]; simpl; [tauto|].
  destruct (String.eqb k' k) eqn:Hk.
  - apply String.eqb_eq in Hk. split; [discriminate | tauto].
  - apply String.eqb_neq in Hk. tauto.
Qed.

End OrderedDictFacts.

(** ** The size of a cache *)

Section CacheSize.
Context {V : Type}.
Variable TTL_SECONDS : Z.
Variable MAX_SIZE : nat.

(** [len(cache) <= MAX_SIZE] *)
Definition sized (w : Cache.world (V := V)) : Prop :=
  (length (Cache.cache w) <= MAX_SIZE)%nat.

Lemma sized_time_time : preserves sized Cache.time_time.
Proof. intros w H. exact H. Qed.

Lemma sized_load_instance : preserves sized Cache.load_instance.
Proof. intros w H. exact H. Qed.

Lemma sized_set_stats f : preserves sized (modify (Cache.set_stats f)).
Proof. intros w H. exact H. Qed.

Lemma sized_getitem k : preserves sized (Cache.getitem k).
Proof.
  intros w H. unfold Cache.getitem, bind, gets. simpl.
  now destruct (OD.lookup k (Cache.cache w)).
Qed.

Lemma sized_delitem k : preserves sized (Cache.delitem k).
Proof.
  intros w H. unfold Cache.delitem, Cache.contains, bind, gets. simpl.
  destruct (OD.mem k (Cache.cache w)); simpl; [|exact H].
  unfold sized in *. simpl. pose proof (od_remove_length (Cache.cache w) k). lia.
Qed.

Lemma sized_move_to_end k : preserves sized (Cache.move_to_end k).
Proof.
  intros w H. unfold Cache.move_to_end, Cache.getitem, bind, gets. simpl.
  destruct (OD.lookup k (Cache.cache w)) as [e|] eqn:Hl; simpl; [|exact H].
  unfold sized in *. simpl.
  assert (Hm : OD.mem k (Cache.cache w) = true) by (unfold OD.mem; now rewrite Hl).
  pose proof (od_to_end_length (Cache.cache w) k e Hm). lia.
Qed.

Lemma sized_is_cache_expired t : preserves sized (Cache.is_cache_expired TTL_SECONDS t).
Proof. intros w H. exact H. Qed.

Lemma sized_evict_lru : preserves sized Cache.evict_lru.
Proof.
  intros w H. unfold Cache.evict_lru, Cache.popitem_first, bind, gets. simpl.
  destruct (Cache.cache w) as [|x c] eqn:Hc; simpl; [exact H|].
  rewrite Hc. simpl. unfold sized in *. simpl. rewrite Hc in H. simpl in H. lia.
Qed.

Lemma sized_cleanup_expired : preserves sized (Cache.cleanup_expired TTL_SECONDS).
Proof.
  unfold Cache.cleanup_expired.
  apply preserves_bind; [apply sized_time_time | intros now].
  apply preserves_bind; [apply preserves_gets | intros c].
  apply preserves_for_each. intros key.
  apply preserves_bind; [apply sized_delitem | intros _; apply sized_set_stats].
Qed.

Lemma sized_first_check k : preserves sized (Cache.first_check TTL_SECONDS k).
Proof.
  unfold Cache.first_check, Cache.contains, Cache.incr_hits, Cache.incr_expired.
  apply preserves_bind; [apply preserves_gets | intros present].
  destruct present; [|apply preserves_ret].
  apply preserves_bind; [apply sized_getitem | intros [cached cached_time]].
  apply preserves_bind; [apply sized_is_cache_expired | intros is_expired].
  destruct is_expired; simpl.
  - apply preserves_bind; [apply sized_delitem | intros _].
    apply preserves_bind; [apply sized_set_stats | intros _; apply preserves_ret].
  - apply preserves_bind; [apply sized_move_to_end | intros _].
    apply preserves_bind; [apply sized_set_stats | intros _].
    apply preserves_bind; [apply sized_time_time | intros _; apply preserves_ret].
Qed.

Lemma sized_double_check k : preserves sized (Cache.double_check TTL_SECONDS k).
Proof.
  unfold Cache.double_check, Cache.contains, Cache.incr_hits.
  apply preserves_bind; [apply preserves_gets | intros present].
  destruct present; [|apply preserves_ret].
  apply preserves_bind; [apply sized_getitem | intros [cached cached_time]].
  apply preserves_bind; [apply sized_is_cache_expired | intros is_expired].
  destruct is_expired; simpl; [apply preserves_ret|].
  apply preserves_bind; [apply sized_move_to_end | intros _].
  apply preserves_bind; [apply sized_set_stats | intros _; apply preserves_ret].
Qed.

Lemma sized_clear_cache : preserves sized Cache.clear_cache.
Proof. intros w H. unfold sized. simpl. lia. Qed.

Lemma sized_get_cache_stats : preserves sized Cache.get_cache_stats.
Proof. intros w H. exact H. Qed.

Lemma sized_initial clk ldr : sized (Cache.initial clk ldr).
Proof. unfold sized. simpl. lia. Qed.

Hypothesis max_positive : (1 <= MAX_SIZE)%nat.

(** The store is where an entry is added: the eviction made room for it. *)
Lemma sized_store k v : preserves sized (Cache.store MAX_SIZE k v).
Proof using max_positive.
  intros w H. unfold sized in *.
  unfold Cache.store, Cache.evict_lru, Cache.popitem_first, Cache.time_time,
    Cache.setitem, Cache.incr_evictions, bind, gets, modify, ret. simpl.
  destruct (MAX_SIZE <=? length (Cache.cache w))%nat eqn:Hfull; simpl.
  - apply Nat.leb_le in Hfull.
    destruct (Cache.cache w) as [|x c] eqn:Hc; simpl in *; [lia|].
    rewrite Hc. simpl. rewrite od_set_length. destruct (OD.mem k c); lia.
  - apply Nat.leb_gt in Hfull. rewrite od_set_length.
    destruct (OD.mem k (Cache.cache w)); lia.
Qed.

Lemma sized_get_cached k construct :
  preserves sized construct ->
  preserves sized (Cache.get_cached TTL_SECONDS MAX_SIZE k construct).
Proof using max_positive.
  intros Hc. unfold Cache.get_cached, Cache.incr_misses.
  apply preserves_bind; [apply sized_first_check | intros [v|]]; [apply preserves_ret|].
  apply preserves_bind; [apply sized_double_check | intros [v|]]; [apply preserves_ret|].
  apply preserves_bind; [apply sized_set_stats | intros _].
  apply preserves_bind; [apply sized_cleanup_expired | intros _].
  apply preserves_bind; [exact Hc | intros v; apply sized_store].
Qed.

Lemma sized_get_cached_or_none k construct :
  preserves sized construct ->
  preserves sized (Cache.get_cached_or_none TTL_SECONDS MAX_SIZE k construct).
Proof using max_positive.
  intros Hc. unfold Cache.get_cached_or_none, Cache.incr_misses.
  apply preserves_bind; [apply sized_first_check | intros [v|]]; [apply preserves_ret|].
  apply preserves_bind; [apply sized_double_check | intros [v|]]; [apply preserves_ret|].
  apply preserves_bind; [apply sized_set_stats | intros _].
  apply preserves_bind; [apply sized_cleanup_expired | intros _].
  apply preserves_try; [|apply preserves_ret].
  apply preserves_bind; [exact Hc | intros v].
  apply preserves_bind; [apply sized_store | intros v'; apply preserves_ret].
Qed.

End CacheSize.

(** ** Bounded size, class by class *)

(** Read a goal about the state after a computation as [preserves]. *)
Ltac as_preserves :=
  match goal with
  | |- forall s, ?I s -> ?I (snd (?m s)) => change (preserves I m)
  end.

Lemma fold_left_invariant {S O} (I : S -> Prop) (f : S -> O -> S) (ops : list O) s :
  (forall s o, I s -> I (f s o)) -> I s -> I (fold_left f ops s).
Proof.
  intros Hf. revert s. induction ops as [|o ops IH]; simpl; intros s H; [exact H|].
  apply IH, Hf, H.
Qed.

Section VectorSize.
Context {CacheEmbedding BaseVector : Type}.
Local Abbreviation state := (Vector.state (CacheEmbedding := CacheEmbedding) (BaseVector := BaseVector)).

Definition vector_sized (s : state) : Prop :=
  sized Vector._CACHE_MAX_SIZE (Vector.embedding s)
  /\ sized Vector._CACHE_MAX_SIZE (Vector.processor s).

Lemma vector_max_positive : (1 <= Vector._CACHE_MAX_SIZE)%nat.
Proof. unfold Vector._CACHE_MAX_SIZE. lia. Qed.

Lemma vector_on_embedding {A} (m : M Cache.world A) :
  preserves (sized Vector._CACHE_MAX_SIZE) m ->
  preserves vector_sized (Vector.on_embedding m).
Proof.
  intros Hm s [He Hp]. split.
  - apply (preserves_zoom (sized Vector._CACHE_MAX_SIZE) Vector.embedding
             (fun e s => Vector.State e (Vector.processor s)) m); auto.
  - unfold Vector.on_embedding, zoom. now destruct (m (Vector.embedding s)).
Qed.

Lemma vector_on_processor {A} (m : M Cache.world A) :
  preserves (sized Vector._CACHE_MAX_SIZE) m ->
  preserves vector_sized (Vector.on_processor m).
Proof.
  intros Hm s [He Hp]. split.
  - unfold Vector.on_processor, zoom. now destruct (m (Vector.processor s)).
  - apply (preserves_zoom (sized Vector._CACHE_MAX_SIZE) Vector.processor
             (fun p s => Vector.State (Vector.embedding s) p) m); auto.
Qed.

Lemma vector_sized_get_embeddings dataset :
  preserves vector_sized (Vector._get_embeddings dataset).
Proof.
  apply vector_on_embedding, sized_get_cached;
    [apply vector_max_positive | apply sized_load_instance].
Qed.

Lemma vector_sized_init_vector cfg dataset :
  preserves vector_sized (Vector._init_vector cfg dataset).
Proof.
  unfold Vector._init_vector.
  apply preserves_bind.
  - unfold Vector.resolve_vector_type.
    apply preserves_bind.
    + destruct (Vector.index_struct_dict dataset) as [d|]; [|apply preserves_ret].
      destruct (decide (d = ∅)); [apply preserves_ret|].
      destruct (d !! "type"%string); [apply preserves_ret | apply preserves_raise].
    + intros [t|]; [|apply preserves_raise].
      destruct (String.eqb t ""); [apply preserves_raise | apply preserves_ret].
  - intros vector_type. apply vector_on_processor, sized_get_cached;
      [apply vector_max_positive|].
    apply preserves_bind; [|intros _; apply sized_load_instance].
    unfold Vector.get_vector_factory.
    destruct (Vector.known_vector_type cfg vector_type);
      [apply preserves_ret | apply preserves_raise].
Qed.

Lemma vector_sized_run_op o : forall s, vector_sized s -> vector_sized (Vector.run_op o s).
Proof.
  destruct o; unfold Vector.run_op; as_preserves;
    unfold Vector.__init__, Vector.clear_cache, Vector.clear_cache_stats,
      Vector.get_cache_stats, Vector._evict_lru_embedding, Vector._evict_lru_processor,
      Vector._cleanup_expired_embeddings, Vector._cleanup_expired_processors.
  - apply preserves_bind; [apply vector_sized_get_embeddings | intros e].
    apply preserves_bind; [apply vector_sized_init_vector | intros p; apply preserves_ret].
  - apply preserves_bind; [|intros _];
      [apply vector_on_embedding | apply vector_on_processor]; apply sized_clear_cache.
  - apply preserves_bind; [|intros _];
      [apply vector_on_embedding | apply vector_on_processor]; apply sized_set_stats.
  - apply preserves_bind; [apply vector_on_embedding, sized_get_cache_stats | intros e].
    apply preserves_bind; [apply vector_on_processor, sized_get_cache_stats | intros p].
    apply preserves_ret.
  - apply vector_on_embedding, sized_evict_lru.
  - apply vector_on_processor, sized_evict_lru.
  - apply vector_on_embedding, sized_cleanup_expired.
  - apply vector_on_processor, sized_cleanup_expired.
Qed.

End VectorSize.

Section RerankSize.
Context {ModelInstance : Type}.
Local Abbreviation cache_state := (Cache.world (V := ModelInstance)).

Lemma rerank_max_positive : (1 <= DataPostProcessor._RERANK_MODEL_CACHE_MAX_SIZE)%nat.
Proof. unfold DataPostProcessor._RERANK_MODEL_CACHE_MAX_SIZE. lia. Qed.

Lemma rerank_sized_get_instance tenant_id reranking_model :
  preserves (sized DataPostProcessor._RERANK_MODEL_CACHE_MAX_SIZE)
    (DataPostProcessor._get_rerank_model_instance (ModelInstance := ModelInstance)
       tenant_id reranking_model).
Proof.
  unfold DataPostProcessor._get_rerank_model_instance.
  destruct reranking_model as [d|]; [|apply preserves_ret].
  destruct (decide (d = ∅)); [apply preserves_ret|].
  destruct (negb _ || negb _); [apply preserves_ret|].
  apply sized_get_cached_or_none; [apply rerank_max_positive | apply sized_load_instance].
Qed.

Lemma rerank_sized_make_weights w :
  preserves (sized DataPostProcessor._RERANK_MODEL_CACHE_MAX_SIZE)
    (DataPostProcessor.make_weights (S := cache_state) w).
Proof.
  assert (He : forall setting name,
             preserves (sized DataPostProcessor._RERANK_MODEL_CACHE_MAX_SIZE)
               (DataPostProcessor.weight_entry (S := cache_state) w setting name)).
  { intros setting name. unfold DataPostProcessor.weight_entry.
    destruct (w !! setting) as [d|]; [|apply preserves_raise].
    destruct (d !! name); [apply preserves_ret | apply preserves_raise]. }
  assert (Hf : forall v,
             preserves (sized DataPostProcessor._RERANK_MODEL_CACHE_MAX_SIZE)
               (DataPostProcessor.as_float (S := cache_state) v)).
  { intros []; simpl; auto with pres. }
  assert (Hs : forall v,
             preserves (sized DataPostProcessor._RERANK_MODEL_CACHE_MAX_SIZE)
               (DataPostProcessor.as_str (S := cache_state) v)).
  { intros []; simpl; auto with pres. }
  unfold DataPostProcessor.make_weights.
  repeat (apply preserves_bind; [solve [auto] | intros ?]).
  apply preserves_ret.
Qed.

Lemma rerank_sized_create runner_type tenant_id weights (inst : option ModelInstance) :
  preserves (sized DataPostProcessor._RERANK_MODEL_CACHE_MAX_SIZE)
    (DataPostProcessor.create_rerank_runner (S := cache_state) runner_type tenant_id weights inst).
Proof.
  unfold DataPostProcessor.create_rerank_runner.
  destruct (String.eqb runner_type DataPostProcessor.RERANKING_MODEL).
  - destruct inst; auto with pres.
  - destruct (String.eqb runner_type DataPostProcessor.WEIGHTED_SCORE); [|auto with pres].
    destruct tenant_id, weights; auto with pres.
Qed.

Lemma rerank_sized_run_op o :
  forall s : cache_state,
    sized DataPostProcessor._RERANK_MODEL_CACHE_MAX_SIZE s ->
    sized DataPostProcessor._RERANK_MODEL_CACHE_MAX_SIZE (DataPostProcessor.run_op o s).
Proof.
  destruct o; unfold DataPostProcessor.run_op; as_preserves;
    unfold DataPostProcessor.__init__, DataPostProcessor.clear_cache,
      DataPostProcessor.clear_cache_stats, DataPostProcessor.get_cache_stats,
      DataPostProcessor._evict_lru_rerank_model,
      DataPostProcessor._cleanup_expired_rerank_models.
  - apply preserves_bind; [|intros r; apply preserves_ret].
    unfold DataPostProcessor._get_rerank_runner.
    assert (Hmodel :
      preserves (sized DataPostProcessor._RERANK_MODEL_CACHE_MAX_SIZE)
        (if String.eqb reranking_mode DataPostProcessor.RERANKING_MODEL
         then bind (DataPostProcessor._get_rerank_model_instance tenant_id reranking_model)
                (fun rerank_model_instance : option ModelInstance =>
                   match rerank_model_instance with
                   | Some inst =>
                       bind (DataPostProcessor.create_rerank_runner reranking_mode None None
                               (Some inst))
                            (fun runner => ret (Some runner))
                   | None => ret None
                   end)
         else ret None)).
    { destruct (String.eqb reranking_mode DataPostProcessor.RERANKING_MODEL);
        [|apply preserves_ret].
      apply preserves_bind; [apply rerank_sized_get_instance | intros [inst|]];
        [|apply preserves_ret].
      apply preserves_bind; [apply rerank_sized_create | intros r; apply preserves_ret]. }
    destruct (String.eqb reranking_mode DataPostProcessor.WEIGHTED_SCORE); [|exact Hmodel].
    destruct weights as [w|]; [|exact Hmodel].
    destruct (decide (w = ∅)); [exact Hmodel|].
    apply preserves_bind; [apply rerank_sized_make_weights | intros ws].
    apply preserves_bind; [apply rerank_sized_create | intros r; apply preserves_ret].
  - apply sized_clear_cache.
  - apply sized_set_stats.
  - apply sized_get_cache_stats.
  - apply sized_evict_lru.
  - apply sized_cleanup_expired.
Qed.

End RerankSize.

Section WeightRerankSize.
Context {CacheEmbedding : Type}.
Variable extract_keywords : string -> list string.
Variable embed_query : CacheEmbedding -> string -> result (list Q).
Variable math_log : Q -> Q.
Variable math_sqrt : Q -> Q.
Local Abbreviation state := (WeightRerankRunner.state (CacheEmbedding := CacheEmbedding)).

Definition weight_sized (s : state) : Prop :=
  sized WeightRerankRunner._EMBEDDING_CACHE_MAX_SIZE (WeightRerankRunner.embedding_cache s).

Lemma weight_max_positive : (1 <= WeightRerankRunner._EMBEDDING_CACHE_MAX_SIZE)%nat.
Proof. unfold WeightRerankRunner._EMBEDDING_CACHE_MAX_SIZE. lia. Qed.

Lemma weight_on_cache {A} (m : M Cache.world A) :
  preserves (sized WeightRerankRunner._EMBEDDING_CACHE_MAX_SIZE) m ->
  preserves weight_sized (WeightRerankRunner.on_cache m).
Proof.
  intros Hm.
  apply (preserves_zoom (sized WeightRerankRunner._EMBEDDING_CACHE_MAX_SIZE)
           WeightRerankRunner.embedding_cache
           (fun c s => WeightRerankRunner.State (WeightRerankRunner.docs_heap s) c) m); auto.
Qed.

Lemma weight_sized_set_metadata l key v :
  preserves weight_sized (WeightRerankRunner.set_metadata l key v).
Proof. intros s H. exact H. Qed.

Lemma weight_sized_collect documents :
  preserves weight_sized (WeightRerankRunner.collect_keywords extract_keywords documents).
Proof.
  induction documents as [|d ds IH]; simpl; [apply preserves_ret|].
  destruct (metadata d); [|exact IH].
  apply preserves_bind; [apply weight_sized_set_metadata | intros _].
  apply preserves_bind; [exact IH | intros others; apply preserves_ret].
Qed.

Lemma weight_sized_np_dot v1 v2 :
  preserves weight_sized (WeightRerankRunner.np_dot (S := state) v1 v2).
Proof.
  revert v2. induction v1 as [|x v1 IH]; intros [|y v2]; simpl; auto with pres.
Qed.

Lemma weight_sized_fuse weights score_threshold rows :
  preserves weight_sized (WeightRerankRunner.fuse (CacheEmbedding := CacheEmbedding)
                            weights score_threshold rows).
Proof.
  induction rows as [|[[d qs] vs] rows IH]; simpl; [apply preserves_ret|].
  destruct vs; try apply preserves_raise.
  destruct (truthy_float score_threshold && _); [exact IH|].
  destruct (metadata d); [|exact IH].
  apply preserves_bind; [apply weight_sized_set_metadata | intros _].
  apply preserves_bind; [exact IH | intros kept; apply preserves_ret].
Qed.

Lemma weight_sized_run tenant_id weights query documents score_threshold top_n :
  preserves weight_sized
    (WeightRerankRunner.run extract_keywords embed_query math_log math_sqrt
       tenant_id weights query documents score_threshold top_n).
Proof.
  unfold WeightRerankRunner.run.
  apply preserves_bind.
  { unfold WeightRerankRunner._calculate_keyword_score.
    apply preserves_bind; [apply weight_sized_collect | intros dk; apply preserves_ret]. }
  intros query_scores. apply preserves_bind.
  { unfold WeightRerankRunner._calculate_cosine.
    apply preserves_bind.
    - apply weight_on_cache, sized_get_cached;
        [apply weight_max_positive | apply sized_load_instance].
    - intros cache_embedding. apply preserves_bind; [intros s H; exact H | intros qv].
      apply preserves_map_m. intros d. unfold WeightRerankRunner.document_cosine.
      apply preserves_bind; [apply preserves_gets | intros h].
      destruct (match metadata d with Some l => h l !! "score"%string | None => None end);
        [apply preserves_ret|].
      destruct (vector d); [|apply preserves_raise].
      apply preserves_bind; [apply weight_sized_np_dot | intros dp; apply preserves_ret]. }
  intros query_vector_scores.
  apply preserves_bind; [apply weight_sized_fuse | intros rerank_documents].
  apply preserves_bind; [|intros keyed; apply preserves_ret].
  apply preserves_map_m. intros x.
  apply preserves_bind; [|intros k; apply preserves_ret].
  unfold WeightRerankRunner.sort_key.
  apply preserves_bind; [apply preserves_gets | intros h].
  destruct (metadata x) as [l|]; [|apply preserves_ret].
  destruct (decide (h l = ∅)); [apply preserves_ret|].
  destruct (h l !! "score"%string) as [[]|]; auto with pres.
Qed.

Lemma weight_sized_run_op o :
  forall s, weight_sized s ->
    weight_sized (WeightRerankRunner.run_op extract_keywords embed_query math_log math_sqrt o s).
Proof.
  destruct o; unfold WeightRerankRunner.run_op; as_preserves;
    unfold WeightRerankRunner.clear_cache, WeightRerankRunner.clear_cache_stats,
      WeightRerankRunner.get_cache_stats, WeightRerankRunner._evict_lru_embedding_model,
      WeightRerankRunner._cleanup_expired_embeddings.
  - apply weight_sized_run.
  - apply weight_on_cache, sized_clear_cache.
  - apply weight_on_cache, sized_set_stats.
  - apply weight_on_cache, sized_get_cache_stats.
  - apply weight_on_cache, sized_evict_lru.
  - apply weight_on_cache, sized_cleanup_expired.
Qed.

End WeightRerankSize.

(** C1. Whatever operations are run on a class whose caches start empty,
    in whatever order and with whatever clock readings and construction
    outcomes, each cache holds at most its maximum number of entries after
    each of them: 100 for the embedding-model and the vector-processor cache
    of [Vector], 50 for the rerank-model cache of [DataPostProcessor] and
    for the embedding cache of [WeightRerankRunner]. *)
Theorem cache_size_bounded :
  (forall (CacheEmbedding BaseVector : Type) clk_e clk_p
          (models : nat -> result CacheEmbedding) (vectors : nat -> result BaseVector) ops,
      let s := Vector.run_ops ops (Vector.initial clk_e clk_p models vectors) in
      (length (Cache.cache (Vector.embedding s)) <= 100)%nat
      /\ (length (Cache.cache (Vector.processor s)) <= 100)%nat)
  /\ (forall (ModelInstance : Type) clk (models : nat -> result ModelInstance) ops,
      (length (Cache.cache (DataPostProcessor.run_ops ops (Cache.initial clk models))) <= 50)%nat)
  /\ (forall (CacheEmbedding : Type) extract_keywords embed_query math_log math_sqrt
             h clk (models : nat -> result CacheEmbedding) ops,
      let s := WeightRerankRunner.run_ops extract_keywords embed_query math_log math_sqrt ops
                 (WeightRerankRunner.initial h clk models) in
      (length (Cache.cache (WeightRerankRunner.embedding_cache s)) <= 50)%nat).
Proof.
  split; [|split].
  - intros CacheEmbedding BaseVector clk_e clk_p models vectors ops.
    apply (fold_left_invariant vector_sized).
    + intros s o. apply vector_sized_run_op.
    + split; apply sized_initial.
  - intros ModelInstance clk models ops.
    apply (fold_left_invariant (sized DataPostProcessor._RERANK_MODEL_CACHE_MAX_SIZE)).
    + intros s o. apply rerank_sized_run_op.
    + apply sized_initial.
  - intros CacheEmbedding extract_keywords embed_query math_log math_sqrt h clk models ops.
    apply (fold_left_invariant weight_sized).
    + intros s o. apply weight_sized_run_op.
    + apply sized_initial.
Qed.

(** ** What a lookup returns *)

Lemma bind_inv {S A B} (m : M S A) (k : A -> M S B) s r s' :
  bind m k s = (r, s') ->
  (exists a s1, m s = (Ok a, s1) /\ k a s1 = (r, s'))
  \/ (exists e, m s = (Raise e, s') /\ r = Raise e).
Proof.
  unfold bind. destruct (m s) as [[a|e] s1]; intros H.
  - left. eauto.
  - right. inversion H; subst. eauto.
Qed.

Lemma bind_inv_ok {S A B} (m : M S A) (k : A -> M S B) s b s' :
  bind m k s = (Ok b, s') ->
  exists a s1, m s = (Ok a, s1) /\ k a s1 = (Ok b, s').
Proof.
  intros H. apply bind_inv in H as [H|[e [_ H]]]; [exact H | discriminate].
Qed.

Section CacheLookup.
Context {V : Type}.
Variable TTL_SECONDS : Z.
Variable MAX_SIZE : nat.
Implicit Types (w : Cache.world (V := V)) (k : string).

(** The first check either returns the cached instance of a fresh entry,
    read at the first clock reading of the call, or leaves no entry under
    the key. *)
Lemma first_check_spec k w :
  match OD.lookup k (Cache.cache w) with
  | None => Cache.first_check TTL_SECONDS k w = (Ok None, w)
  | Some (v, t) =>
      if TTL_SECONDS <? Cache.clock w (Cache.ticks w) - t then
        exists w', Cache.first_check TTL_SECONDS k w = (Ok None, w')
                   /\ Cache.cache w' = OD.remove k (Cache.cache w)
                   /\ Cache.clock w' = Cache.clock w
                   /\ Cache.ticks w' = S (Cache.ticks w)
                   /\ Cache.loader w' = Cache.loader w
                   /\ Cache.loads w' = Cache.loads w
                   /\ Cache.cache_stats w' =
                      Cache.Stats (Cache.hits (Cache.cache_stats w))
                        (Cache.misses (Cache.cache_stats w))
                        (Cache.evictions (Cache.cache_stats w))
                        (S (Cache.expired (Cache.cache_stats w)))
      else
        exists w', Cache.first_check TTL_SECONDS k w = (Ok (Some v), w')
                   /\ Cache.cache w' = OD.to_end k (v, t) (Cache.cache w)
                   /\ Cache.clock w' = Cache.clock w
                   /\ Cache.ticks w' = S (S (Cache.ticks w))
                   /\ Cache.loader w' = Cache.loader w
                   /\ Cache.loads w' = Cache.loads w
                   /\ Cache.cache_stats w' =
                      Cache.Stats (S (Cache.hits (Cache.cache_stats w)))
                        (Cache.misses (Cache.cache_stats w))
                        (Cache.evictions (Cache.cache_stats w))
                        (Cache.expired (Cache.cache_stats w))
  end.
Proof.
  unfold Cache.first_check, Cache.contains, Cache.getitem, Cache.is_cache_expired,
    Cache.move_to_end, Cache.getitem, Cache.delitem, Cache.contains, Cache.incr_hits,
    Cache.incr_expired, Cache.time_time, bind, gets, modify, ret, OD.mem.
  destruct w as [clk n ldr nl c st]. simpl.
  destruct (OD.lookup k c) as [[v t]|] eqn:Hl; simpl; [|reflexivity].
  destruct (TTL_SECONDS <? clk n - t) eqn:Hexp;
    repeat (rewrite ?Hl, ?Hexp; simpl);
    (eexists; split; [reflexivity|]; simpl; auto 10).
Qed.

(** The second check hits only an entry that is fresh when it looks. *)
Lemma double_check_spec k w :
  match OD.lookup k (Cache.cache w) with
  | None => Cache.double_check TTL_SECONDS k w = (Ok None, w)
  | Some (v, t) =>
      if TTL_SECONDS <? Cache.clock w (Cache.ticks w) - t then
        exists w', Cache.double_check TTL_SECONDS k w = (Ok None, w')
                   /\ Cache.cache w' = Cache.cache w
                   /\ Cache.clock w' = Cache.clock w
                   /\ Cache.ticks w' = S (Cache.ticks w)
                   /\ Cache.loader w' = Cache.loader w
                   /\ Cache.loads w' = Cache.loads w
                   /\ Cache.cache_stats w' = Cache.cache_stats w
      else
        exists w', Cache.double_check TTL_SECONDS k w = (Ok (Some v), w')
                   /\ Cache.cache w' = OD.to_end k (v, t) (Cache.cache w)
                   /\ Cache.clock w' = Cache.clock w
                   /\ Cache.ticks w' = S (Cache.ticks w)
                   /\ Cache.loader w' = Cache.loader w
                   /\ Cache.loads w' = Cache.loads w
                   /\ Cache.cache_stats w' =
                      Cache.Stats (S (Cache.hits (Cache.cache_stats w)))
                        (Cache.misses (Cache.cache_stats w))
                        (Cache.evictions (Cache.cache_stats w))
                        (Cache.expired (Cache.cache_stats w))
  end.
Proof.
  unfold Cache.double_check, Cache.contains, Cache.getitem, Cache.is_cache_expired,
    Cache.move_to_end, Cache.getitem, Cache.incr_hits, Cache.time_time,
    bind, gets, modify, ret, OD.mem.
  destruct w as [clk n ldr nl c st]. simpl.
  destruct (OD.lookup k c) as [[v t]|] eqn:Hl; simpl; [|reflexivity].
  destruct (TTL_SECONDS <? clk n - t) eqn:Hexp;
    repeat (rewrite ?Hl, ?Hexp; simpl);
    (eexists; split; [reflexivity|]; simpl; auto 10).
Qed.

End CacheLookup.

(** ** The sweep, the eviction and the store, as functions on the dict *)

Section CacheMiss.
Context {V : Type}.
Variable TTL_SECONDS : Z.
Variable MAX_SIZE : nat.
Implicit Types (w : Cache.world (V := V)) (k : string) (c : OD.t (E := V * Z)).

(** The entries the sweep at time [now] keeps. *)
Definition fresh_entries (now : Z) c : OD.t (E := V * Z) :=
  List.filter (fun p => negb (TTL_SECONDS <? now - snd (snd p))) c.

(** The entries left by the eviction that precedes a store. *)
Definition make_room c : OD.t (E := V * Z) :=
  if (MAX_SIZE <=? length c)%nat then tl c else c.

Definition add_expired (n : nat) (s : Cache.stats) : Cache.stats :=
  Cache.Stats (Cache.hits s) (Cache.misses s) (Cache.evictions s) (n + Cache.expired s).

Lemma sweep_loop (ks : list string) w :
  List.NoDup ks ->
  (forall k, In k ks -> OD.mem k (Cache.cache w) = true) ->
  for_each ks (fun key => Cache.delitem key;; Cache.incr_expired) w
  = (Ok tt,
     Cache.World (Cache.clock w) (Cache.ticks w) (Cache.loader w) (Cache.loads w)
       (List.filter (fun p => negb (existsb (String.eqb (fst p)) ks)) (Cache.cache w))
       (add_expired (length ks) (Cache.cache_stats w))).
Proof.
  revert w. induction ks as [|k ks IH]; intros w Hnd Hin.
  - simpl. unfold ret. f_equal. destruct w as [clk n ldr nl c [h m ev ex]]. simpl.
    unfold add_expired. simpl. f_equal.
    induction c as [|p c IHc]; simpl; [reflexivity | now rewrite <- IHc at 1].
  - apply List.NoDup_cons_iff in Hnd as [Hk Hnd].
    cbn [for_each].
    unfold Cache.delitem at 1, Cache.contains, Cache.incr_expired at 1, bind at 1 2 3, gets, modify.
    rewrite (Hin k) by (left; reflexivity). cbn [fst snd].
    rewrite IH; [|exact Hnd|].
    + f_equal. destruct w as [clk n ldr nl c [h m ev ex]]. simpl. f_equal.
      * unfold OD.remove. clear Hin. induction c as [|[k1 e1] c IHc]; simpl; [reflexivity|].
        destruct (String.eqb k1 k); simpl; [exact IHc|].
        destruct (existsb (String.eqb k1) ks); simpl; [exact IHc | now rewrite IHc].
      * unfold add_expired. simpl. f_equal. lia.
    + intros k' Hk'. simpl. unfold OD.mem. rewrite od_lookup_remove_ne.
      * apply (Hin k'). now right.
      * intros ->. contradiction.
Qed.

Lemma keys_filter_NoDup (P : string * (V * Z) -> bool) c :
  List.NoDup (OD.keys c) -> List.NoDup (map fst (List.filter P c)).
Proof.
  unfold OD.keys. induction c as [|p c IH]; simpl; intros Hnd; [constructor|].
  apply List.NoDup_cons_iff in Hnd as [Hp Hnd].
  destruct (P p); simpl; [|auto].
  constructor; [|auto].
  intros Hin. apply Hp. apply in_map_iff in Hin as [q [Hq Hin]].
  apply List.filter_In in Hin as [Hin _]. apply in_map_iff. eauto.
Qed.

Lemma filter_by_key (P : string * (V * Z) -> bool) c :
  List.NoDup (OD.keys c) ->
  List.filter (fun p => negb (existsb (String.eqb (fst p)) (map fst (List.filter P c)))) c
  = List.filter (fun p => negb (P p)) c.
Proof.
  intros Hnd. apply List.filter_ext_in. intros p Hp. f_equal.
  destruct (P p) eqn:HP.
  - apply existsb_exists. exists (fst p). split; [|apply String.eqb_refl].
    apply in_map, List.filter_In. auto.
  - apply not_true_is_false. intros Hex. apply existsb_exists in Hex as [k' [Hk' Heq]].
    apply String.eqb_eq in Heq. subst k'.
    apply in_map_iff in Hk' as [q [Hq Hin]]. apply List.filter_In in Hin as [Hin HPq].
    assert (q = p); [|congruence].
    clear HP HPq. unfold OD.keys in Hnd.
    induction c as [|x c IH]; simpl in *; [contradiction|].
    apply List.NoDup_cons_iff in Hnd as [Hx Hnd].
    destruct Hp as [->|Hp], Hin as [->|Hin]; auto.
    + exfalso. apply Hx. rewrite <- Hq. now apply in_map.
    + exfalso. apply Hx. rewrite Hq. now apply in_map.
Qed.

Lemma mem_of_In k e c : In (k, e) c -> OD.mem k c = true.
Proof.
  unfold OD.mem. induction c as [|[k1 e1] c IH]; simpl; [contradiction|].
  intros [H|H].
  - inversion H; subst. now rewrite String.eqb_refl.
  - destruct (String.eqb k1 k); [reflexivity | auto].
Qed.

(** On a dict without duplicate keys the sweep deletes exactly the entries
    older than the TTL at its one clock reading, and counts them. *)
Lemma cleanup_expired_spec w :
  List.NoDup (OD.keys (Cache.cache w)) ->
  let now := Cache.clock w (Cache.ticks w) in
  Cache.cleanup_expired TTL_SECONDS w
  = (Ok tt,
     Cache.World (Cache.clock w) (S (Cache.ticks w)) (Cache.loader w) (Cache.loads w)
       (fresh_entries now (Cache.cache w))
       (add_expired (length (Cache.cache w) - length (fresh_entries now (Cache.cache w)))
          (Cache.cache_stats w))).
Proof.
  intros Hnd now. unfold Cache.cleanup_expired.
  unfold bind at 1, Cache.time_time. unfold bind at 1, gets.
  cbn [Cache.cache Cache.clock Cache.ticks].
  rewrite sweep_loop.
  - cbn [Cache.cache Cache.clock Cache.ticks Cache.loader Cache.loads Cache.cache_stats].
    fold now. rewrite filter_by_key by exact Hnd. unfold fresh_entries.
    do 3 f_equal. rewrite length_map.
    pose proof (List.filter_length (fun p => TTL_SECONDS <? now - snd (snd p)) (Cache.cache w)).
    lia.
  - apply keys_filter_NoDup, Hnd.
  - intros k Hk. cbn [Cache.cache].
    apply in_map_iff in Hk as [[k' e] [Hk Hin]]. simpl in Hk. subst k'.
    apply List.filter_In in Hin as [Hin _]. eapply mem_of_In, Hin.
Qed.

Definition add_evictions (n : nat) (s : Cache.stats) : Cache.stats :=
  Cache.Stats (Cache.hits s) (Cache.misses s) (n + Cache.evictions s) (Cache.expired s).

(** The number of entries the eviction before a store removes: one when
    the dict is full (and not empty), none otherwise. *)
Definition evicted c : nat :=
  match c with
  | [] => 0
  | _ :: _ => if (MAX_SIZE <=? length c)%nat then 1 else 0
  end.

Lemma store_spec k v w :
  Cache.store MAX_SIZE k v w
  = (Ok v,
     Cache.World (Cache.clock w) (S (Cache.ticks w)) (Cache.loader w) (Cache.loads w)
       (OD.set k (v, Cache.clock w (Cache.ticks w)) (make_room (Cache.cache w)))
       (add_evictions (evicted (Cache.cache w)) (Cache.cache_stats w))).
Proof.
  destruct w as [clk n ldr nl c [h m ev ex]].
  unfold Cache.store, Cache.evict_lru, Cache.popitem_first, Cache.time_time,
    Cache.setitem, Cache.incr_evictions, make_room, evicted, add_evictions,
    bind, gets, modify, ret.
  destruct c as [|x c]; simpl.
  - destruct (MAX_SIZE <=? 0)%nat; reflexivity.
  - destruct (MAX_SIZE <=? S (length c))%nat; reflexivity.
Qed.

End CacheMiss.

(** ** Freshness of what a lookup returns *)

Section CacheFresh.
Context {V : Type}.
Variable TTL_SECONDS : Z.
Variable MAX_SIZE : nat.
Implicit Types (w : Cache.world (V := V)) (k : string).

(** At least [n] constructions have been made. *)
Definition loads_ge (n : nat) w : Prop := (n <= Cache.loads w)%nat.

Lemma loads_ge_cleanup n : preserves (loads_ge n) (Cache.cleanup_expired TTL_SECONDS).
Proof.
  unfold Cache.cleanup_expired.
  apply preserves_bind; [intros w H; exact H | intros now].
  apply preserves_bind; [apply preserves_gets | intros c].
  apply preserves_for_each. intros key.
  apply preserves_bind; [|intros _; intros w H; exact H].
  intros w H. unfold Cache.delitem, Cache.contains, bind, gets.
  now destruct (OD.mem key (Cache.cache w)).
Qed.

Lemma loads_ge_store n k v : preserves (loads_ge n) (Cache.store MAX_SIZE k v).
Proof. intros w H. rewrite store_spec. exact H. Qed.

(** A construction counts as one load when it succeeds. *)
Definition counts_load (construct : M (Cache.world (V := V)) V) : Prop :=
  forall w v w', construct w = (Ok v, w') -> Cache.loads w' = S (Cache.loads w).

Lemma counts_load_instance : counts_load Cache.load_instance.
Proof.
  intros w v w' H. unfold Cache.load_instance in H. inversion H. reflexivity.
Qed.

(** Past the two checks, a lookup that returns has constructed. *)
Lemma miss_path_loads k construct w v w' :
  counts_load construct ->
  (Cache.incr_misses;; Cache.cleanup_expired TTL_SECONDS;;
   v <- construct;; Cache.store MAX_SIZE k v) w = (Ok v, w') ->
  (S (Cache.loads w) <= Cache.loads w')%nat.
Proof.
  intros Hc H.
  apply bind_inv_ok in H as ([] & w1 & H1 & H).
  apply bind_inv_ok in H as ([] & w2 & H2 & H).
  apply bind_inv_ok in H as (v1 & w3 & H3 & H).
  assert (Hw1 : loads_ge (Cache.loads w) w1).
  { unfold Cache.incr_misses, modify in H1. inversion H1. unfold loads_ge. simpl. lia. }
  assert (Hw2 : loads_ge (Cache.loads w) w2).
  { pose proof (loads_ge_cleanup (Cache.loads w) w1 Hw1) as Hp. now rewrite H2 in Hp. }
  assert (Hw3 : loads_ge (S (Cache.loads w)) w3).
  { apply Hc in H3. unfold loads_ge in *. lia. }
  pose proof (loads_ge_store (S (Cache.loads w)) k v1 w3 Hw3) as Hp.
  now rewrite H in Hp.
Qed.

Lemma get_cached_returns_fresh k construct w v w' :
  counts_load construct ->
  Cache.get_cached TTL_SECONDS MAX_SIZE k construct w = (Ok v, w') ->
  Cache.loads w' = Cache.loads w ->
  exists t, OD.lookup k (Cache.cache w) = Some (v, t)
            /\ Cache.clock w (Cache.ticks w) - t <= TTL_SECONDS.
Proof.
  intros Hc H Hloads. unfold Cache.get_cached in H.
  pose proof (first_check_spec TTL_SECONDS k w) as Hfirst.
  destruct (OD.lookup k (Cache.cache w)) as [[v0 t]|] eqn:Hl.
  - destruct (TTL_SECONDS <? Cache.clock w (Cache.ticks w) - t) eqn:Hexp.
    + exfalso. destruct Hfirst as (w1 & Hf & Hc1 & _ & _ & _ & Hl1 & _).
      rewrite (bind_ok _ _ _ _ _ Hf) in H.
      pose proof (double_check_spec TTL_SECONDS k w1) as Hd.
      rewrite Hc1, od_lookup_remove in Hd.
      rewrite (bind_ok _ _ _ _ _ Hd) in H.
      apply miss_path_loads in H; [lia | exact Hc].
    + destruct Hfirst as (w1 & Hf & _).
      rewrite (bind_ok _ _ _ _ _ Hf) in H. inversion H; subst.
      exists t. split; [reflexivity|]. apply Z.ltb_ge in Hexp. exact Hexp.
  - exfalso. rewrite (bind_ok _ _ _ _ _ Hfirst) in H.
    pose proof (double_check_spec TTL_SECONDS k w) as Hd. rewrite Hl in Hd.
    rewrite (bind_ok _ _ _ _ _ Hd) in H.
    apply miss_path_loads in H; [lia | exact Hc].
Qed.

Lemma get_cached_or_none_returns_fresh k construct w v w' :
  counts_load construct ->
  Cache.get_cached_or_none TTL_SECONDS MAX_SIZE k construct w = (Ok (Some v), w') ->
  Cache.loads w' = Cache.loads w ->
  exists t, OD.lookup k (Cache.cache w) = Some (v, t)
            /\ Cache.clock w (Cache.ticks w) - t <= TTL_SECONDS.
Proof.
  intros Hc H Hloads. unfold Cache.get_cached_or_none in H.
  assert (Hmiss : forall w1 w1',
    Cache.loads w1 = Cache.loads w ->
    (Cache.incr_misses;; Cache.cleanup_expired TTL_SECONDS;;
     try_except_auth (v <- construct;; v' <- Cache.store MAX_SIZE k v;; ret (Some v'))
       (ret None)) w1 = (Ok (Some v), w1') ->
    (S (Cache.loads w) <= Cache.loads w1')%nat).
  { intros w1 w1' Hw1 Hm.
    apply bind_inv_ok in Hm as ([] & w2 & H2 & Hm).
    apply bind_inv_ok in Hm as ([] & w3 & H3 & Hm).
    unfold try_except_auth in Hm.
    destruct ((v <- construct;; v' <- Cache.store MAX_SIZE k v;; ret (Some v')) w3)
      as [[r|e] w4] eqn:Htry.
    - inversion Hm; subst.
      apply bind_inv_ok in Htry as (v1 & w5 & H5 & Htry).
      apply bind_inv_ok in Htry as (v2 & w6 & H6 & Htry).
      inversion Htry; subst.
      rewrite <- Hw1.
      apply (miss_path_loads k construct w1 v w1' Hc).
      rewrite (bind_ok _ _ _ _ _ H2), (bind_ok _ _ _ _ _ H3), (bind_ok _ _ _ _ _ H5).
      exact H6.
    - destruct e; inversion Hm. }
  pose proof (first_check_spec TTL_SECONDS k w) as Hfirst.
  destruct (OD.lookup k (Cache.cache w)) as [[v0 t]|] eqn:Hl.
  - destruct (TTL_SECONDS <? Cache.clock w (Cache.ticks w) - t) eqn:Hexp.
    + exfalso. destruct Hfirst as (w1 & Hf & Hc1 & _ & _ & _ & Hl1 & _).
      rewrite (bind_ok _ _ _ _ _ Hf) in H.
      pose proof (double_check_spec TTL_SECONDS k w1) as Hd.
      rewrite Hc1, od_lookup_remove in Hd.
      rewrite (bind_ok _ _ _ _ _ Hd) in H.
      apply Hmiss in H; [lia | exact Hl1].
    + destruct Hfirst as (w1 & Hf & _).
      rewrite (bind_ok _ _ _ _ _ Hf) in H. inversion H; subst.
      exists t. split; [reflexivity|]. apply Z.ltb_ge in Hexp. exact Hexp.
  - exfalso. rewrite (bind_ok _ _ _ _ _ Hfirst) in H.
    pose proof (double_check_spec TTL_SECONDS k w) as Hd. rewrite Hl in Hd.
    rewrite (bind_ok _ _ _ _ _ Hd) in H.
    apply Hmiss in H; [lia | reflexivity].
Qed.

End CacheFresh.

Lemma zoom_inv {S T A} (get : S -> T) (put : T -> S -> S) (m : M T A) s r s' :
  zoom get put m s = (r, s') ->
  exists t', m (get s) = (r, t') /\ s' = put t' s.
Proof.
  unfold zoom. destruct (m (get s)) as [r0 t']. intros H. inversion H; subst. eauto.
Qed.

(** C2. A lookup that hands back an instance without constructing one hands
    back the instance of an entry of the cache whose age, at the clock
    reading of the check, is at most the TTL of 1800 seconds.  This holds for
    the embedding-model and vector-processor caches of [Vector], the
    rerank-model cache and the embedding cache of the weighted runner. *)
Theorem cached_value_is_fresh :
  (forall (CacheEmbedding BaseVector : Type)
          (s s' : Vector.state (CacheEmbedding := CacheEmbedding) (BaseVector := BaseVector))
          dataset v,
      Vector._get_embeddings dataset s = (Ok v, s') ->
      Cache.loads (Vector.embedding s') = Cache.loads (Vector.embedding s) ->
      exists t,
        OD.lookup (Vector._generate_embedding_cache_key (Vector.tenant_id dataset)
                     (Vector.embedding_model_provider dataset) (Vector.embedding_model dataset))
          (Cache.cache (Vector.embedding s)) = Some (v, t)
        /\ Cache.clock (Vector.embedding s) (Cache.ticks (Vector.embedding s)) - t <= 1800)
  /\ (forall (CacheEmbedding BaseVector : Type)
             (s s' : Vector.state (CacheEmbedding := CacheEmbedding) (BaseVector := BaseVector))
             cfg dataset v,
      Vector._init_vector cfg dataset s = (Ok v, s') ->
      Cache.loads (Vector.processor s') = Cache.loads (Vector.processor s) ->
      exists vector_type t,
        OD.lookup (Vector._generate_processor_cache_key (Vector.id dataset) vector_type)
          (Cache.cache (Vector.processor s)) = Some (v, t)
        /\ Cache.clock (Vector.processor s) (Cache.ticks (Vector.processor s)) - t <= 1800)
  /\ (forall (ModelInstance : Type) (w w' : Cache.world (V := ModelInstance))
             tenant_id reranking_model v,
      DataPostProcessor._get_rerank_model_instance tenant_id reranking_model w
      = (Ok (Some v), w') ->
      Cache.loads w' = Cache.loads w ->
      exists provider model t,
        OD.lookup (DataPostProcessor._generate_rerank_model_cache_key tenant_id provider model)
          (Cache.cache w) = Some (v, t)
        /\ Cache.clock w (Cache.ticks w) - t <= 1800)
  /\ (forall (CacheEmbedding : Type)
             (s s' : WeightRerankRunner.state (CacheEmbedding := CacheEmbedding))
             tenant_id provider model v,
      WeightRerankRunner._get_cached_embedding_model tenant_id provider model s = (Ok v, s') ->
      Cache.loads (WeightRerankRunner.embedding_cache s')
      = Cache.loads (WeightRerankRunner.embedding_cache s) ->
      exists t,
        OD.lookup (WeightRerankRunner._generate_embedding_cache_key tenant_id provider model)
          (Cache.cache (WeightRerankRunner.embedding_cache s)) = Some (v, t)
        /\ Cache.clock (WeightRerankRunner.embedding_cache s)
             (Cache.ticks (WeightRerankRunner.embedding_cache s)) - t <= 1800).
Proof.
  repeat split.
  - intros CE BV s s' dataset v H Hloads.
    unfold Vector._get_embeddings, Vector.on_embedding in H.
    apply zoom_inv in H as (t' & H & ->). simpl in Hloads.
    eapply get_cached_returns_fresh; eauto using counts_load_instance.
  - intros CE BV s s' cfg dataset v H Hloads.
    unfold Vector._init_vector in H.
    apply bind_inv_ok in H as (vector_type & s1 & Hres & H).
    assert (s1 = s) as ->.
    { clear H. unfold Vector.resolve_vector_type in Hres.
      apply bind_inv_ok in Hres as (o & s2 & Ho & Hres).
      assert (s2 = s) as ->.
      { destruct (Vector.index_struct_dict dataset) as [d|]; [|now inversion Ho].
        destruct (decide (d = ∅)); [now inversion Ho|].
        destruct (d !! "type"%string); now inversion Ho. }
      destruct o as [t0|]; [|now inversion Hres].
      destruct (String.eqb t0 ""); now inversion Hres. }
    unfold Vector.on_processor in H.
    apply zoom_inv in H as (t' & H & ->). simpl in Hloads.
    exists vector_type.
    eapply get_cached_returns_fresh; [|exact H|exact Hloads].
    intros w1 v1 w2 Hc. apply bind_inv_ok in Hc as ([] & w3 & Hf & Hc).
    apply counts_load_instance in Hc. rewrite Hc. f_equal.
    unfold Vector.get_vector_factory in Hf.
    destruct (Vector.known_vector_type cfg vector_type); now inversion Hf.
  - intros MI w w' tenant_id reranking_model v H Hloads.
    unfold DataPostProcessor._get_rerank_model_instance in H.
    destruct reranking_model as [d|]; [|now inversion H].
    destruct (decide (d = ∅)); [now inversion H|].
    destruct (negb _ || negb _); [now inversion H|].
    eexists _, _.
    eapply get_cached_or_none_returns_fresh; eauto using counts_load_instance.
  - intros CE s s' tenant_id provider model v H Hloads.
    unfold WeightRerankRunner._get_cached_embedding_model, WeightRerankRunner.on_cache in H.
    apply zoom_inv in H as (t' & H & ->). simpl in Hloads.
    eapply get_cached_returns_fresh; eauto using counts_load_instance.
Qed.

(** An instance of C2 on the embedding cache of [Vector]: an entry stored
    at time 0 is returned at time 100. *)
Definition fresh_dataset : Vector.Dataset :=
  {| Vector.id := "d1"; Vector.tenant_id := "tenant1";
     Vector.embedding_model_provider := "openai";
     Vector.embedding_model := "text-embedding-ada-002";
     Vector.index_struct_dict := None |}.

Definition fresh_state : Vector.state (CacheEmbedding := nat) (BaseVector := nat) :=
  Vector.State
    (Cache.World (fun _ => 100) 0 (fun _ => Ok 0%nat) 0
       [("285c7b21d18b63b33fa54eb885a9ebf6"%string, (7%nat, 0))] (Cache.Stats 0 0 0 0))
    (Cache.initial (fun _ => 100) (fun _ => Ok 0%nat)).

Lemma cached_value_is_fresh_witness :
  fst (Vector._get_embeddings fresh_dataset fresh_state) = Ok 7%nat
  /\ Cache.loads (Vector.embedding (snd (Vector._get_embeddings fresh_dataset fresh_state)))
     = Cache.loads (Vector.embedding fresh_state)
  /\ exists t,
       OD.lookup (Vector._generate_embedding_cache_key "tenant1" "openai" "text-embedding-ada-002")
         (Cache.cache (Vector.embedding fresh_state)) = Some (7%nat, t)
       /\ 100 - t <= 1800.
Proof.
  split; [vm_compute; reflexivity|]. split; [vm_compute; reflexivity|].
  apply (proj1 cached_value_is_fresh nat nat fresh_state
           (snd (Vector._get_embeddings fresh_dataset fresh_state)) fresh_dataset 7%nat).
  - vm_compute. reflexivity.
  - vm_compute. reflexivity.
Defined.

(** ** A lookup as a function of the state it starts in *)

Section CacheSpec.
Context {V : Type}.
Variable TTL_SECONDS : Z.
Variable MAX_SIZE : nat.
Implicit Types (w : Cache.world (V := V)) (k : string).

(** The entry under [k], when it is fresh at the next clock reading. *)
Definition fresh_hit k w : option (V * Z) :=
  match OD.lookup k (Cache.cache w) with
  | Some (v, t) => if TTL_SECONDS <? Cache.clock w (Cache.ticks w) - t then None else Some (v, t)
  | None => None
  end.

(** The state after a hit on the entry [e] of [k]. *)
Definition after_hit k (e : V * Z) w : Cache.world (V := V) :=
  Cache.World (Cache.clock w) (S (S (Cache.ticks w))) (Cache.loader w) (Cache.loads w)
    (OD.to_end k e (Cache.cache w))
    (Cache.Stats (S (Cache.hits (Cache.cache_stats w))) (Cache.misses (Cache.cache_stats w))
       (Cache.evictions (Cache.cache_stats w)) (Cache.expired (Cache.cache_stats w))).

(** The state in which the construction starts on a miss: a stale entry of
    [k] has been deleted, the miss counted, and the sweep made. *)
Definition swept k w : Cache.world (V := V) :=
  let stale := OD.mem k (Cache.cache w) in
  let n1 := if stale then S (Cache.ticks w) else Cache.ticks w in
  let c1 := OD.remove k (Cache.cache w) in
  let c2 := fresh_entries TTL_SECONDS (Cache.clock w n1) c1 in
  Cache.World (Cache.clock w) (S n1) (Cache.loader w) (Cache.loads w) c2
    (Cache.Stats (Cache.hits (Cache.cache_stats w)) (S (Cache.misses (Cache.cache_stats w)))
       (Cache.evictions (Cache.cache_stats w))
       ((length c1 - length c2) + ((if stale then 1 else 0) + Cache.expired (Cache.cache_stats w)))).

Lemma keys_remove_NoDup k (c : OD.t (E := V * Z)) :
  List.NoDup (OD.keys c) -> List.NoDup (OD.keys (OD.remove k c)).
Proof. intros H. rewrite od_keys_remove. now apply List.NoDup_filter. Qed.

Lemma world_eta w :
  w = Cache.World (Cache.clock w) (Cache.ticks w) (Cache.loader w) (Cache.loads w)
        (Cache.cache w) (Cache.cache_stats w).
Proof. now destruct w. Qed.

(** The two checks and the sweep, on a dict without duplicate keys. *)
Lemma checks_and_sweep {A} k (rest : M (Cache.world (V := V)) A)
  (hit : V -> M (Cache.world (V := V)) A) w :
  List.NoDup (OD.keys (Cache.cache w)) ->
  (fast <- Cache.first_check TTL_SECONDS k;;
   match fast with
   | Some v => hit v
   | None =>
       again <- Cache.double_check TTL_SECONDS k;;
       match again with
       | Some v => hit v
       | None => Cache.incr_misses;; Cache.cleanup_expired TTL_SECONDS;; rest
       end
   end) w
  = match fresh_hit k w with
    | Some (v, t) => hit v (after_hit k (v, t) w)
    | None => rest (swept k w)
    end.
Proof.
  intros Hnd.
  pose proof (first_check_spec TTL_SECONDS k w) as Hfirst.
  unfold fresh_hit, swept, OD.mem.
  destruct (OD.lookup k (Cache.cache w)) as [[v0 t]|] eqn:Hl.
  - destruct (TTL_SECONDS <? Cache.clock w (Cache.ticks w) - t) eqn:Hexp.
    + destruct Hfirst as (w1 & Hf & Hc1 & Hclk & Hn & Hldr & Hnl & Hst).
      rewrite (bind_ok _ _ _ _ _ Hf).
      pose proof (double_check_spec TTL_SECONDS k w1) as Hd.
      rewrite Hc1, od_lookup_remove in Hd.
      rewrite (bind_ok _ _ _ _ _ Hd).
      unfold Cache.incr_misses. unfold bind at 1, modify.
      unfold bind at 1. rewrite cleanup_expired_spec.
      * cbn [Cache.set_stats Cache.clock Cache.ticks Cache.loader Cache.loads Cache.cache
               Cache.cache_stats].
        rewrite Hc1, Hclk, Hn, Hldr, Hnl, Hst. unfold add_expired. cbn. reflexivity.
      * cbn. rewrite Hc1. now apply keys_remove_NoDup.
    + destruct Hfirst as (w1 & Hf & Hc1 & Hclk & Hn & Hldr & Hnl & Hst).
      rewrite (bind_ok _ _ _ _ _ Hf). f_equal.
      rewrite (world_eta w1), Hc1, Hclk, Hn, Hldr, Hnl, Hst. reflexivity.
  - rewrite (bind_ok _ _ _ _ _ Hfirst).
    pose proof (double_check_spec TTL_SECONDS k w) as Hd. rewrite Hl in Hd.
    rewrite (bind_ok _ _ _ _ _ Hd).
    unfold Cache.incr_misses. unfold bind at 1, modify.
    unfold bind at 1. rewrite cleanup_expired_spec.
    + cbn [Cache.set_stats Cache.clock Cache.ticks Cache.loader Cache.loads Cache.cache
             Cache.cache_stats].
      rewrite (od_remove_absent _ _ Hl). unfold add_expired. cbn. reflexivity.
    + exact Hnd.
Qed.

Lemma get_cached_spec k construct w :
  List.NoDup (OD.keys (Cache.cache w)) ->
  Cache.get_cached TTL_SECONDS MAX_SIZE k construct w
  = match fresh_hit k w with
    | Some (v, t) => (Ok v, after_hit k (v, t) w)
    | None => (v <- construct;; Cache.store MAX_SIZE k v) (swept k w)
    end.
Proof.
  intros Hnd. unfold Cache.get_cached.
  rewrite (checks_and_sweep k (v <- construct;; Cache.store MAX_SIZE k v) (fun v => ret v) w Hnd).
  destruct (fresh_hit k w) as [[v t]|]; reflexivity.
Qed.

Lemma get_cached_or_none_spec k construct w :
  List.NoDup (OD.keys (Cache.cache w)) ->
  Cache.get_cached_or_none TTL_SECONDS MAX_SIZE k construct w
  = match fresh_hit k w with
    | Some (v, t) => (Ok (Some v), after_hit k (v, t) w)
    | None =>
        try_except_auth (v <- construct;; v' <- Cache.store MAX_SIZE k v;; ret (Some v'))
          (ret None) (swept k w)
    end.
Proof.
  intros Hnd. unfold Cache.get_cached_or_none.
  rewrite (checks_and_sweep k
             (try_except_auth (v <- construct;; v' <- Cache.store MAX_SIZE k v;; ret (Some v'))
                (ret None))
             (fun v => ret (Some v)) w Hnd).
  destruct (fresh_hit k w) as [[v t]|]; reflexivity.
Qed.

(** The key of a miss is absent when the construction starts. *)
Lemma swept_lookup k w : OD.lookup k (Cache.cache (swept k w)) = None.
Proof.
  unfold swept. cbn [Cache.cache]. unfold fresh_entries.
  apply od_lookup_keys. intros Hin. unfold OD.keys in Hin.
  apply in_map_iff in Hin as [[k' e] [Hk Hin]]. simpl in Hk. subst k'.
  apply List.filter_In in Hin as [Hin _].
  pose proof (mem_of_In _ _ _ Hin) as Hm. unfold OD.mem in Hm.
  now rewrite od_lookup_remove in Hm.
Qed.

Lemma swept_NoDup k w :
  List.NoDup (OD.keys (Cache.cache w)) -> List.NoDup (OD.keys (Cache.cache (swept k w))).
Proof.
  intros Hnd. unfold swept, fresh_entries. cbn [Cache.cache].
  apply keys_filter_NoDup, keys_remove_NoDup, Hnd.
Qed.

End CacheSpec.

(** ** Recency order and eviction *)

Section CacheLru.
Context {V : Type}.
Variable TTL_SECONDS : Z.
Variable MAX_SIZE : nat.
Implicit Types (w : Cache.world (V := V)) (k : string).

Lemma hit_moves_to_end k w v t :
  List.NoDup (OD.keys (Cache.cache w)) ->
  fresh_hit TTL_SECONDS k w = Some (v, t) ->
  exists w',
    Cache.get_cached TTL_SECONDS MAX_SIZE k Cache.load_instance w = (Ok v, w')
    /\ Cache.cache w' = OD.remove k (Cache.cache w) ++ [(k, (v, t))]
    /\ Cache.cache_stats w' =
       Cache.Stats (S (Cache.hits (Cache.cache_stats w))) (Cache.misses (Cache.cache_stats w))
         (Cache.evictions (Cache.cache_stats w)) (Cache.expired (Cache.cache_stats w))
    /\ Cache.loads w' = Cache.loads w.
Proof.
  intros Hnd Hhit. rewrite get_cached_spec by exact Hnd. rewrite Hhit.
  eexists. split; [reflexivity|]. simpl. auto.
Qed.

Lemma lookup_tail k (c : OD.t (E := V * Z)) :
  List.NoDup (OD.keys c) -> OD.lookup k c = None -> OD.lookup k (tl c) = None.
Proof.
  destruct c as [|[k1 e1] c]; simpl; [auto|].
  destruct (String.eqb k1 k); [discriminate | auto].
Qed.

(** A miss whose construction succeeds stores the instance last; when the
    swept dict is full its first entry, and no other, goes. *)
Lemma miss_stores_last k w v :
  List.NoDup (OD.keys (Cache.cache w)) ->
  fresh_hit TTL_SECONDS k w = None ->
  Cache.loader w (Cache.loads w) = Ok v ->
  let s := swept TTL_SECONDS k w in
  exists w',
    Cache.get_cached TTL_SECONDS MAX_SIZE k Cache.load_instance w = (Ok v, w')
    /\ Cache.cache w'
       = make_room MAX_SIZE (Cache.cache s) ++ [(k, (v, Cache.clock w (Cache.ticks s)))]
    /\ Cache.cache_stats w'
       = add_evictions (evicted MAX_SIZE (Cache.cache s)) (Cache.cache_stats s)
    /\ Cache.loads w' = S (Cache.loads w).
Proof.
  intros Hnd Hmiss Hload s. rewrite get_cached_spec by exact Hnd. rewrite Hmiss.
  unfold bind, Cache.load_instance. fold s.
  assert (Hl : Cache.loader s (Cache.loads s) = Ok v) by exact Hload.
  rewrite Hl. rewrite store_spec. eexists. split; [reflexivity|].
  cbn [Cache.cache Cache.cache_stats Cache.loads Cache.clock Cache.ticks].
  split; [|split; reflexivity].
  apply od_set_absent. unfold make_room.
  pose proof (swept_lookup TTL_SECONDS k w) as Habs. fold s in Habs.
  destruct (MAX_SIZE <=? length (Cache.cache s))%nat; [|exact Habs].
  apply lookup_tail; [|exact Habs]. apply swept_NoDup, Hnd.
Qed.

End CacheLru.

(** The scenario of the specification: a cache of at most three entries,
    a clock that advances one second per reading, and lookups of A, B, C,
    A again, and D. *)
Definition lru_scenario : Cache.world (V := string) :=
  let get k w := snd (Cache.get_cached 1800 3 k Cache.load_instance w) in
  get "D"%string (get "A"%string (get "C"%string (get "B"%string (get "A"%string
    (Cache.initial (fun n => Z.of_nat n) (fun n => Ok (String (ascii_of_nat (65 + n)) ""))))))).

(** C5. A hit moves the entry to the last (most recently used) position and
    leaves the other entries in their order; a miss whose construction
    succeeds stores the new entry last, and when the dict it stores into is
    full, the first (least recently used) entry alone is removed and the
    eviction counter grows by one.  With a maximum of 3, lookups of A, B, C,
    A, D leave the keys C, A, D: B was evicted, with one eviction counted. *)
Theorem lru_order :
  (forall (V : Type) TTL_SECONDS MAX_SIZE k (w : Cache.world (V := V)) v t,
      List.NoDup (OD.keys (Cache.cache w)) ->
      fresh_hit TTL_SECONDS k w = Some (v, t) ->
      exists w',
        Cache.get_cached TTL_SECONDS MAX_SIZE k Cache.load_instance w = (Ok v, w')
        /\ Cache.cache w' = OD.remove k (Cache.cache w) ++ [(k, (v, t))]
        /\ Cache.evictions (Cache.cache_stats w') = Cache.evictions (Cache.cache_stats w))
  /\ (forall (V : Type) TTL_SECONDS MAX_SIZE k (w : Cache.world (V := V)) v,
      List.NoDup (OD.keys (Cache.cache w)) ->
      fresh_hit TTL_SECONDS k w = None ->
      Cache.loader w (Cache.loads w) = Ok v ->
      (1 <= MAX_SIZE)%nat ->
      let s := swept TTL_SECONDS k w in
      let entry := (k, (v, Cache.clock w (Cache.ticks s))) in
      exists w',
        Cache.get_cached TTL_SECONDS MAX_SIZE k Cache.load_instance w = (Ok v, w')
        /\ ((MAX_SIZE <= length (Cache.cache s))%nat ->
            exists lru rest,
              Cache.cache s = lru :: rest
              /\ Cache.cache w' = rest ++ [entry]
              /\ Cache.evictions (Cache.cache_stats w')
                 = S (Cache.evictions (Cache.cache_stats w)))
        /\ ((length (Cache.cache s) < MAX_SIZE)%nat ->
            Cache.cache w' = Cache.cache s ++ [entry]
            /\ Cache.evictions (Cache.cache_stats w')
               = Cache.evictions (Cache.cache_stats w)))
  /\ (OD.keys (Cache.cache lru_scenario) = ["C"; "A"; "D"]%string
      /\ OD.lookup "B" (Cache.cache lru_scenario) = None
      /\ Cache.evictions (Cache.cache_stats lru_scenario) = 1%nat
      /\ Cache.hits (Cache.cache_stats lru_scenario) = 1%nat
      /\ Cache.loads lru_scenario = 4%nat).
Proof.
  split; [|split].
  - intros V TTL MAX k w v t Hnd Hhit.
    destruct (hit_moves_to_end TTL MAX k w v t Hnd Hhit) as (w' & Hget & Hc & Hst & _).
    exists w'. rewrite Hst. auto.
  - intros V TTL MAX k w v Hnd Hmiss Hload Hmax s entry.
    destruct (miss_stores_last TTL MAX k w v Hnd Hmiss Hload) as (w' & Hget & Hc & Hst & _).
    fold s in Hc, Hst. exists w'. split; [exact Hget|]. rewrite Hc, Hst.
    unfold make_room, evicted. split.
    + intros Hfull. destruct (Cache.cache s) as [|lru rest] eqn:Hs; [simpl in Hfull; lia|].
      exists lru, rest. apply Nat.leb_le in Hfull. rewrite Hfull. auto.
    + intros Hroom. apply Nat.leb_gt in Hroom. rewrite Hroom.
      split; [reflexivity|]. now destruct (Cache.cache s).
  - vm_compute. auto.
Qed.

(** C5 at the fourth lookup of the scenario, the hit on A. *)
Definition lru_before_hit : Cache.world (V := string) :=
  let get k w := snd (Cache.get_cached 1800 3 k Cache.load_instance w) in
  get "C"%string (get "B"%string (get "A"%string
    (Cache.initial (fun n => Z.of_nat n) (fun n => Ok (String (ascii_of_nat (65 + n)) ""))))).

Lemma lru_order_witness :
  List.NoDup (OD.keys (Cache.cache lru_before_hit))
  /\ fresh_hit 1800 "A" lru_before_hit = Some ("A"%string, 1)
  /\ exists w',
       Cache.get_cached 1800 3 "A" Cache.load_instance lru_before_hit = (Ok "A"%string, w')
       /\ Cache.cache w' = OD.remove "A" (Cache.cache lru_before_hit) ++ [("A"%string, ("A"%string, 1))]
       /\ Cache.evictions (Cache.cache_stats w') = Cache.evictions (Cache.cache_stats lru_before_hit).
Proof.
  assert (Hnd : List.NoDup (OD.keys (Cache.cache lru_before_hit))).
  { vm_compute. repeat constructor; simpl; intuition discriminate. }
  assert (Hhit : fresh_hit 1800 "A" lru_before_hit = Some ("A"%string, 1)).
  { vm_compute. reflexivity. }
  split; [exact Hnd|]. split; [exact Hhit|].
  exact (proj1 lru_order string 1800 3%nat "A"%string lru_before_hit "A"%string 1 Hnd Hhit).
Defined.

(** ** A construction that raises *)

Section CacheLoadError.
Context {V : Type}.
Variable TTL_SECONDS : Z.
Variable MAX_SIZE : nat.
Implicit Types (w : Cache.world (V := V)) (k : string).

(** The state a failed construction by the loader leaves: the swept
    state, with one more load counted. *)
Definition failed_load k w : Cache.world (V := V) :=
  let s := swept TTL_SECONDS k w in
  Cache.World (Cache.clock s) (Cache.ticks s) (Cache.loader s) (S (Cache.loads s))
    (Cache.cache s) (Cache.cache_stats s).

Lemma fresh_hit_absent k w : OD.lookup k (Cache.cache w) = None -> fresh_hit TTL_SECONDS k w = None.
Proof. unfold fresh_hit. now intros ->. Qed.

Lemma load_raises k w e :
  List.NoDup (OD.keys (Cache.cache w)) ->
  fresh_hit TTL_SECONDS k w = None ->
  Cache.loader w (Cache.loads w) = Raise e ->
  Cache.get_cached TTL_SECONDS MAX_SIZE k Cache.load_instance w = (Raise e, failed_load k w).
Proof.
  intros Hnd Hmiss Hload. rewrite get_cached_spec by exact Hnd. rewrite Hmiss.
  apply bind_raise. unfold Cache.load_instance, failed_load.
  change (Cache.loader (swept TTL_SECONDS k w) (Cache.loads (swept TTL_SECONDS k w)))
    with (Cache.loader w (Cache.loads w)).
  now rewrite Hload.
Qed.

(** The lookup that follows a failed load is a miss again, and what it
    returns is what the next construction gives. *)
Lemma load_again k w :
  List.NoDup (OD.keys (Cache.cache w)) ->
  let w1 := failed_load k w in
  fresh_hit TTL_SECONDS k w1 = None
  /\ fst (Cache.get_cached TTL_SECONDS MAX_SIZE k Cache.load_instance w1)
     = Cache.loader w (S (Cache.loads w))
  /\ Cache.loads (snd (Cache.get_cached TTL_SECONDS MAX_SIZE k Cache.load_instance w1))
     = S (S (Cache.loads w)).
Proof.
  intros Hnd w1.
  assert (Habs : OD.lookup k (Cache.cache w1) = None) by apply swept_lookup.
  assert (Hnd1 : List.NoDup (OD.keys (Cache.cache w1))) by apply swept_NoDup, Hnd.
  pose proof (fresh_hit_absent k w1 Habs) as Hmiss.
  split; [exact Hmiss|].
  rewrite get_cached_spec by exact Hnd1. rewrite Hmiss.
  unfold bind, Cache.load_instance.
  change (Cache.loader (swept TTL_SECONDS k w1) (Cache.loads (swept TTL_SECONDS k w1)))
    with (Cache.loader w (S (Cache.loads w))).
  destruct (Cache.loader w (S (Cache.loads w))) as [v|e].
  - rewrite store_spec. split; reflexivity.
  - split; reflexivity.
Qed.

End CacheLoadError.

Lemma resolve_vector_type_state {S} cfg dataset (s : S) :
  snd (Vector.resolve_vector_type cfg dataset s) = s.
Proof.
  unfold Vector.resolve_vector_type, bind.
  destruct (Vector.index_struct_dict dataset) as [d|]; simpl.
  - destruct (decide (d = ∅)); simpl.
    + destruct (if _ && _ then _ else _) as [t|]; simpl; [|reflexivity].
      now destruct (String.eqb t "").
    + destruct (d !! "type"%string) as [t|]; simpl; [|reflexivity].
      now destruct (String.eqb t "").
  - destruct (if _ && _ then _ else _) as [t|]; simpl; [|reflexivity].
    now destruct (String.eqb t "").
Qed.

Lemma resolve_vector_type_ok {S} cfg dataset (s : S) vector_type :
  fst (Vector.resolve_vector_type cfg dataset s) = Ok vector_type ->
  Vector.resolve_vector_type cfg dataset s = (Ok vector_type, s).
Proof.
  intros H. pose proof (resolve_vector_type_state cfg dataset s) as Hs.
  destruct (Vector.resolve_vector_type cfg dataset s) as [r s1]. simpl in *. congruence.
Qed.

Lemma resolve_vector_type_any {S S'} cfg dataset (s : S) (s' : S') vector_type :
  fst (Vector.resolve_vector_type cfg dataset s) = Ok vector_type ->
  fst (Vector.resolve_vector_type cfg dataset s') = Ok vector_type.
Proof.
  unfold Vector.resolve_vector_type, bind.
  destruct (Vector.index_struct_dict dataset) as [d|]; simpl.
  - destruct (decide (d = ∅)); simpl.
    + destruct (if _ && _ then _ else _) as [t|]; simpl; [|discriminate].
      destruct (String.eqb t ""); simpl; [discriminate | auto].
    + destruct (d !! "type"%string) as [t|]; simpl; [|discriminate].
      destruct (String.eqb t ""); simpl; [discriminate | auto].
  - destruct (if _ && _ then _ else _) as [t|]; simpl; [|discriminate].
    destruct (String.eqb t ""); simpl; [discriminate | auto].
Qed.

(** C6. On a miss of the embedding-model cache or of the vector-processor
    cache whose construction raises (the model manager or the vector
    factory raises, or the vector type has no factory), the call raises that
    same exception, the cache is left as the sweep left it, with no entry
    under the key, and the miss is counted; the next request for the key is
    a miss again and returns whatever the next construction gives. *)
Theorem load_error_not_cached :
  (forall (CacheEmbedding BaseVector : Type)
          (s : Vector.state (CacheEmbedding := CacheEmbedding) (BaseVector := BaseVector))
          dataset e,
      let key := Vector._generate_embedding_cache_key (Vector.tenant_id dataset)
                   (Vector.embedding_model_provider dataset) (Vector.embedding_model dataset) in
      let c := Vector.embedding s in
      List.NoDup (OD.keys (Cache.cache c)) ->
      fresh_hit 1800 key c = None ->
      Cache.loader c (Cache.loads c) = Raise e ->
      exists s',
        Vector._get_embeddings dataset s = (Raise e, s')
        /\ Cache.cache (Vector.embedding s') = Cache.cache (swept 1800 key c)
        /\ OD.lookup key (Cache.cache (Vector.embedding s')) = None
        /\ Cache.misses (Cache.cache_stats (Vector.embedding s'))
           = S (Cache.misses (Cache.cache_stats c))
        /\ Vector.processor s' = Vector.processor s
        /\ fst (Vector._get_embeddings dataset s') = Cache.loader c (S (Cache.loads c)))
  /\ (forall (CacheEmbedding BaseVector : Type)
             (s : Vector.state (CacheEmbedding := CacheEmbedding) (BaseVector := BaseVector))
             cfg dataset vector_type e,
      let key := Vector._generate_processor_cache_key (Vector.id dataset) vector_type in
      let c := Vector.processor s in
      fst (Vector.resolve_vector_type cfg dataset s) = Ok vector_type ->
      Vector.known_vector_type cfg vector_type = true ->
      List.NoDup (OD.keys (Cache.cache c)) ->
      fresh_hit 1800 key c = None ->
      Cache.loader c (Cache.loads c) = Raise e ->
      exists s',
        Vector._init_vector cfg dataset s = (Raise e, s')
        /\ Cache.cache (Vector.processor s') = Cache.cache (swept 1800 key c)
        /\ OD.lookup key (Cache.cache (Vector.processor s')) = None
        /\ Cache.misses (Cache.cache_stats (Vector.processor s'))
           = S (Cache.misses (Cache.cache_stats c))
        /\ Vector.embedding s' = Vector.embedding s
        /\ fst (Vector._init_vector cfg dataset s') = Cache.loader c (S (Cache.loads c)))
  /\ (forall (CacheEmbedding BaseVector : Type)
             (s : Vector.state (CacheEmbedding := CacheEmbedding) (BaseVector := BaseVector))
             cfg dataset vector_type,
      let key := Vector._generate_processor_cache_key (Vector.id dataset) vector_type in
      let c := Vector.processor s in
      let e := ValueError ("Vector store " ++ vector_type ++ " is not supported.") in
      fst (Vector.resolve_vector_type cfg dataset s) = Ok vector_type ->
      Vector.known_vector_type cfg vector_type = false ->
      List.NoDup (OD.keys (Cache.cache c)) ->
      fresh_hit 1800 key c = None ->
      exists s',
        Vector._init_vector cfg dataset s = (Raise e, s')
        /\ Cache.cache (Vector.processor s') = Cache.cache (swept 1800 key c)
        /\ OD.lookup key (Cache.cache (Vector.processor s')) = None
        /\ Cache.loads (Vector.processor s') = Cache.loads c
        /\ fst (Vector._init_vector cfg dataset s') = Raise e).
Proof.
  split; [|split].
  - intros CE BV s dataset e key c Hnd Hmiss Hload.
    exists (Vector.State (failed_load 1800 key c) (Vector.processor s)).
    unfold Vector._get_embeddings, Vector.on_embedding, zoom. fold key. fold c.
    change Vector._CACHE_TTL_SECONDS with 1800.
    rewrite (load_raises 1800 Vector._CACHE_MAX_SIZE key c e Hnd Hmiss Hload).
    cbn [Vector.embedding Vector.processor].
    split; [reflexivity|]. split; [reflexivity|].
    split; [apply swept_lookup|]. split; [reflexivity|]. split; [reflexivity|].
    destruct (load_again 1800 Vector._CACHE_MAX_SIZE key c Hnd) as (_ & Hres & _).
    destruct (Cache.get_cached _ _ _ _ (failed_load 1800 key c)) as [r w2].
    exact Hres.
  - intros CE BV s cfg dataset vector_type e key c Hres Hknown Hnd Hmiss Hload.
    assert (Hconstruct :
      forall w : Cache.world (V := BV),
        Cache.get_cached Vector._CACHE_TTL_SECONDS Vector._CACHE_MAX_SIZE key
          (Vector.get_vector_factory cfg vector_type;; Cache.load_instance) w
        = Cache.get_cached 1800 Vector._CACHE_MAX_SIZE key Cache.load_instance w).
    { intros w. unfold Vector.get_vector_factory. rewrite Hknown. reflexivity. }
    exists (Vector.State (Vector.embedding s) (failed_load 1800 key c)).
    unfold Vector._init_vector.
    rewrite (bind_ok _ _ _ _ _ (resolve_vector_type_ok cfg dataset s vector_type Hres)).
    unfold Vector.on_processor, zoom. fold key. fold c.
    rewrite Hconstruct.
    rewrite (load_raises 1800 Vector._CACHE_MAX_SIZE key c e Hnd Hmiss Hload).
    cbn [Vector.embedding Vector.processor].
    split; [reflexivity|]. split; [reflexivity|].
    split; [apply swept_lookup|]. split; [reflexivity|]. split; [reflexivity|].
    set (s' := Vector.State (Vector.embedding s) (failed_load 1800 key c)).
    pose proof (resolve_vector_type_any cfg dataset s s' vector_type Hres) as Hres'.
    rewrite (bind_ok _ _ _ _ _ (resolve_vector_type_ok cfg dataset s' vector_type Hres')).
    unfold zoom. fold key. cbn [Vector.processor s']. rewrite Hconstruct.
    destruct (load_again 1800 Vector._CACHE_MAX_SIZE key c Hnd) as (_ & Hagain & _).
    destruct (Cache.get_cached _ _ _ _ (failed_load 1800 key c)) as [r w2].
    exact Hagain.
  - intros CE BV s cfg dataset vector_type key c e Hres Hknown Hnd Hmiss.
    assert (Hconstruct :
      forall w : Cache.world (V := BV),
        List.NoDup (OD.keys (Cache.cache w)) ->
        fresh_hit 1800 key w = None ->
        Cache.get_cached Vector._CACHE_TTL_SECONDS Vector._CACHE_MAX_SIZE key
          (Vector.get_vector_factory cfg vector_type;; Cache.load_instance) w
        = (Raise e, swept 1800 key w)).
    { intros w Hw Hm. change Vector._CACHE_TTL_SECONDS with 1800.
      rewrite get_cached_spec by exact Hw. rewrite Hm.
      unfold Vector.get_vector_factory. rewrite Hknown. reflexivity. }
    exists (Vector.State (Vector.embedding s) (swept 1800 key c)).
    unfold Vector._init_vector.
    rewrite (bind_ok _ _ _ _ _ (resolve_vector_type_ok cfg dataset s vector_type Hres)).
    unfold Vector.on_processor, zoom. fold key. fold c.
    rewrite (Hconstruct c Hnd Hmiss).
    cbn [Vector.embedding Vector.processor].
    split; [reflexivity|]. split; [reflexivity|].
    split; [apply swept_lookup|]. split; [reflexivity|].
    set (s' := Vector.State (Vector.embedding s) (swept 1800 key c)).
    rewrite (bind_ok _ _ _ _ _
               (resolve_vector_type_ok cfg dataset s' vector_type
                  (resolve_vector_type_any cfg dataset s s' vector_type Hres))).
    unfold zoom. fold key. cbn [Vector.processor s'].
    rewrite Hconstruct; [reflexivity | apply swept_NoDup, Hnd |].
    apply fresh_hit_absent, swept_lookup.
Qed.

(** An instance of C6: the model manager fails once, then succeeds. *)
Definition flaky_state : Vector.state (CacheEmbedding := nat) (BaseVector := nat) :=
  Vector.initial (fun n => Z.of_nat n) (fun n => Z.of_nat n)
    (fun n => match n with O => Raise (OtherError "ConnectionError") | _ => Ok 5%nat end)
    (fun _ => Ok 0%nat).

Lemma load_error_not_cached_witness :
  let key := Vector._generate_embedding_cache_key "tenant1" "openai" "text-embedding-ada-002" in
  let c := Vector.embedding flaky_state in
  List.NoDup (OD.keys (Cache.cache c))
  /\ fresh_hit 1800 key c = None
  /\ Cache.loader c (Cache.loads c) = Raise (OtherError "ConnectionError")
  /\ exists s',
       Vector._get_embeddings fresh_dataset flaky_state = (Raise (OtherError "ConnectionError"), s')
       /\ Cache.cache (Vector.embedding s') = Cache.cache (swept 1800 key c)
       /\ OD.lookup key (Cache.cache (Vector.embedding s')) = None
       /\ Cache.misses (Cache.cache_stats (Vector.embedding s'))
          = S (Cache.misses (Cache.cache_stats c))
       /\ Vector.processor s' = Vector.processor flaky_state
       /\ fst (Vector._get_embeddings fresh_dataset s') = Ok 5%nat.
Proof.
  intros key c.
  assert (Hnd : List.NoDup (OD.keys (Cache.cache c))) by (vm_compute; constructor).
  assert (Hmiss : fresh_hit 1800 key c = None) by reflexivity.
  assert (Hload : Cache.loader c (Cache.loads c) = Raise (OtherError "ConnectionError"))
    by reflexivity.
  split; [exact Hnd|]. split; [exact Hmiss|]. split; [exact Hload|].
  exact (proj1 load_error_not_cached nat nat flaky_state fresh_dataset
           (OtherError "ConnectionError") Hnd Hmiss Hload).
Defined.

(** ** The post-processor without a rerank runner *)

Section Passthrough.
Context {ModelInstance CacheEmbedding : Type}.
Variable extract_keywords : string -> list string.
Variable embed_query : CacheEmbedding -> string -> result (list Q).
Variable math_log : Q -> Q.
Variable math_sqrt : Q -> Q.
Variable invoke_rerank :
  ModelInstance -> string -> list string -> option Q -> option Z -> option string ->
  result (list RerankModelRunner.RerankDocument).
Variable reorder_run : list Document -> list Document.

Local Abbreviation invoke :=
  (DataPostProcessor.invoke extract_keywords embed_query math_log math_sqrt invoke_rerank).

(** [invoke] hands the documents through, but for the reorder step,
    whatever the constructor of [Document] does. *)
Definition passes_through (p : DataPostProcessor.processor (ModelInstance := ModelInstance))
  (reorder_enabled : bool) : Prop :=
  forall new_document query documents score_threshold top_n user s,
    invoke new_document reorder_run p query documents score_threshold top_n user s
    = (Ok (if reorder_enabled then reorder_run documents else documents), s).

Lemma no_runner_passes_through reorder_enabled :
  passes_through
    {| DataPostProcessor.rerank_runner := None;
       DataPostProcessor.reorder_runner := DataPostProcessor._get_reorder_runner reorder_enabled |}
    reorder_enabled.
Proof.
  intros new_document query documents score_threshold top_n user s.
  unfold DataPostProcessor.invoke, DataPostProcessor._get_reorder_runner, bind, ret. simpl.
  now destruct reorder_enabled.
Qed.

(** The constructor in the reranking-model mode, when no instance is had. *)
Lemma init_without_instance tenant_id reranking_model weights reorder_enabled
  (w w' : Cache.world (V := ModelInstance)) :
  DataPostProcessor._get_rerank_model_instance tenant_id reranking_model w = (Ok None, w') ->
  DataPostProcessor.__init__ tenant_id DataPostProcessor.RERANKING_MODEL reranking_model
    weights reorder_enabled w
  = (Ok {| DataPostProcessor.rerank_runner := None;
           DataPostProcessor.reorder_runner :=
             DataPostProcessor._get_reorder_runner reorder_enabled |}, w').
Proof.
  intros H. unfold DataPostProcessor.__init__, DataPostProcessor._get_rerank_runner.
  change (String.eqb DataPostProcessor.RERANKING_MODEL DataPostProcessor.WEIGHTED_SCORE)
    with false.
  change (String.eqb DataPostProcessor.RERANKING_MODEL DataPostProcessor.RERANKING_MODEL)
    with true.
  cbv iota. unfold bind at 1. unfold bind at 1. rewrite H. reflexivity.
Qed.

End Passthrough.

(** C7. A post-processor built in the reranking-model mode has no rerank
    runner, and [invoke] returns the documents as given (reordered when the
    reorder step is enabled), in each of these cases: the load of the rerank
    model raises the authorization error, which is caught and leaves no
    entry under the key; the reranking model dict is missing or empty; the
    provider name or the model name is missing or empty. *)
Theorem unauthorized_rerank_passthrough :
  forall (ModelInstance CacheEmbedding : Type) extract_keywords
         (embed_query : CacheEmbedding -> string -> result (list Q))
         math_log math_sqrt invoke_rerank reorder_run
         tenant_id weights reorder_enabled (w : Cache.world (V := ModelInstance)),
    let new := DataPostProcessor.__init__ tenant_id DataPostProcessor.RERANKING_MODEL in
    let passthrough p :=
      DataPostProcessor.rerank_runner p = None
      /\ passes_through extract_keywords embed_query math_log math_sqrt invoke_rerank
           reorder_run p reorder_enabled in
    (forall d provider model,
        d !! "reranking_provider_name"%string = Some provider -> provider <> ""%string ->
        d !! "reranking_model_name"%string = Some model -> model <> ""%string ->
        let key := DataPostProcessor._generate_rerank_model_cache_key tenant_id provider model in
        List.NoDup (OD.keys (Cache.cache w)) ->
        fresh_hit 1800 key w = None ->
        Cache.loader w (Cache.loads w) = Raise InvokeAuthorizationError ->
        exists p w',
          new (Some d) weights reorder_enabled w = (Ok p, w')
          /\ passthrough p
          /\ Cache.cache w' = Cache.cache (swept 1800 key w)
          /\ OD.lookup key (Cache.cache w') = None)
    /\ (forall reranking_model,
        (reranking_model = None
         \/ exists d, reranking_model = Some d
            /\ (truthy_str (d !! "reranking_provider_name"%string) = false
                \/ truthy_str (d !! "reranking_model_name"%string) = false)) ->
        exists p,
          new reranking_model weights reorder_enabled w = (Ok p, w)
          /\ passthrough p).
Proof.
  intros MI CE extract_keywords embed_query math_log math_sqrt invoke_rerank reorder_run
    tenant_id weights reorder_enabled w new passthrough.
  split.
  - intros d provider model Hp Hpne Hm Hmne key Hnd Hmiss Hload.
    assert (Hget :
      DataPostProcessor._get_rerank_model_instance tenant_id (Some d) w
      = (Ok None, failed_load 1800 key w)).
    { unfold DataPostProcessor._get_rerank_model_instance.
      destruct (decide (d = ∅)) as [->|_]; [rewrite lookup_empty in Hp; discriminate|].
      rewrite Hp, Hm. simpl.
      apply String.eqb_neq in Hpne, Hmne. rewrite Hpne, Hmne. simpl.
      fold key. change DataPostProcessor._RERANK_MODEL_CACHE_TTL_SECONDS with 1800.
      rewrite get_cached_or_none_spec by exact Hnd. rewrite Hmiss.
      unfold try_except_auth, bind, Cache.load_instance.
      change (Cache.loader (swept 1800 key w) (Cache.loads (swept 1800 key w)))
        with (Cache.loader w (Cache.loads w)).
      rewrite Hload. reflexivity. }
    eexists _, _. split; [apply init_without_instance, Hget|].
    split; [split; [reflexivity | apply no_runner_passes_through]|].
    split; [reflexivity | apply swept_lookup].
  - intros reranking_model Hcase.
    assert (Hget :
      DataPostProcessor._get_rerank_model_instance tenant_id reranking_model w = (Ok None, w)).
    { unfold DataPostProcessor._get_rerank_model_instance.
      destruct Hcase as [->|(d & -> & Hfalsy)]; [reflexivity|].
      destruct (decide (d = ∅)); [reflexivity|].
      destruct Hfalsy as [-> | ->]; simpl; [reflexivity|].
      now rewrite orb_true_r. }
    eexists. split; [apply init_without_instance, Hget|].
    split; [reflexivity | apply no_runner_passes_through].
Qed.

(** An instance of C7: the model manager refuses the tenant. *)
Definition cohere_model : gmap string string :=
  <["reranking_provider_name"%string := "cohere"%string]>
    (<["reranking_model_name"%string := "rerank-english-v2.0"%string]> ∅).

Definition refusing_world : Cache.world (V := nat) :=
  Cache.initial (fun n => Z.of_nat n) (fun _ => Raise InvokeAuthorizationError).

Lemma unauthorized_rerank_passthrough_witness :
  let key :=
    DataPostProcessor._generate_rerank_model_cache_key "tenant1" "cohere" "rerank-english-v2.0" in
  cohere_model !! "reranking_provider_name"%string = Some "cohere"%string
  /\ cohere_model !! "reranking_model_name"%string = Some "rerank-english-v2.0"%string
  /\ List.NoDup (OD.keys (Cache.cache refusing_world))
  /\ fresh_hit 1800 key refusing_world = None
  /\ Cache.loader refusing_world (Cache.loads refusing_world) = Raise InvokeAuthorizationError
  /\ exists p w',
       DataPostProcessor.__init__ "tenant1" DataPostProcessor.RERANKING_MODEL
         (Some cohere_model) None true refusing_world = (Ok p, w')
       /\ (DataPostProcessor.rerank_runner p = None
           /\ passes_through (CacheEmbedding := nat) (fun _ => []) (fun _ _ => Ok [])
                (fun x => x) (fun x => x) (fun _ _ _ _ _ _ => Ok []) (@rev Document) p true)
       /\ Cache.cache w' = Cache.cache (swept 1800 key refusing_world)
       /\ OD.lookup key (Cache.cache w') = None.
Proof.
  intros key.
  assert (Hp : cohere_model !! "reranking_provider_name"%string = Some "cohere"%string)
    by (vm_compute; reflexivity).
  assert (Hm : cohere_model !! "reranking_model_name"%string = Some "rerank-english-v2.0"%string)
    by (vm_compute; reflexivity).
  assert (Hnd : List.NoDup (OD.keys (Cache.cache refusing_world))) by (vm_compute; constructor).
  assert (Hmiss : fresh_hit 1800 key refusing_world = None) by reflexivity.
  assert (Hload : Cache.loader refusing_world (Cache.loads refusing_world)
                  = Raise InvokeAuthorizationError) by reflexivity.
  split; [exact Hp|]. split; [exact Hm|]. split; [exact Hnd|]. split; [exact Hmiss|].
  split; [exact Hload|].
  refine (proj1 (unauthorized_rerank_passthrough nat nat (fun _ => []) (fun _ _ => Ok [])
                   (fun x => x) (fun x => x) (fun _ _ _ _ _ _ => Ok []) (@rev Document)
                   "tenant1"%string None true refusing_world)
            cohere_model "cohere"%string "rerank-english-v2.0"%string
            Hp _ Hm _ Hnd Hmiss Hload); discriminate.
Defined.

(** ** Cache keys *)

(** No [':'] among the bytes of [s]. *)
Fixpoint no_colon (s : string) : Prop :=
  match s with
  | EmptyString => True
  | String c s' => c <> ":"%char /\ no_colon s'
  end.

(** Two different strings with the same MD5 digest. *)
Definition md5_collision (s s' : string) : Prop :=
  s <> s' /\ Md5.hexdigest s = Md5.hexdigest s'.

Lemma split_at_colon (a a' r r' : string) :
  no_colon a -> no_colon a' ->
  (a ++ ":" ++ r)%string = (a' ++ ":" ++ r')%string -> a = a' /\ r = r'.
Proof.
  revert a'. induction a as [|c a IH]; intros [|c' a'] Ha Ha' H; simpl in *.
  - inversion H. auto.
  - inversion H; subst. destruct Ha' as [Hc _]. congruence.
  - inversion H; subst. destruct Ha as [Hc _]. congruence.
  - inversion H; subst. destruct Ha as [_ Ha], Ha' as [_ Ha'].
    destruct (IH a' Ha Ha' H2) as [-> ->]. auto.
Qed.

Lemma key_str3_injective (a b c a' b' c' : string) :
  no_colon a -> no_colon b -> no_colon a' -> no_colon b' ->
  key_str3 a b c = key_str3 a' b' c' -> (a, b, c) = (a', b', c').
Proof.
  unfold key_str3. intros Ha Hb Ha' Hb' H.
  apply split_at_colon in H as [-> H]; [|assumption..].
  apply split_at_colon in H as [-> ->]; [|assumption..].
  reflexivity.
Qed.

Lemma key_str2_injective (a b a' b' : string) :
  no_colon a -> no_colon a' ->
  key_str2 a b = key_str2 a' b' -> (a, b) = (a', b').
Proof.
  unfold key_str2. intros Ha Ha' H.
  apply split_at_colon in H as [-> ->]; [|assumption..].
  reflexivity.
Qed.

(** Tuples that differ in a field and have the same key: a [':'] moved
    from one field to its neighbour. *)
Lemma cache_key_collision :
  ("a:b", "c", "d")%string <> ("a", "b:c", "d")%string
  /\ Vector._generate_embedding_cache_key "a:b" "c" "d"
     = Vector._generate_embedding_cache_key "a" "b:c" "d"
  /\ DataPostProcessor._generate_rerank_model_cache_key "a:b" "c" "d"
     = DataPostProcessor._generate_rerank_model_cache_key "a" "b:c" "d"
  /\ WeightRerankRunner._generate_embedding_cache_key "a:b" "c" "d"
     = WeightRerankRunner._generate_embedding_cache_key "a" "b:c" "d"
  /\ ("a:b", "c")%string <> ("a", "b:c")%string
  /\ Vector._generate_processor_cache_key "a:b" "c"
     = Vector._generate_processor_cache_key "a" "b:c".
Proof. repeat split; try discriminate; reflexivity. Qed.

(** C4, amended. Every tuple of strings is accepted and equal tuples have
    equal keys.  When the fields before the last hold no [':'], two tuples
    with the same key are the same tuple, unless MD5 gives the same digest
    to their two different joined strings.  (Fields with [':'] are accepted
    as well, but tuples that differ can then be joined to the same string.) *)
Theorem cache_key_distinct :
  (forall t p m t' p' m',
      no_colon t -> no_colon p -> no_colon t' -> no_colon p' ->
      (Vector._generate_embedding_cache_key t p m
       = Vector._generate_embedding_cache_key t' p' m'
       \/ DataPostProcessor._generate_rerank_model_cache_key t p m
          = DataPostProcessor._generate_rerank_model_cache_key t' p' m'
       \/ WeightRerankRunner._generate_embedding_cache_key t p m
          = WeightRerankRunner._generate_embedding_cache_key t' p' m') ->
      (t, p, m) = (t', p', m') \/ md5_collision (key_str3 t p m) (key_str3 t' p' m'))
  /\ (forall d v d' v',
      no_colon d -> no_colon d' ->
      Vector._generate_processor_cache_key d v = Vector._generate_processor_cache_key d' v' ->
      (d, v) = (d', v') \/ md5_collision (key_str2 d v) (key_str2 d' v')).
Proof.
  split.
  - intros t p m t' p' m' Ht Hp Ht' Hp' Hkey.
    assert (H : Md5.hexdigest (key_str3 t p m) = Md5.hexdigest (key_str3 t' p' m'))
      by (destruct Hkey as [H|[H|H]]; exact H).
    destruct (string_dec (key_str3 t p m) (key_str3 t' p' m')) as [Heq|Hne].
    + left. now apply key_str3_injective.
    + right. split; assumption.
  - intros d v d' v' Hd Hd' H.
    destruct (string_dec (key_str2 d v) (key_str2 d' v')) as [Heq|Hne].
    + left. now apply key_str2_injective.
    + right. split; assumption.
Qed.

(** C4 on the keys of the cache-key test of the repository: the same
    tuple twice has the same key, and another tenant has another key. *)
Lemma cache_key_distinct_witness :
  no_colon "tenant1" /\ no_colon "openai"
  /\ Vector._generate_embedding_cache_key "tenant1" "openai" "text-embedding-ada-002"
     = Vector._generate_embedding_cache_key "tenant1" "openai" "text-embedding-ada-002"
  /\ Vector._generate_embedding_cache_key "tenant1" "openai" "text-embedding-ada-002"
     <> Vector._generate_embedding_cache_key "tenant2" "openai" "text-embedding-ada-002"
  /\ (("tenant1", "openai", "text-embedding-ada-002")%string
      = ("tenant1", "openai", "text-embedding-ada-002")%string
      \/ md5_collision (key_str3 "tenant1" "openai" "text-embedding-ada-002")
           (key_str3 "tenant1" "openai" "text-embedding-ada-002")).
Proof.
  assert (H1 : no_colon "tenant1") by (simpl; repeat split; discriminate).
  assert (H2 : no_colon "openai") by (simpl; repeat split; discriminate).
  split; [exact H1|]. split; [exact H2|]. split; [reflexivity|].
  split; [vm_compute; discriminate|].
  exact (proj1 cache_key_distinct "tenant1" "openai" "text-embedding-ada-002"
           "tenant1" "openai" "text-embedding-ada-002" H1 H2 H1 H2
           (or_introl eq_refl))%string.
Defined.

(** ** The clock behind the TTL

    [time.time()] reads the wall clock.  Its [n]-th reading is the time
    that has really elapsed on a steady clock, [elapsed n], plus the offset
    of the wall clock at that instant, [offset n]; an adjustment of the
    system time (a step by NTP, a change by hand) changes the offset. *)

Definition wall_clock (elapsed offset : nat -> Z) : nat -> Z :=
  fun n => elapsed n + offset n.

(** Readings taken every 100 seconds, and every 2000 seconds. *)
Definition every_100s (n : nat) : Z := 100 * Z.of_nat n.

Definition every_2000s (n : nat) : Z := 2000 * Z.of_nat n.

Definition not_adjusted (n : nat) : Z := 0.

(** The wall clock is set forward by an hour, or back by 1000 seconds,
    after the second reading. *)
Definition set_forward (n : nat) : Z := if (n <? 2)%nat then 0 else 3600.

Definition set_back (n : nat) : Z := if (n <? 2)%nat then 0 else -1000.

(** Two requests for the embedding model of the same dataset: the first
    stores the entry at the second clock reading, the second checks it at
    the third. *)
Definition two_requests (clk : nat -> Z) : Cache.world (V := nat) :=
  let s0 := Vector.initial (BaseVector := nat) clk clk (fun n => Ok n) (fun n => Ok n) in
  let s1 := snd (Vector._get_embeddings fresh_dataset s0) in
  Vector.embedding (snd (Vector._get_embeddings fresh_dataset s1)).

(** Executions that differ only in an adjustment of the wall clock made
    between the insertion and the lookup decide differently: 100 seconds
    after the insertion the entry is served, but it is expired when the
    clock was set forward meanwhile; 2000 seconds after the insertion the
    entry is expired, but it is served when the clock was set back. *)
Lemma wall_clock_adjustment_changes_expiry :
  (set_forward 0 = not_adjusted 0 /\ set_forward 1 = not_adjusted 1
   /\ set_back 0 = not_adjusted 0 /\ set_back 1 = not_adjusted 1)
  /\ (Cache.loads (two_requests (wall_clock every_100s not_adjusted)) = 1%nat
      /\ Cache.expired (Cache.cache_stats (two_requests (wall_clock every_100s not_adjusted))) = 0%nat)
  /\ (Cache.loads (two_requests (wall_clock every_100s set_forward)) = 2%nat
      /\ Cache.expired (Cache.cache_stats (two_requests (wall_clock every_100s set_forward))) = 1%nat)
  /\ (Cache.loads (two_requests (wall_clock every_2000s not_adjusted)) = 2%nat
      /\ Cache.expired (Cache.cache_stats (two_requests (wall_clock every_2000s not_adjusted))) = 1%nat)
  /\ (Cache.loads (two_requests (wall_clock every_2000s set_back)) = 1%nat
      /\ Cache.expired (Cache.cache_stats (two_requests (wall_clock every_2000s set_back))) = 0%nat).
Proof. vm_compute. repeat split. Qed.

(** C8, amended. In every cache the expiry test compares readings of the
    wall clock: an entry stored at the reading [m] is expired at the reading
    [n] exactly when the time elapsed between the two, plus the change of
    the wall clock's offset between the two, exceeds 1800 seconds.  When the
    wall clock was not adjusted in between, entries expire exactly by
    elapsed time. *)
Theorem expiry_by_wall_clock :
  forall (CacheEmbedding BaseVector ModelInstance : Type) elapsed offset n m
         (ldr_e : nat -> result CacheEmbedding) (ldr_m : nat -> result ModelInstance)
         nl c_e c_m st (p : Cache.world (V := BaseVector)) h,
    let cached_time := wall_clock elapsed offset m in
    let decision := Ok (1800 <? (elapsed n - elapsed m) + (offset n - offset m)) in
    let w_e := Cache.World (wall_clock elapsed offset) n ldr_e nl c_e st in
    let w_m := Cache.World (wall_clock elapsed offset) n ldr_m nl c_m st in
    (fst (Vector._is_cache_expired cached_time (Vector.State w_e p)) = decision
     /\ fst (DataPostProcessor._is_cache_expired cached_time w_m) = decision
     /\ fst (WeightRerankRunner._is_cache_expired cached_time (WeightRerankRunner.State h w_e))
        = decision)
    /\ (offset n = offset m -> decision = Ok (1800 <? elapsed n - elapsed m)).
Proof.
  intros CE BV MI elapsed offset n m ldr_e ldr_m nl c_e c_m st p h cached_time decision w_e w_m.
  assert (Heq : wall_clock elapsed offset n - cached_time
                = (elapsed n - elapsed m) + (offset n - offset m))
    by (unfold cached_time, wall_clock; lia).
  split.
  - unfold Vector._is_cache_expired, DataPostProcessor._is_cache_expired,
      WeightRerankRunner._is_cache_expired, Vector.on_embedding, WeightRerankRunner.on_cache,
      zoom, Cache.is_cache_expired, Cache.time_time, bind, ret.
    cbn [fst snd Vector.embedding WeightRerankRunner.embedding_cache Cache.clock Cache.ticks
           w_e w_m].
    unfold Vector._CACHE_TTL_SECONDS, DataPostProcessor._RERANK_MODEL_CACHE_TTL_SECONDS,
      WeightRerankRunner._EMBEDDING_CACHE_TTL_SECONDS.
    rewrite Heq. auto.
  - intros Hoff. unfold decision. rewrite Hoff. do 2 f_equal. lia.
Qed.

(** C8 for an entry stored at the second reading and checked, 100 seconds
    later, at the third, the wall clock not being adjusted. *)
Lemma expiry_by_wall_clock_witness :
  not_adjusted 2 = not_adjusted 1
  /\ @Ok bool (1800 <? (every_100s 2 - every_100s 1) + (not_adjusted 2 - not_adjusted 1))
     = Ok (1800 <? every_100s 2 - every_100s 1).
Proof.
  split; [reflexivity|].
  exact (proj2 (expiry_by_wall_clock nat nat nat every_100s not_adjusted 2 1
                  (fun n => Ok n) (fun n => Ok n) 0 [] [] (Cache.Stats 0 0 0 0)
                  (Cache.initial (fun _ => 0) (fun n => Ok n)) (fun _ => ∅))
           eq_refl).
Defined.

(** ** Sorting by score, slicing, and loops that only read *)

Lemma Qltb_lt (x y : Q) : Qltb x y = true <-> (x < y)%Q.
Proof.
  unfold Qltb. rewrite negb_true_iff. split.
  - intros H. apply Qnot_le_lt. intros Hle. apply Qle_bool_iff in Hle. congruence.
  - intros H. apply not_true_is_false. intros Hle. apply Qle_bool_iff in Hle.
    now apply Qlt_not_le in H.
Qed.

Lemma Qltb_ge (x y : Q) : Qltb x y = false <-> (y <= x)%Q.
Proof.
  unfold Qltb. rewrite negb_false_iff. apply Qle_bool_iff.
Qed.

(** A float that is a number, and [y <= x] on numbers. *)
Definition is_number (x : pyfloat) : Prop := exists q, x = Num q.

Definition float_ge (x y : pyfloat) : Prop :=
  match x, y with
  | Num a, Num b => (b <= a)%Q
  | _, _ => False
  end.

(** [b] may follow [a] in a descending order of the keys. *)
Definition desc {A} (a b : pyfloat * A) : Prop := float_ge (fst a) (fst b).

Lemma insert_desc_perm {A} (x : pyfloat * A) (l : list (pyfloat * A)) :
  Permutation (insert_desc x l) (x :: l).
Proof.
  induction l as [|y l IH]; simpl; [reflexivity|].
  destruct (float_ltb (fst x) (fst y)); [|reflexivity].
  rewrite IH. apply perm_swap.
Qed.

Lemma sort_desc_perm {A} (l : list (pyfloat * A)) : Permutation (sort_desc l) l.
Proof.
  induction l as [|x l IH]; simpl; [reflexivity|].
  unfold sort_desc in *. simpl. rewrite insert_desc_perm. now constructor.
Qed.

(** With numbers for keys the insertion keeps a descending list
    descending. *)
Lemma insert_desc_sorted {A} (x : pyfloat * A) (l : list (pyfloat * A)) :
  is_number (fst x) ->
  Forall (fun y => is_number (fst y)) l ->
  StronglySorted desc l -> StronglySorted desc (insert_desc x l).
Proof.
  intros [q Hx] Hnum Hs. induction Hs as [|y l Hs IH Hy]; simpl.
  - repeat constructor.
  - inversion Hnum as [|? ? [qy Hqy] Hnum']; subst.
    unfold float_ltb. rewrite Hx, Hqy.
    destruct (Qltb q qy) eqn:Hlt.
    + constructor; [now apply IH|].
      apply Qltb_lt in Hlt.
      rewrite List.Forall_forall. intros z Hz.
      apply (Permutation_in _ (insert_desc_perm x l)) in Hz.
      destruct Hz as [<-|Hz].
      * unfold desc, float_ge. rewrite Hx, Hqy. now apply Qlt_le_weak.
      * rewrite List.Forall_forall in Hy. now apply Hy.
    + apply Qltb_ge in Hlt. constructor; [now constructor|].
      constructor; [unfold desc, float_ge; now rewrite Hx, Hqy|].
      rewrite List.Forall_forall in *. intros z Hz.
      specialize (Hy z Hz). destruct (Hnum' z Hz) as [qz Hqz].
      unfold desc, float_ge in *. rewrite Hx, Hqz. rewrite Hqy, Hqz in Hy.
      eapply Qle_trans; [exact Hy | exact Hlt].
Qed.

Lemma sort_desc_sorted {A} (l : list (pyfloat * A)) :
  Forall (fun y => is_number (fst y)) l -> StronglySorted desc (sort_desc l).
Proof.
  induction 1 as [|x l Hx Hl IH]; [constructor|].
  unfold sort_desc in *. simpl. apply insert_desc_sorted; [exact Hx | | exact IH].
  rewrite List.Forall_forall in *. intros y Hy. apply Hl.
  now apply (Permutation_in _ (sort_desc_perm l)) in Hy.
Qed.

(** The documents in descending order of the score [f] gives them. *)
Definition sort_by_score (f : Document -> Q) (docs : list Document) : list Document :=
  map snd (sort_desc (map (fun d => (Num (f d), d)) docs)).

Lemma sort_by_score_perm f docs : Permutation (sort_by_score f docs) docs.
Proof.
  unfold sort_by_score. rewrite sort_desc_perm, map_map. simpl. now rewrite map_id.
Qed.

Lemma sort_by_score_sorted f docs :
  StronglySorted (fun a b => (f b <= f a)%Q) (sort_by_score f docs).
Proof.
  unfold sort_by_score.
  set (keyed := map (fun d => (Num (f d), d)) docs).
  assert (Hkeys : Forall (fun p => fst p = Num (f (snd p))) (sort_desc keyed)).
  { rewrite List.Forall_forall. intros p Hp.
    apply (Permutation_in _ (sort_desc_perm _)) in Hp.
    apply in_map_iff in Hp as (d & <- & _). reflexivity. }
  assert (Hnum : Forall (fun y : pyfloat * Document => is_number (fst y)) keyed).
  { rewrite List.Forall_forall. intros p Hp.
    apply in_map_iff in Hp as (d & <- & _). now exists (f d). }
  pose proof (sort_desc_sorted keyed Hnum) as Hs.
  induction Hs as [|p l Hs IH Hp]; simpl; [constructor|].
  inversion Hkeys as [|? ? Hk Hks]; subst.
  constructor; [now apply IH|].
  rewrite List.Forall_forall in *. intros d Hd.
  apply in_map_iff in Hd as (q & <- & Hq).
  specialize (Hp q Hq). specialize (Hks q Hq). unfold desc, float_ge in Hp.
  now rewrite Hk, Hks in Hp.
Qed.

Lemma in_firstn {A} (k : nat) (xs : list A) x : In x (firstn k xs) -> In x xs.
Proof.
  revert k. induction xs as [|y xs IH]; intros [|k]; simpl; try tauto.
  intros [H|H]; [now left | right; eauto].
Qed.

Lemma slice_to_incl {A} (n : Z) (xs : list A) x : In x (slice_to n xs) -> In x xs.
Proof. unfold slice_to. destruct (0 <=? n); apply in_firstn. Qed.

Lemma slice_to_length {A} (n : Z) (xs : list A) :
  0 <= n -> (Z.of_nat (length (slice_to n xs)) <= n)%Z.
Proof.
  intros Hn. unfold slice_to. apply Z.leb_le in Hn as Hb. rewrite Hb.
  rewrite length_firstn. lia.
Qed.

Lemma slice_to_sorted {A} (R : A -> A -> Prop) (n : Z) (xs : list A) :
  StronglySorted R xs -> StronglySorted R (slice_to n xs).
Proof.
  intros Hs. unfold slice_to.
  assert (Hf : forall k, StronglySorted R (firstn k xs)).
  { intros k. revert k. induction Hs as [|x xs Hs IH Hx]; intros [|k]; simpl; try constructor.
    - apply IH.
    - rewrite List.Forall_forall in *. intros y Hy. apply Hx. eapply in_firstn, Hy. }
  destruct (0 <=? n); apply Hf.
Qed.

(** A loop whose body leaves the state alone returns one result per
    element, each computed in the state the loop started in. *)
Lemma map_m_readonly {S A B} (f : A -> M S B) (xs : list A) s ys s' :
  (forall x s, snd (f x s) = s) ->
  map_m f xs s = (Ok ys, s') ->
  s' = s /\ Forall2 (fun x y => fst (f x s) = Ok y) xs ys.
Proof.
  intros Hro. revert ys. induction xs as [|x xs IH]; simpl; intros ys H.
  - inversion H; subst. split; [reflexivity | constructor].
  - apply bind_inv_ok in H as (y & s1 & Hy & H).
    apply bind_inv_ok in H as (ys' & s2 & Hys & H).
    inversion H; subst.
    assert (s1 = s) as -> by (rewrite <- (Hro x s); now rewrite Hy).
    apply IH in Hys as [-> Hall]. split; [reflexivity|].
    constructor; [now rewrite Hy | exact Hall].
Qed.

Lemma map_m_readonly_state {S A B} (f : A -> M S B) (xs : list A) s :
  (forall x s, snd (f x s) = s) -> snd (map_m f xs s) = s.
Proof.
  intros Hro. induction xs as [|x xs IH]; simpl; [reflexivity|].
  unfold bind. specialize (Hro x s).
  destruct (f x s) as [[y|e] s1]; simpl in *; subst; [|reflexivity].
  destruct (map_m f xs s) as [[ys|e] s2]; simpl in *; subst; reflexivity.
Qed.

(** ** The weighted runner, step by step *)

Section RunFacts.
Context {CacheEmbedding : Type}.
Variable extract_keywords : string -> list string.
Variable embed_query : CacheEmbedding -> string -> result (list Q).
Variable math_log : Q -> Q.
Variable math_sqrt : Q -> Q.
Local Abbreviation state := (WeightRerankRunner.state (CacheEmbedding := CacheEmbedding)).
Local Abbreviation State := (WeightRerankRunner.State (CacheEmbedding := CacheEmbedding)).
Local Abbreviation docs_heap := (WeightRerankRunner.docs_heap (CacheEmbedding := CacheEmbedding)).
Local Abbreviation embedding_cache :=
  (WeightRerankRunner.embedding_cache (CacheEmbedding := CacheEmbedding)).

Definition has_metadata (d : Document) : bool :=
  match metadata d with Some _ => true | None => false end.

(** The heap after the keyword loop. *)
Fixpoint write_keywords (documents : list Document) (h : heap) : heap :=
  match documents with
  | [] => h
  | d :: rest =>
      write_keywords rest
        (match metadata d with
         | Some l => dict_set l "keywords" (PyList (extract_keywords (page_content d))) h
         | None => h
         end)
  end.

Lemma collect_keywords_spec documents (s : state) :
  WeightRerankRunner.collect_keywords extract_keywords documents s
  = (Ok (map (fun d => extract_keywords (page_content d)) (List.filter has_metadata documents)),
     State (write_keywords documents (docs_heap s)) (embedding_cache s)).
Proof.
  revert s. induction documents as [|d ds IH]; intros s; simpl.
  - unfold ret. now destruct s.
  - unfold has_metadata at 1. destruct (metadata d) as [l|]; simpl.
    + unfold bind at 1, WeightRerankRunner.set_metadata, modify.
      unfold bind at 1. rewrite IH. reflexivity.
    + apply IH.
Qed.



(** The fused score, and the threshold test of the loop. *)
Definition fused_score (weights : Weights) (vscore : pyfloat) (kscore : Q) : pyfloat :=
  float_add (float_mul (vector_weight (vector_setting weights)) vscore)
            (float_mul (keyword_weight (keyword_setting weights)) (Num kscore)).

Definition below_threshold (score_threshold : option Q) (score : pyfloat) : bool :=
  truthy_float score_threshold
  && match score_threshold with Some t => float_ltb score (Num t) | None => false end.

(** The documents the loop keeps and the heap it leaves, on rows whose
    vector scores are floats. *)
Fixpoint kept (weights : Weights) (thr : option Q) (rows : list (Document * Q * pyfloat))
  : list Document :=
  match rows with
  | [] => []
  | (d, ks, vs) :: rest =>
      if below_threshold thr (fused_score weights vs ks) then kept weights thr rest
      else if has_metadata d then d :: kept weights thr rest
      else kept weights thr rest
  end.

Fixpoint write_scores (weights : Weights) (thr : option Q)
  (rows : list (Document * Q * pyfloat))
  (h : heap) : heap :=
  match rows with
  | [] => h
  | (d, ks, vs) :: rest =>
      if below_threshold thr (fused_score weights vs ks) then write_scores weights thr rest h
      else match metadata d with
           | Some l =>
               write_scores weights thr rest
                 (dict_set l "score" (PyFloat (fused_score weights vs ks)) h)
           | None => write_scores weights thr rest h
           end
  end.

Definition as_row (r : Document * Q * pyfloat) : Document * Q * pyval :=
  let '(d, ks, vs) := r in (d, ks, PyFloat vs).

Lemma fuse_spec weights thr rows (s : state) out s' :
  WeightRerankRunner.fuse weights thr rows s = (Ok out, s') ->
  exists frows,
    rows = map as_row frows
    /\ out = kept weights thr frows
    /\ s' = State (write_scores weights thr frows (docs_heap s)) (embedding_cache s).
Proof.
  revert s out. induction rows as [|[[d ks] v] rows IH]; intros s out H; simpl in H.
  - inversion H; subst. exists []. destruct s'. auto.
  - destruct v as [vs| |]; try discriminate.
    fold (fused_score weights vs ks) in H. fold (below_threshold thr (fused_score weights vs ks)) in H.
    destruct (below_threshold thr (fused_score weights vs ks)) eqn:Hb.
    + apply IH in H as (frows & -> & -> & ->). exists ((d, ks, vs) :: frows).
      simpl. rewrite Hb. auto.
    + destruct (metadata d) as [l|] eqn:Hm.
      * apply bind_inv_ok in H as ([] & s1 & Hset & H).
        apply bind_inv_ok in H as (kept' & s2 & Hrest & H).
        inversion H; subst. inversion Hset; subst.
        apply IH in Hrest as (frows & -> & -> & ->). exists ((d, ks, vs) :: frows).
        simpl. unfold has_metadata. rewrite Hb, Hm. auto.
      * apply IH in H as (frows & -> & -> & ->). exists ((d, ks, vs) :: frows).
        simpl. unfold has_metadata. rewrite Hb, Hm. auto.
Qed.

(** The dict at [l] has a float under ["score"]. *)
Definition scored (h : heap) (l : loc) : Prop :=
  exists x, h l !! "score"%string = Some (PyFloat x).

Lemma dict_set_score_scored l v h l' :
  scored h l' -> scored (dict_set l "score" (PyFloat v) h) l'.
Proof.
  intros [q Hq]. unfold scored, dict_set.
  destruct (Nat.eqb l' l) eqn:Hl; [|eauto].
  apply Nat.eqb_eq in Hl. subst. exists v. apply lookup_insert_eq.
Qed.

Lemma write_scores_scored weights thr frows h l :
  scored h l -> scored (write_scores weights thr frows h) l.
Proof.
  revert h. induction frows as [|[[d ks] vs] frows IH]; intros h H; simpl; [exact H|].
  destruct (below_threshold thr _); [now apply IH|].
  destruct (metadata d); [|now apply IH].
  apply IH, dict_set_score_scored, H.
Qed.

(** Every document the loop keeps has a dict with a float under
    ["score"]; the loop keeps documents of its rows only. *)
Lemma kept_scored weights thr frows h d :
  In d (kept weights thr frows) ->
  In d (map (fun r => fst (fst r)) frows)
  /\ exists l, metadata d = Some l /\ scored (write_scores weights thr frows h) l.
Proof.
  revert h. induction frows as [|[[d0 ks] vs] frows IH]; intros h Hin; simpl in *; [contradiction|].
  destruct (below_threshold thr _).
  - destruct (IH h Hin) as [H1 H2]. auto.
  - unfold has_metadata in Hin. destruct (metadata d0) as [l|] eqn:Hm.
    + destruct Hin as [<-|Hin].
      * split; [now left|]. exists l. split; [exact Hm|].
        apply write_scores_scored. unfold scored, dict_set. rewrite Nat.eqb_refl.
        eexists. apply lookup_insert_eq.
      * destruct (IH (dict_set l "score" (PyFloat (fused_score weights vs ks)) h) Hin)
          as [H1 H2]. auto.
    + destruct (IH h Hin) as [H1 H2]. auto.
Qed.

(** The loop writes into the dicts of the documents of its rows only. *)
Lemma write_scores_frame weights thr frows h l :
  ~ In (Some l) (map (fun r => metadata (fst (fst r))) frows) ->
  write_scores weights thr frows h l = h l.
Proof.
  revert h. induction frows as [|[[d ks] vs] frows IH]; intros h Hnot; simpl in *; [reflexivity|].
  assert (Hrest : ~ In (Some l) (map (fun r => metadata (fst (fst r))) frows))
    by (intros H; apply Hnot; now right).
  destruct (below_threshold thr _); [now apply IH|].
  destruct (metadata d) as [l0|] eqn:Hm; [|now apply IH].
  rewrite IH by exact Hrest. unfold dict_set.
  destruct (Nat.eqb l l0) eqn:Hl; [|reflexivity].
  apply Nat.eqb_eq in Hl. subst. exfalso. apply Hnot. now left.
Qed.


End RunFacts.

Section RunInversion.
Context {CacheEmbedding : Type}.
Variable extract_keywords : string -> list string.
Variable embed_query : CacheEmbedding -> string -> result (list Q).
Variable math_log : Q -> Q.
Variable math_sqrt : Q -> Q.
Local Abbreviation state := (WeightRerankRunner.state (CacheEmbedding := CacheEmbedding)).
Local Abbreviation State := (WeightRerankRunner.State (CacheEmbedding := CacheEmbedding)).
Local Abbreviation docs_heap := (WeightRerankRunner.docs_heap (CacheEmbedding := CacheEmbedding)).
Local Abbreviation embedding_cache :=
  (WeightRerankRunner.embedding_cache (CacheEmbedding := CacheEmbedding)).
Local Abbreviation run :=
  (WeightRerankRunner.run extract_keywords embed_query math_log math_sqrt).
Local Abbreviation document_cosine :=
  (WeightRerankRunner.document_cosine (CacheEmbedding := CacheEmbedding) math_sqrt).

(** The keyword scores: one per document that has metadata, in order. *)
Definition keyword_scores (query : string) (documents : list Document) : list Q :=
  let documents_keywords :=
    map (fun d => extract_keywords (page_content d)) (List.filter has_metadata documents) in
  let idf := WeightRerankRunner.keyword_idf math_log (length documents) documents_keywords in
  map (WeightRerankRunner.similarity math_sqrt (extract_keywords query) idf) documents_keywords.

Lemma calculate_keyword_score_spec query documents (s : state) :
  WeightRerankRunner._calculate_keyword_score extract_keywords math_log math_sqrt
    query documents s
  = (Ok (keyword_scores query documents),
     State (write_keywords extract_keywords documents (docs_heap s)) (embedding_cache s)).
Proof.
  unfold WeightRerankRunner._calculate_keyword_score.
  rewrite (bind_ok _ _ _ _ _ (collect_keywords_spec extract_keywords documents s)).
  unfold ret, keyword_scores, WeightRerankRunner.similarity. now rewrite map_map.
Qed.

Lemma np_dot_state {S} v1 v2 (s : S) : snd (WeightRerankRunner.np_dot v1 v2 s) = s.
Proof.
  revert v2. induction v1 as [|x v1 IH]; intros [|y v2]; simpl; try reflexivity.
  unfold bind. specialize (IH v2). now destruct (WeightRerankRunner.np_dot v1 v2 s) as [[d|e] s1].
Qed.

Lemma document_cosine_state qv d (s : state) : snd (document_cosine qv d s) = s.
Proof.
  unfold WeightRerankRunner.document_cosine, bind, gets.
  destruct (match metadata d with Some l => _ | None => None end); [reflexivity|].
  destruct (vector d) as [vec|]; [|reflexivity].
  pose proof (np_dot_state qv vec s) as H.
  now destruct (WeightRerankRunner.np_dot qv vec s) as [[dp|e] s1].
Qed.

Lemma sort_key_state x (s : state) : snd (WeightRerankRunner.sort_key x s) = s.
Proof.
  unfold WeightRerankRunner.sort_key, bind, gets.
  destruct (metadata x) as [l|]; [|reflexivity].
  destruct (decide (docs_heap s l = ∅)); [reflexivity|].
  now destruct (docs_heap s l !! "score"%string) as [[]|].
Qed.

Lemma keyed_state x (s : state) :
  snd ((k <- WeightRerankRunner.sort_key x;; ret (k, x)) s) = s.
Proof.
  unfold bind. pose proof (sort_key_state x s) as H.
  now destruct (WeightRerankRunner.sort_key x s) as [[k|e] s1].
Qed.

(** The result of [run], by the top-n test. *)
Definition top (top_n : option Z) (sorted : list Document) : list Document :=
  if truthy_int top_n
  then match top_n with Some n => slice_to n sorted | None => sorted end
  else sorted.

(** What a run that returns has done. *)
Lemma run_inv tenant_id weights query documents score_threshold top_n (s : state) out s' :
  run tenant_id weights query documents score_threshold top_n s = (Ok out, s') ->
  let h1 := write_keywords extract_keywords documents (docs_heap s) in
  exists cache_embedding query_vector vscores frows keyed,
    embed_query cache_embedding query = Ok query_vector
    /\ Forall2 (fun d v => fst (document_cosine query_vector d (State h1 (embedding_cache s'))) = Ok v)
         documents vscores
    /\ zip3 documents (keyword_scores query documents) vscores = map as_row frows
    /\ s' = State (write_scores weights score_threshold frows h1) (embedding_cache s')
    /\ Forall2 (fun d kd => fst (WeightRerankRunner.sort_key d s') = Ok (fst kd) /\ snd kd = d)
         (kept weights score_threshold frows) keyed
    /\ out = top top_n (map snd (sort_desc keyed)).
Proof.
  intros H h1. unfold WeightRerankRunner.run in H.
  rewrite (bind_ok _ _ _ _ _ (calculate_keyword_score_spec query documents s)) in H.
  fold h1 in H.
  apply bind_inv_ok in H as (vscores & s2 & Hcos & H).
  apply bind_inv_ok in H as (rerank_documents & s3 & Hfuse & H).
  apply bind_inv_ok in H as (keyed & s4 & Hkeyed & H).
  inversion H; subst out s4. clear H.
  unfold WeightRerankRunner._calculate_cosine in Hcos.
  apply bind_inv_ok in Hcos as (ce & s1 & Hget & Hcos).
  apply bind_inv_ok in Hcos as (qv & s1' & Hembed & Hcos).
  assert (s1' = s1) as -> by (now inversion Hembed).
  assert (Hqv : embed_query ce query = Ok qv) by (now inversion Hembed).
  unfold WeightRerankRunner._get_cached_embedding_model, WeightRerankRunner.on_cache in Hget.
  apply zoom_inv in Hget as (c' & _ & ->). cbn [WeightRerankRunner.docs_heap] in Hcos.
  apply map_m_readonly in Hcos as [-> Hvs]; [|apply document_cosine_state].
  apply fuse_spec in Hfuse as (frows & Hrows & -> & ->).
  cbn [WeightRerankRunner.docs_heap WeightRerankRunner.embedding_cache] in *.
  apply map_m_readonly in Hkeyed as [-> Hkeyed]; [|apply keyed_state].
  exists ce, qv, vscores, frows, keyed.
  cbn [WeightRerankRunner.embedding_cache].
  split; [exact Hqv|]. split; [exact Hvs|]. split; [exact Hrows|]. split; [reflexivity|].
  split; [|reflexivity].
  eapply Forall2_impl; [exact Hkeyed|]. intros d kd Hd. simpl in Hd.
  unfold bind in Hd.
  destruct (WeightRerankRunner.sort_key d _) as [[k|e] sk]; simpl in Hd; [|discriminate].
  inversion Hd; subst. auto.
Qed.

End RunInversion.

Lemma zip3_docs_incl {A B C} (xs : list A) (ys : list B) (zs : list C) x :
  In x (map (fun r => fst (fst r)) (zip3 xs ys zs)) -> In x xs.
Proof.
  revert ys zs. induction xs as [|x0 xs IH]; intros [|y ys] [|z zs]; simpl; try tauto.
  intros [H|H]; [now left | right; eauto].
Qed.

Lemma as_row_doc (frows : list (Document * Q * pyfloat)) :
  map (fun r => fst (fst r)) (map as_row frows) = map (fun r => fst (fst r)) frows.
Proof.
  rewrite map_map. apply map_ext. now intros [[d ks] vs].
Qed.

Section RunScored.
Context {CacheEmbedding : Type}.
Variable extract_keywords : string -> list string.
Variable embed_query : CacheEmbedding -> string -> result (list Q).
Variable math_log : Q -> Q.
Variable math_sqrt : Q -> Q.

Lemma write_keywords_frame documents (h : heap) l :
  ~ In (Some l) (map metadata documents) ->
  write_keywords extract_keywords documents h l = h l.
Proof.
  revert h. induction documents as [|d ds IH]; intros h Hnot; simpl in *; [reflexivity|].
  rewrite IH by (intros H; apply Hnot; now right).
  destruct (metadata d) as [l0|] eqn:Hm; [|reflexivity].
  unfold dict_set. destruct (Nat.eqb l l0) eqn:Hl; [|reflexivity].
  apply Nat.eqb_eq in Hl. subst. exfalso. apply Hnot. now left.
Qed.

Lemma rows_of_documents documents (qs : list Q) (vs : list pyval) frows d :
  zip3 documents qs vs = map as_row frows ->
  In d (map (fun r => fst (fst r)) frows) -> In d documents.
Proof.
  intros Hrows Hin. rewrite <- as_row_doc, <- Hrows in Hin.
  eapply zip3_docs_incl, Hin.
Qed.

Lemma top_incl top_n sorted d : In d (top top_n sorted) -> In d sorted.
Proof.
  unfold top. destruct (truthy_int top_n); [|auto].
  destruct top_n; [apply slice_to_incl | auto].
Qed.

Lemma keyed_docs (s : WeightRerankRunner.state (CacheEmbedding := CacheEmbedding))
  docs (keyed : list (pyfloat * Document)) :
  Forall2 (fun d kd => fst (WeightRerankRunner.sort_key d s) = Ok (fst kd) /\ snd kd = d)
    docs keyed ->
  map snd keyed = docs.
Proof.
  induction 1 as [|d kd docs keyed [_ Hd] _ IH]; simpl; [reflexivity|]. now rewrite Hd, IH.
Qed.

End RunScored.

(** C10. Every document that [run] returns is one of the documents given,
    has metadata, and has an entry under ["score"] in it when [run]
    returns; a document given without metadata is not among those returned,
    whatever its scores; and [run] writes into no dict other than the
    metadata of the documents given. *)
Theorem run_returns_scored_documents :
  forall (CacheEmbedding : Type) extract_keywords
         (embed_query : CacheEmbedding -> string -> result (list Q)) math_log math_sqrt
         tenant_id weights query documents score_threshold top_n s out s',
    WeightRerankRunner.run extract_keywords embed_query math_log math_sqrt
      tenant_id weights query documents score_threshold top_n s = (Ok out, s') ->
    (forall d, In d out ->
       In d documents
       /\ exists l v, metadata d = Some l
                      /\ WeightRerankRunner.docs_heap s' l !! "score"%string = Some v)
    /\ (forall d, In d documents -> metadata d = None -> ~ In d out)
    /\ (forall l, ~ In (Some l) (map metadata documents) ->
          WeightRerankRunner.docs_heap s' l = WeightRerankRunner.docs_heap s l).
Proof.
  intros CE extract_keywords embed_query math_log math_sqrt tenant_id weights query documents
    score_threshold top_n s out s' Hrun.
  apply run_inv in Hrun as (ce & qv & vscores & frows & keyed & _ & _ & Hrows & Hs' & Hkeyed & ->).
  assert (Hout : forall d, In d (top top_n (map snd (sort_desc keyed))) ->
                           In d (kept weights score_threshold frows)).
  { intros d Hd. apply top_incl in Hd.
    apply (Permutation_in _ (Permutation_map snd (sort_desc_perm keyed))) in Hd.
    now rewrite (keyed_docs _ _ _ Hkeyed) in Hd. }
  assert (Hscored : forall d, In d (top top_n (map snd (sort_desc keyed))) ->
            In d documents
            /\ exists l v, metadata d = Some l
                           /\ WeightRerankRunner.docs_heap s' l !! "score"%string = Some v).
  { intros d Hd. apply Hout in Hd.
    destruct (kept_scored weights score_threshold frows
                (write_keywords extract_keywords documents (WeightRerankRunner.docs_heap s))
                d Hd) as (Hin & l & Hm & q & Hq).
    split; [eapply rows_of_documents; eassumption|].
    exists l, (PyFloat q). split; [exact Hm|]. rewrite Hs'. exact Hq. }
  split; [exact Hscored|]. split.
  - intros d _ Hnone Hd. apply Hscored in Hd as (_ & l & v & Hm & _). congruence.
  - intros l Hnot. rewrite Hs'. cbn [WeightRerankRunner.docs_heap].
    rewrite write_scores_frame; [now apply write_keywords_frame|].
    intros Hin. apply Hnot.
    apply in_map_iff in Hin as ([[d ks] vs] & Hm & Hin). simpl in Hm.
    rewrite <- Hm. apply in_map. eapply rows_of_documents; [exact Hrows|].
    apply in_map_iff. exists (d, ks, vs). auto.
Qed.

(** A run on two documents, the second without metadata.  The stand-ins
    for the collaborators: a text is its own single keyword, the query
    vector is [(1, 0)], and [math.log] and [math.sqrt] are the identity. *)
Definition doc_a : Document :=
  {| page_content := "alpha"; metadata := Some 0%nat;
     vector := Some [1%Q; 0%Q]; provider := "dify" |}.

Definition doc_b : Document :=
  {| page_content := "beta"; metadata := None;
     vector := Some [0%Q; 1%Q]; provider := "dify" |}.

Definition sample_weights : Weights :=
  {| vector_setting :=
       {| vector_weight := Num (7 # 10); embedding_provider_name := "openai";
          embedding_model_name := "text-embedding-ada-002" |};
     keyword_setting := {| keyword_weight := Num (3 # 10) |} |}.

Definition sample_state : WeightRerankRunner.state (CacheEmbedding := nat) :=
  WeightRerankRunner.initial (fun _ => ∅) (fun n => Z.of_nat n) (fun n => Ok n).

Definition sample_run (documents : list Document) (score_threshold : option Q)
  (top_n : option Z) :=
  WeightRerankRunner.run (fun text => [text]) (fun _ _ => Ok [1%Q; 0%Q]) (fun x => x)
    (fun x => x) "tenant1" sample_weights "alpha" documents score_threshold top_n sample_state.

Lemma run_returns_scored_documents_witness :
  fst (sample_run [doc_a; doc_b] None None) = Ok [doc_a]
  /\ (forall d, In d [doc_a] ->
        In d [doc_a; doc_b]
        /\ exists l v,
             metadata d = Some l
             /\ WeightRerankRunner.docs_heap (snd (sample_run [doc_a; doc_b] None None)) l
                !! "score"%string = Some v)
  /\ (forall d, In d [doc_a; doc_b] -> metadata d = None -> ~ In d [doc_a])
  /\ (forall l, ~ In (Some l) (map metadata [doc_a; doc_b]) ->
        WeightRerankRunner.docs_heap (snd (sample_run [doc_a; doc_b] None None)) l
        = WeightRerankRunner.docs_heap sample_state l).
Proof.
  assert (Hfst : fst (sample_run [doc_a; doc_b] None None) = Ok [doc_a])
    by (vm_compute; reflexivity).
  split; [exact Hfst|].
  apply (run_returns_scored_documents nat (fun text => [text]) (fun _ _ => Ok [1%Q; 0%Q])
           (fun x => x) (fun x => x) "tenant1"%string sample_weights "alpha"%string
           [doc_a; doc_b] None None sample_state).
  rewrite <- Hfst. apply surjective_pairing.
Defined.

(** ** The scores of a document *)

Section Scores.
Context {CacheEmbedding : Type}.
Variable extract_keywords : string -> list string.
Variable embed_query : CacheEmbedding -> string -> result (list Q).
Variable math_log : Q -> Q.
Variable math_sqrt : Q -> Q.
Local Abbreviation state := (WeightRerankRunner.state (CacheEmbedding := CacheEmbedding)).
Local Abbreviation State := (WeightRerankRunner.State (CacheEmbedding := CacheEmbedding)).
Local Abbreviation docs_heap := (WeightRerankRunner.docs_heap (CacheEmbedding := CacheEmbedding)).
Local Abbreviation document_cosine :=
  (WeightRerankRunner.document_cosine (CacheEmbedding := CacheEmbedding) math_sqrt).









End Scores.

Section Fusion.
Context {CacheEmbedding : Type}.
Variable extract_keywords : string -> list string.
Variable embed_query : CacheEmbedding -> string -> result (list Q).
Variable math_log : Q -> Q.
Variable math_sqrt : Q -> Q.
Local Abbreviation state := (WeightRerankRunner.state (CacheEmbedding := CacheEmbedding)).






End Fusion.

(** The number a float stands for; 0 for [nan]. *)
Definition number (x : pyfloat) : Q :=
  match x with
  | Num q => q
  | NaN => 0%Q
  end.

Lemma keys_are_numbers (f : Document -> pyfloat) docs :
  Forall (fun d => is_number (f d)) docs ->
  map (fun d => (f d, d)) docs = map (fun d => (Num (number (f d)), d)) docs.
Proof.
  induction 1 as [|d ds [q Hq] _ IH]; simpl; [reflexivity|].
  rewrite IH, Hq. reflexivity.
Qed.



(** C9 on two documents with their own metadata, a threshold of 1/2 and
    [top_n = 1]: the document whose text is not the query falls below the
    threshold. *)
Definition doc_c : Document :=
  {| page_content := "gamma"; metadata := Some 1%nat;
     vector := Some [0%Q; 1%Q]; provider := "dify" |}.


(** The number under ["score"] in the dict at [l], if there is one. *)
Definition stored_score {CacheEmbedding} (s : WeightRerankRunner.state (CacheEmbedding := CacheEmbedding))
  (l : loc) : option Q :=
  match WeightRerankRunner.docs_heap s l !! "score"%string with
  | Some (PyFloat (Num q)) => Some q
  | _ => None
  end.

Definition same_score (x : option Q) (q : Q) : Prop :=
  match x with
  | Some q' => (q' == q)%Q
  | None => False
  end.

(** What the loop does outside the conditions of C9.  A document without
    metadata in front shifts the keyword scores: the document that follows
    it is fused with the keyword score of its successor, and the last
    document is not scored at all.  A threshold of zero lets a negative
    score pass. *)
Lemma keyword_scores_shift :
  fst (sample_run [doc_a; doc_c] None None) = Ok [doc_a; doc_c]
  /\ same_score (stored_score (snd (sample_run [doc_a; doc_c] None None)) 0%nat) (187 # 250)
  /\ fst (sample_run [doc_b; doc_a; doc_c] None None) = Ok [doc_a]
  /\ same_score (stored_score (snd (sample_run [doc_b; doc_a; doc_c] None None)) 0%nat) (7 # 10)
  /\ stored_score (snd (sample_run [doc_b; doc_a; doc_c] None None)) 1%nat = None.
Proof. vm_compute. repeat split. Qed.

Definition doc_opposed : Document :=
  {| page_content := "delta"; metadata := Some 2%nat;
     vector := Some [(-1)%Q; 0%Q]; provider := "dify" |}.

Lemma zero_threshold_keeps_negative_score :
  fst (sample_run [doc_opposed] (Some 0%Q) None) = Ok [doc_opposed]
  /\ same_score (stored_score (snd (sample_run [doc_opposed] (Some 0%Q) None)) 2%nat) (-7 # 10).
Proof. vm_compute. repeat split. Qed.

(** A document whose vector is all zeros: the norm is zero, the cosine and
    with it the fused score are [nan], and the document passes a threshold
    of 1/2. *)
Definition doc_zero : Document :=
  {| page_content := "epsilon"; metadata := Some 3%nat;
     vector := Some [0%Q; 0%Q]; provider := "dify" |}.

Lemma zero_norm_score_is_nan :
  fst (sample_run [doc_zero] (Some (1 # 2)) None) = Ok [doc_zero]
  /\ WeightRerankRunner.docs_heap (snd (sample_run [doc_zero] (Some (1 # 2)) None)) 3%nat
     !! "score"%string = Some (PyFloat NaN).
Proof. vm_compute. split; reflexivity. Qed.

(** ** One thread alone

    The thread model is a second reading of the lookup, statement by
    statement.  Run without contention it is the sequential lookup. *)

Section Alone.
Context {V : Type}.
Variable TTL_SECONDS : Z.
Variable MAX_SIZE : nat.
Variable catch_auth : bool.
Variable k : string.

Local Abbreviation world := (Cache.world (V := V)).
Local Abbreviation run_alone := (Concurrent.run_alone TTL_SECONDS MAX_SIZE catch_auth).
Local Abbreviation step := (Concurrent.step TTL_SECONDS MAX_SIZE catch_auth 0 k).

(** The lookup of the sequential embedding, with the result as the thread
    model reports it. *)
Definition lookup_alone : M world (option V) :=
  if catch_auth
  then Cache.get_cached_or_none TTL_SECONDS MAX_SIZE k Cache.load_instance
  else (v <- Cache.get_cached TTL_SECONDS MAX_SIZE k Cache.load_instance;; ret (Some v)).

(** The construction and the store, inside [try] where the class has one. *)
Definition construct_and_store : M world (option V) :=
  let body := (v <- Cache.load_instance;; v' <- Cache.store MAX_SIZE k v;; ret (Some v')) in
  if catch_auth then try_except_auth body (ret None) else body.

Definition locked_part : M world (option V) :=
  again <- Cache.double_check TTL_SECONDS k;;
  match again with
  | Some v => ret (Some v)
  | None => Cache.incr_misses;; Cache.cleanup_expired TTL_SECONDS;; construct_and_store
  end.

Lemma lookup_alone_unfold w :
  lookup_alone w
  = (fast <- Cache.first_check TTL_SECONDS k;;
     match fast with
     | Some v => ret (Some v)
     | None => locked_part
     end) w.
Proof.
  unfold lookup_alone, locked_part, construct_and_store, Cache.get_cached_or_none,
    Cache.get_cached.
  destruct catch_auth; [reflexivity|].
  unfold bind.
  destruct (Cache.first_check TTL_SECONDS k w) as [[[v|]|e] w1]; try reflexivity.
  destruct (Cache.double_check TTL_SECONDS k w1) as [[[v1|]|e1] w2]; try reflexivity.
  destruct (Cache.incr_misses w2) as [[u2|e2] w3]; try reflexivity.
  destruct (Cache.cleanup_expired TTL_SECONDS w3) as [[u3|e3] w4]; try reflexivity.
  destruct (Cache.load_instance w4) as [[v4|e4] w5]; reflexivity.
Qed.

(** The thread, alone, finishes with the result and in the state [x], the
    lock free. *)
Definition finishes (p : Concurrent.pc) (l : option nat) (w : world)
  (x : result (option V) * world) : Prop :=
  exists fuel, run_alone fuel k p l w = (Concurrent.PDone (fst x), None, snd x).

Lemma finishes_step p l w p' l' w' x :
  step p l w = Some (p', l', w') -> finishes p' l' w' x -> finishes p l w x.
Proof.
  intros Hstep [fuel Hrun]. exists (S fuel). simpl. now rewrite Hstep.
Qed.

Lemma finishes_done r w : finishes (Concurrent.PDone r) None w (r, w).
Proof. now exists 0%nat. Qed.

Ltac one_step := eapply finishes_step; [reflexivity|]; cbn beta iota.

Lemma alone_store v w :
  finishes (Concurrent.PEvict v) (Some 0%nat) w
    ((v' <- Cache.store MAX_SIZE k v;; ret (Some v')) w).
Proof.
  destruct w as [clk n ldr nl c st]. exists 2%nat.
  destruct c as [|x c]; cbv -[Nat.leb length OD.set];
    destruct (Nat.leb _ _); reflexivity.
Qed.

Lemma alone_construct w :
  finishes Concurrent.PConstruct (Some 0%nat) w (construct_and_store w).
Proof.
  destruct (Cache.load_instance w) as [[v|e] w1] eqn:Hload.
  - assert (Heq : construct_and_store w
                  = (v' <- Cache.store MAX_SIZE k v;; ret (Some v')) w1).
    { unfold construct_and_store, try_except_auth, bind.
      destruct catch_auth; rewrite Hload, store_spec; reflexivity. }
    rewrite Heq. eapply finishes_step; [|apply alone_store].
    unfold Concurrent.step. now rewrite Hload.
  - assert (Heq : construct_and_store w
                  = (match e with
                     | InvokeAuthorizationError =>
                         if catch_auth then Ok None else Raise e
                     | _ => Raise e
                     end, w1)).
    { unfold construct_and_store, try_except_auth, bind.
      destruct catch_auth; rewrite Hload; destruct e; reflexivity. }
    rewrite Heq. eapply finishes_step.
    + unfold Concurrent.step. rewrite Hload. reflexivity.
    + destruct e, catch_auth; apply finishes_done.
Qed.

Local Abbreviation sweep_body :=
  (fun key : string => Cache.delitem (V := V) key;; Cache.incr_expired).

Lemma alone_sweep ks w :
  finishes (Concurrent.PSweepDel ks) (Some 0%nat) w
    ((for_each ks sweep_body;; construct_and_store) w).
Proof.
  revert w. induction ks as [|key rest IH]; intros w.
  - eapply finishes_step; [reflexivity|]. apply alone_construct.
  - destruct (sweep_body key w) as [[u|e] w1] eqn:Hbody.
    + eapply finishes_step.
      { unfold Concurrent.step, Concurrent.next. rewrite Hbody. reflexivity. }
      replace ((for_each (key :: rest) sweep_body;; construct_and_store) w)
        with ((for_each rest sweep_body;; construct_and_store) w1); [apply IH|].
      simpl for_each. unfold bind at 3 4. now rewrite Hbody.
    + eapply finishes_step.
      { unfold Concurrent.step, Concurrent.next. rewrite Hbody. reflexivity. }
      replace ((for_each (key :: rest) sweep_body;; construct_and_store) w)
        with (@Raise (option V) e, w1); [apply finishes_done|].
      simpl for_each. unfold bind at 1 2. now rewrite Hbody.
Qed.

Definition miss_part : M world (option V) :=
  Cache.incr_misses;; Cache.cleanup_expired TTL_SECONDS;; construct_and_store.

Lemma alone_miss w : finishes Concurrent.PMiss (Some 0%nat) w (miss_part w).
Proof.
  eapply finishes_step; [reflexivity|].
  eapply finishes_step; [reflexivity|].
  apply alone_sweep.
Qed.

Ltac crunch Hl Hexp :=
  unfold Concurrent.step, Concurrent.next, Concurrent.acquire,
    Cache.first_check, Cache.double_check, Cache.contains, Cache.getitem,
    Cache.is_cache_expired, Cache.move_to_end, Cache.getitem, Cache.delitem, Cache.contains,
    Cache.incr_hits, Cache.incr_expired, Cache.time_time, bind, gets, modify, ret, OD.mem;
  repeat (rewrite ?Hl, ?Hexp; simpl).

Lemma alone_locked w : finishes Concurrent.PMissLock None w (locked_part w).
Proof.
  eapply finishes_step; [reflexivity|].
  destruct w as [clk n ldr nl c st].
  destruct (OD.lookup k c) as [[v t]|] eqn:Hl.
  - destruct (TTL_SECONDS <? clk n - t) eqn:Hexp.
    + eapply finishes_step; [crunch Hl Hexp; reflexivity|].
      eapply finishes_step; [crunch Hl Hexp; reflexivity|].
      eapply finishes_step; [crunch Hl Hexp; reflexivity|].
      match goal with
      | |- finishes _ _ ?w1 _ =>
          replace (locked_part (Cache.World clk n ldr nl c st)) with (miss_part w1);
          [apply alone_miss|]
      end.
      unfold locked_part, miss_part. crunch Hl Hexp. reflexivity.
    + eapply finishes_step; [crunch Hl Hexp; reflexivity|].
      eapply finishes_step; [crunch Hl Hexp; reflexivity|].
      eapply finishes_step; [crunch Hl Hexp; reflexivity|].
      eapply finishes_step; [crunch Hl Hexp; reflexivity|].
      match goal with
      | |- finishes (Concurrent.PDone ?r) _ ?w1 _ =>
          replace (locked_part (Cache.World clk n ldr nl c st)) with (r, w1);
          [apply finishes_done|]
      end.
      unfold locked_part. crunch Hl Hexp. reflexivity.
  - eapply finishes_step; [crunch Hl Hl; reflexivity|].
    match goal with
    | |- finishes _ _ ?w1 _ =>
        replace (locked_part (Cache.World clk n ldr nl c st)) with (miss_part w1);
        [apply alone_miss|]
    end.
    unfold locked_part, miss_part. crunch Hl Hl. reflexivity.
Qed.

Definition first_part : M world (option V) :=
  fast <- Cache.first_check TTL_SECONDS k;;
  match fast with
  | Some v => ret (Some v)
  | None => locked_part
  end.

Lemma alone_first w : finishes Concurrent.PStart None w (first_part w).
Proof.
  destruct w as [clk n ldr nl c st].
  destruct (OD.lookup k c) as [[v t]|] eqn:Hl.
  - destruct (TTL_SECONDS <? clk n - t) eqn:Hexp.
    + eapply finishes_step; [crunch Hl Hexp; reflexivity|].
      eapply finishes_step; [crunch Hl Hexp; reflexivity|].
      eapply finishes_step; [crunch Hl Hexp; reflexivity|].
      eapply finishes_step; [crunch Hl Hexp; reflexivity|].
      eapply finishes_step; [crunch Hl Hexp; reflexivity|].
      match goal with
      | |- finishes _ _ ?w1 _ =>
          replace (first_part (Cache.World clk n ldr nl c st)) with (locked_part w1);
          [apply alone_locked|]
      end.
      unfold first_part. crunch Hl Hexp. reflexivity.
    + eapply finishes_step; [crunch Hl Hexp; reflexivity|].
      eapply finishes_step; [crunch Hl Hexp; reflexivity|].
      eapply finishes_step; [crunch Hl Hexp; reflexivity|].
      eapply finishes_step; [crunch Hl Hexp; reflexivity|].
      eapply finishes_step; [crunch Hl Hexp; reflexivity|].
      eapply finishes_step; [crunch Hl Hexp; reflexivity|].
      match goal with
      | |- finishes (Concurrent.PDone ?r) _ ?w1 _ =>
          replace (first_part (Cache.World clk n ldr nl c st)) with (r, w1);
          [apply finishes_done|]
      end.
      unfold first_part. crunch Hl Hexp. reflexivity.
  - eapply finishes_step; [crunch Hl Hl; reflexivity|].
    match goal with
    | |- finishes _ _ ?w1 _ =>
        replace (first_part (Cache.World clk n ldr nl c st)) with (locked_part w1);
        [apply alone_locked|]
    end.
    unfold first_part. crunch Hl Hl. reflexivity.
Qed.

(** X8. A lookup that runs with no other thread about takes the steps of the
    sequential lookup: it finishes, with the same result, in the same state,
    and with the lock free. *)
Theorem run_alone_is_lookup w :
  exists fuel,
    run_alone fuel k Concurrent.PStart None w
    = (Concurrent.PDone (fst (lookup_alone w)), None, snd (lookup_alone w)).
Proof.
  rewrite lookup_alone_unfold. apply alone_first.
Qed.

End Alone.

(** The same through the scheduler: a system of one thread, scheduled
    [fuel] times, is that thread run alone. *)
Lemma run_alone_stuck {V} TTL_SECONDS MAX_SIZE catch_auth fuel k p l (w : Cache.world (V := V)) :
  Concurrent.step TTL_SECONDS MAX_SIZE catch_auth 0 k p l w = None ->
  Concurrent.run_alone TTL_SECONDS MAX_SIZE catch_auth fuel k p l w = (p, l, w).
Proof. intros H. destruct fuel; simpl; [reflexivity | now rewrite H]. Qed.

Lemma run_single_thread {V} TTL_SECONDS MAX_SIZE catch_auth fuel k p l (w : Cache.world (V := V)) :
  Concurrent.run TTL_SECONDS MAX_SIZE catch_auth (repeat 0%nat fuel) (Concurrent.Sys w l [(k, p)])
  = let '(p', l', w') := Concurrent.run_alone TTL_SECONDS MAX_SIZE catch_auth fuel k p l w in
    Concurrent.Sys w' l' [(k, p')].
Proof.
  revert p l w. induction fuel as [|fuel IH]; intros p l w; [reflexivity|].
  simpl. unfold Concurrent.sys_step at 1. simpl.
  destruct (Concurrent.step TTL_SECONDS MAX_SIZE catch_auth 0 k p l w) as [[[p' l'] w']|] eqn:Hstep.
  - apply IH.
  - rewrite IH. now rewrite (run_alone_stuck _ _ _ fuel _ _ _ _ Hstep).
Qed.

(** ** Two threads and a stale entry *)

(** The cache holds an entry of the key that is older than the TTL; the
    clock advances one second per reading, the [n]-th construction yields
    the instance [n]. *)
Definition stale_world : Cache.world (V := nat) :=
  Cache.World (fun n => 2000 + Z.of_nat n) 0 (fun n => Ok n) 0
    [("k"%string, (7%nat, 0))] (Cache.Stats 0 0 0 0).

(** Thread 1 finds the entry stale and is about to take the lock to delete
    it; thread 0 then runs its whole lookup, deleting the stale entry and
    storing a new one; thread 1 goes on, deletes the new entry, misses at the
    double check and constructs again. *)
Definition stale_schedule : list nat :=
  [1; 1; 1]%nat ++ repeat 0%nat 13 ++ repeat 1%nat 10.

(** The same start, but thread 1 takes the lock right after thread 0 has
    deleted the stale entry: its own [del] finds no entry. *)
Definition stale_schedule_key_error : list nat :=
  [1; 1; 1]%nat ++ repeat 0%nat 5 ++ [1; 1]%nat.

(** C3. Two lookups of the same key that both find its entry expired: the
    instance is constructed twice and the two callers get different
    instances, for the constants of each of the caches; on another schedule
    the second caller gets a [KeyError]. *)
Theorem stale_entry_constructed_twice :
  fresh_hit 1800 "k" stale_world = None
  /\ (let s := Concurrent.run 1800 100 false stale_schedule
                 (Concurrent.start 2 "k" stale_world) in
      Cache.loads (Concurrent.shared s) = 2%nat
      /\ Concurrent.threads s
         = [("k"%string, Concurrent.PDone (Ok (Some 0%nat)));
            ("k"%string, Concurrent.PDone (Ok (Some 1%nat)))])
  /\ (let s := Concurrent.run 1800 50 true stale_schedule
                 (Concurrent.start 2 "k" stale_world) in
      Cache.loads (Concurrent.shared s) = 2%nat
      /\ Concurrent.threads s
         = [("k"%string, Concurrent.PDone (Ok (Some 0%nat)));
            ("k"%string, Concurrent.PDone (Ok (Some 1%nat)))])
  /\ (let s := Concurrent.run 1800 100 false stale_schedule_key_error
                 (Concurrent.start 2 "k" stale_world) in
      Concurrent.threads s !! 1%nat
      = Some ("k"%string, Concurrent.PDone (Raise (KeyError "k")))).
Proof. vm_compute. repeat split. Qed.

Lemma od_lookup_to_end {E} (d : OD.t (E := E)) k e : OD.lookup k (OD.to_end k e d) = Some e.
Proof.
  unfold OD.to_end. rewrite od_lookup_app, od_lookup_remove. simpl.
  now rewrite String.eqb_refl.
Qed.

Lemma od_lookup_remove_none {E} (d : OD.t (E := E)) k k' :
  OD.lookup k d = None -> OD.lookup k (OD.remove k' d) = None.
Proof.
  intros H. destruct (string_dec k k') as [->|Hne].
  - apply od_lookup_remove.
  - now rewrite od_lookup_remove_ne.
Qed.

Lemma od_lookup_tl_none {E} (d : OD.t (E := E)) k :
  OD.lookup k d = None -> OD.lookup k (tl d) = None.
Proof.
  destruct d as [|[k1 e1] d]; simpl; [auto|].
  destruct (String.eqb k1 k); [discriminate | auto].
Qed.

(** ** Threads that miss a key the cache does not hold *)

Section OneConstruction.
Context {V : Type}.
Variable TTL_SECONDS : Z.
Variable MAX_SIZE : nat.
Variable catch_auth : bool.
Variable k : string.
Variable w0 : Cache.world (V := V).
Variable v0 : V.

(** The next construction succeeds, and the clock readings of the race
    lie within one TTL of each other. *)
Hypothesis loader_ok : Cache.loader w0 (Cache.loads w0) = Ok v0.
Hypothesis window : forall i j, Cache.clock w0 i - Cache.clock w0 j <= TTL_SECONDS.

Local Abbreviation pc := (Concurrent.pc (V := V)).
Local Abbreviation step := (Concurrent.step (V := V) TTL_SECONDS MAX_SIZE catch_auth).
Local Abbreviation sys_step := (Concurrent.sys_step (V := V) TTL_SECONDS MAX_SIZE catch_auth).

(** The places inside [with lock:]. *)
Definition holds (p : pc) : bool :=
  match p with
  | Concurrent.PHitMove _ | Concurrent.PExpDel | Concurrent.PDoubleCheck
  | Concurrent.PDoubleGet | Concurrent.PDoubleExpiry _ _ | Concurrent.PDoubleMove _
  | Concurrent.PMiss | Concurrent.PSweepScan | Concurrent.PSweepDel _
  | Concurrent.PConstruct | Concurrent.PEvict _ | Concurrent.PStore _ => true
  | _ => false
  end.

(** The race has three phases: the key is absent and nothing was
    constructed; the instance was constructed and is about to be stored by
    the thread that holds the lock; the instance is stored. *)
Inductive phase : Type := Absent | Loaded | Stored.

Lemma phase_eq_dec (ph ph' : phase) : {ph = ph'} + {ph <> ph'}.
Proof. decide equality. Qed.

Definition stamped (t : Z) : Prop := exists j, t = Cache.clock w0 j.

(** Where a thread can stand in each phase. *)
Definition ok (ph : phase) (p : pc) : Prop :=
  match p with
  | Concurrent.PStart | Concurrent.PMissLock | Concurrent.PDone (Raise _) => True
  | Concurrent.PDoubleCheck => ph = Absent \/ ph = Stored
  | Concurrent.PMiss | Concurrent.PSweepScan | Concurrent.PSweepDel _
  | Concurrent.PConstruct => ph = Absent
  | Concurrent.PEvict v | Concurrent.PStore v => ph = Loaded /\ v = v0
  | Concurrent.PFirstGet | Concurrent.PDoubleGet => ph = Stored
  | Concurrent.PFirstExpiry v t | Concurrent.PDoubleExpiry v t =>
      ph = Stored /\ v = v0 /\ stamped t
  | Concurrent.PHitLock v | Concurrent.PHitMove v | Concurrent.PHitLog v
  | Concurrent.PDoubleMove v => ph = Stored /\ v = v0
  | Concurrent.PDone (Ok r) => ph = Stored /\ r = Some v0
  | Concurrent.PExpLock | Concurrent.PExpDel => False
  end.

Definition world_ok (ph : phase) (w : Cache.world (V := V)) : Prop :=
  Cache.clock w = Cache.clock w0
  /\ Cache.loader w = Cache.loader w0
  /\ match ph with
     | Absent => Cache.loads w = Cache.loads w0 /\ OD.lookup k (Cache.cache w) = None
     | Loaded => Cache.loads w = S (Cache.loads w0) /\ OD.lookup k (Cache.cache w) = None
     | Stored =>
         Cache.loads w = S (Cache.loads w0)
         /\ exists t, stamped t /\ OD.lookup k (Cache.cache w) = Some (v0, t)
     end.

(** Between the construction and the store the lock is held. *)
Definition lock_held (ph : phase) (l : option nat) : Prop :=
  match ph with Loaded => l <> None | _ => True end.

Definition advance (ph ph' : phase) : Prop :=
  ph' = ph \/ (ph = Absent /\ ph' = Loaded) \/ (ph = Loaded /\ ph' = Stored).

Definition lock_change (me : nat) (l l' : option nat) : Prop :=
  l' = l \/ (l = None /\ l' = Some me) \/ (l = Some me /\ l' = None).

(** A thread that does not hold the lock can stand in the next phase where
    it stands. *)
Lemma ok_advance ph ph' p : advance ph ph' -> ok ph p -> holds p = false -> ok ph' p.
Proof.
  intros [->|[[-> ->]|[-> ->]]] Hok Hholds; [exact Hok| |];
    destruct p as [| | | | | | | | | | | | | | | | | | |[r|e]]; simpl in *;
    try discriminate; try exact I; try contradiction;
    intuition discriminate.
Qed.

Ltac eval_step H :=
  cbv beta iota zeta delta
    [Concurrent.step Concurrent.next Concurrent.acquire Cache.contains Cache.getitem
     Cache.delitem Cache.move_to_end Cache.setitem Cache.popitem_first Cache.incr_hits
     Cache.incr_misses Cache.incr_evictions Cache.incr_expired Cache.is_cache_expired
     Cache.evict_lru Cache.time_time Cache.load_instance bind gets modify ret raise
     Cache.set_cache Cache.set_stats OD.mem] in H;
  cbn [Cache.cache Cache.clock Cache.ticks Cache.loader Cache.loads Cache.cache_stats
       fst snd] in H.

(** Close the goal of [step_phase] with the phase [ph]. *)
Ltac settle ph :=
  exists ph;
  split; [solve [unfold advance; auto]|];
  split; [solve [cbn [Cache.cache Cache.clock Cache.ticks Cache.loader Cache.loads];
                 eauto 10]|];
  split; [solve [simpl; auto]|];
  split; [solve [simpl; auto; congruence]|];
  split; [solve [simpl; intuition congruence]|];
  split; [solve [unfold lock_change; intuition auto] | solve [intuition congruence]].

(** One step of one thread keeps the thread, the world and the lock within
    the phase, or moves the race to the next phase; only the holder of the
    lock moves it. *)
Lemma step_phase ph me p l (w : Cache.world (V := V)) p' l' w' :
  world_ok ph w -> ok ph p -> (holds p = true <-> l = Some me) -> lock_held ph l ->
  step me k p l w = Some (p', l', w') ->
  exists ph',
    advance ph ph' /\ world_ok ph' w' /\ ok ph' p' /\ lock_held ph' l'
    /\ (holds p' = true <-> l' = Some me) /\ lock_change me l l'
    /\ (ph' <> ph -> l = Some me).
Proof using loader_ok window.
  destruct w as [clk n ldr nl c st]. unfold world_ok.
  cbn [Cache.cache Cache.clock Cache.ticks Cache.loader Cache.loads].
  intros (Hclk & Hldr & Hph) Hok Hlock Hheld Hstep.
  destruct p; simpl in Hok, Hlock; eval_step Hstep;
    try (assert (Hme : l = Some me) by (apply Hlock; reflexivity));
    try (assert (Hnot : l <> Some me) by (intros Hl'; apply Hlock in Hl'; discriminate)).
  - (* the first check *)
    destruct ph; [destruct Hph as [Hnl Hl] | destruct Hph as [Hnl Hl]
                 | destruct Hph as (Hnl & t & Ht & Hl)];
      rewrite Hl in Hstep; inversion Hstep; subst.
    + settle Absent.
    + settle Loaded.
    + settle Stored.
  - subst ph. destruct Hph as (Hnl & t & Ht & Hl).
    rewrite Hl in Hstep. inversion Hstep; subst. settle Stored.
  - destruct Hok as (-> & -> & [j ->]). destruct Hph as (Hnl & t & Ht & Hl).
    assert (Hfresh : (TTL_SECONDS <? clk n - Cache.clock w0 j) = false)
      by (subst clk; apply Z.ltb_ge, window).
    rewrite Hfresh in Hstep. inversion Hstep; subst. settle Stored.
  - destruct Hok as [-> ->]. destruct l; [discriminate|].
    inversion Hstep; subst. settle Stored.
  - destruct Hok as [-> ->]. destruct Hph as (Hnl & t & Ht & Hl).
    rewrite Hl in Hstep. inversion Hstep; subst.
    exists Stored. split; [unfold advance; auto|].
    split; [cbn; rewrite od_lookup_to_end; eauto 10|].
    split; [simpl; auto|]. split; [exact I|].
    split; [simpl; intuition congruence|].
    split; [unfold lock_change; intuition auto | intuition congruence].
  - destruct Hok as [-> ->]. inversion Hstep; subst. settle Stored.
  - contradiction.
  - contradiction.
  - (* the lock of the slow path *)
    destruct l; [discriminate|]. inversion Hstep; subst.
    destruct ph; [settle Absent | now simpl in Hheld | settle Stored].
  - (* the double check *)
    destruct Hok as [-> | ->].
    + destruct Hph as [Hnl Hl]. rewrite Hl in Hstep. inversion Hstep; subst. settle Absent.
    + destruct Hph as (Hnl & t & Ht & Hl). rewrite Hl in Hstep.
      inversion Hstep; subst. settle Stored.
  - subst ph. destruct Hph as (Hnl & t & Ht & Hl).
    rewrite Hl in Hstep. inversion Hstep; subst. settle Stored.
  - destruct Hok as (-> & -> & [j ->]). destruct Hph as (Hnl & t & Ht & Hl).
    assert (Hfresh : (TTL_SECONDS <? clk n - Cache.clock w0 j) = false)
      by (subst clk; apply Z.ltb_ge, window).
    rewrite Hfresh in Hstep. inversion Hstep; subst. settle Stored.
  - destruct Hok as [-> ->]. destruct Hph as (Hnl & t & Ht & Hl).
    rewrite Hl in Hstep. inversion Hstep; subst.
    exists Stored. split; [unfold advance; auto|].
    split; [cbn; rewrite od_lookup_to_end; eauto 10|].
    split; [simpl; auto|]. split; [exact I|].
    split; [simpl; intuition congruence|].
    split; [unfold lock_change; intuition auto | intuition congruence].
  - (* the miss, the sweep *)
    subst ph. inversion Hstep; subst. settle Absent.
  - subst ph. inversion Hstep; subst. settle Absent.
  - subst ph. destruct Hph as [Hnl Hl]. destruct expired_keys as [|key' rest].
    + inversion Hstep; subst. settle Absent.
    + destruct (OD.lookup key' c) eqn:Hkey'; inversion Hstep; subst.
      * exists Absent. split; [unfold advance; auto|].
        split; [cbn; rewrite od_lookup_remove_none by exact Hl; auto|].
        split; [simpl; auto|]. split; [exact I|].
        split; [simpl; intuition congruence|].
        split; [unfold lock_change; intuition auto | intuition congruence].
      * settle Absent.
  - (* the construction *)
    subst ph. destruct Hph as [Hnl Hl]. subst ldr nl. rewrite loader_ok in Hstep.
    inversion Hstep; subst. settle Loaded.
  - (* the eviction and the store *)
    destruct Hok as [-> ->]. destruct Hph as [Hnl Hl].
    destruct (MAX_SIZE <=? length c)%nat.
    + destruct c as [|x c]; inversion Hstep; subst; [settle Loaded|].
      pose proof (od_lookup_tl_none (x :: c) k Hl) as Htl. simpl in Htl.
      settle Loaded.
    + inversion Hstep; subst. settle Loaded.
  - destruct Hok as [-> ->]. destruct Hph as [Hnl Hl]. inversion Hstep; subst.
    exists Stored. split; [unfold advance; auto|].
    split; [cbn; rewrite od_lookup_set; unfold stamped; eauto 10|].
    split; [simpl; auto|]. split; [exact I|].
    split; [simpl; intuition congruence|].
    split; [unfold lock_change; intuition auto | intuition congruence].
  - discriminate.
Qed.

(** The key is absent when the race starts. *)
Hypothesis absent : OD.lookup k (Cache.cache w0) = None.

Definition race_inv (ph : phase) (s : Concurrent.sys (V := V)) : Prop :=
  world_ok ph (Concurrent.shared s)
  /\ lock_held ph (Concurrent.lock s)
  /\ forall i key p,
       Concurrent.threads s !! i = Some (key, p) ->
       key = k /\ ok ph p /\ (holds p = true <-> Concurrent.lock s = Some i).

Lemma race_inv_start n : race_inv Absent (Concurrent.start n k w0).
Proof using absent.
  unfold race_inv, Concurrent.start, world_ok. simpl.
  split; [auto|]. split; [exact I|].
  intros i key p Hi. apply lookup_replicate in Hi as [Hi _]. inversion Hi; subst.
  simpl. intuition congruence.
Qed.

Lemma race_inv_step i s ph : race_inv ph s -> exists ph', race_inv ph' (sys_step i s).
Proof using loader_ok window.
  intros (Hw & Hheld & Hth). unfold Concurrent.sys_step.
  destruct (Concurrent.threads s !! i) as [[key p]|] eqn:Hi;
    [|exists ph; exact (conj Hw (conj Hheld Hth))].
  destruct (Hth i key p Hi) as (-> & Hok & Hlock).
  destruct (step i k p (Concurrent.lock s) (Concurrent.shared s)) as [[[p' l'] w']|] eqn:Hstep;
    [|exists ph; exact (conj Hw (conj Hheld Hth))].
  destruct (step_phase ph i p _ _ p' l' w' Hw Hok Hlock Hheld Hstep)
    as (ph' & Hadv & Hw' & Hok' & Hheld' & Hlock' & Hchange & Hmover).
  exists ph'. split; [exact Hw'|]. split; [exact Hheld'|].
  cbn [Concurrent.threads Concurrent.lock].
  intros j key q Hj. destruct (decide (i = j)) as [<-|Hne].
  - rewrite list_lookup_insert_eq in Hj by (eapply lookup_lt_Some, Hi).
    inversion Hj; subst. auto.
  - rewrite list_lookup_insert_ne in Hj by exact Hne.
    destruct (Hth j key q Hj) as (-> & Hokq & Hlockq).
    assert (Hother : holds q = true <-> l' = Some j).
    { destruct Hchange as [->|[[Hl ->]|[Hl ->]]]; [exact Hlockq| |];
        rewrite Hl in Hlockq; split; intros H; try congruence;
        apply Hlockq in H; congruence. }
    split; [reflexivity|]. split; [|exact Hother].
    destruct (phase_eq_dec ph' ph) as [->|Hph]; [exact Hokq|].
    apply (ok_advance ph ph' q Hadv Hokq).
    specialize (Hmover Hph). rewrite Hmover in Hlockq.
    destruct (holds q); [|reflexivity].
    assert (Some i = Some j) by (now apply Hlockq). congruence.
Qed.

Lemma race_inv_run schedule s ph :
  race_inv ph s ->
  exists ph', race_inv ph' (Concurrent.run TTL_SECONDS MAX_SIZE catch_auth schedule s).
Proof using loader_ok window.
  revert s ph. induction schedule as [|i schedule IH]; intros s ph H; simpl.
  - eauto.
  - destruct (race_inv_step i s ph H) as [ph1 H1]. apply (IH _ ph1 H1).
Qed.

End OneConstruction.

(** X7. When the key is absent at the start, the next construction succeeds
    and the clock readings of the race lie within one TTL: however the
    threads are scheduled, the instance is constructed at most once, and
    every thread that returns, returns that instance. *)
Theorem one_construction_when_absent :
  forall (V : Type) TTL_SECONDS MAX_SIZE catch_auth k (w0 : Cache.world (V := V)) v0 n schedule,
    OD.lookup k (Cache.cache w0) = None ->
    Cache.loader w0 (Cache.loads w0) = Ok v0 ->
    (forall i j, Cache.clock w0 i - Cache.clock w0 j <= TTL_SECONDS) ->
    let s := Concurrent.run TTL_SECONDS MAX_SIZE catch_auth schedule (Concurrent.start n k w0) in
    (Cache.loads (Concurrent.shared s) <= S (Cache.loads w0))%nat
    /\ forall i r,
         Concurrent.threads s !! i = Some (k, Concurrent.PDone (Ok r)) -> r = Some v0.
Proof.
  intros V TTL MAX catch_auth k w0 v0 n schedule Habs Hload Hwin s.
  destruct (race_inv_run TTL MAX catch_auth k w0 v0 Hload Hwin schedule
              (Concurrent.start n k w0) Absent
              (race_inv_start k w0 v0 Habs n)) as (ph & Hw & _ & Hth).
  fold s in Hw, Hth. split.
  - destruct Hw as (_ & _ & Hph). destruct ph; destruct Hph as [Hn _]; lia.
  - intros i r Hi. destruct (Hth i k _ Hi) as (_ & Hok & _). simpl in Hok. tauto.
Qed.

Lemma one_construction_when_absent_example :
  let s := Concurrent.run 1800 100 false ([1; 0; 0; 1; 0; 1] ++ repeat 0 10 ++ repeat 1 10)%nat
             (Concurrent.start 2 "k" (Cache.initial (fun n => Z.of_nat n) (fun n => Ok n))) in
  Cache.loads (Concurrent.shared s) = 1%nat
  /\ Concurrent.threads s
     = [("k"%string, Concurrent.PDone (Ok (Some 0%nat)));
        ("k"%string, Concurrent.PDone (Ok (Some 0%nat)))].
Proof. vm_compute. split; reflexivity. Qed.

(** X7 for two threads on an empty cache whose clock stops at 1000. *)
Lemma one_construction_when_absent_witness :
  let w0 := Cache.initial (V := nat) (fun n => Z.min (Z.of_nat n) 1000) (fun n => Ok n) in
  let s := Concurrent.run 1800 100 false
             ([1; 0; 0; 1; 0; 1] ++ repeat 0 10 ++ repeat 1 10)%nat
             (Concurrent.start 2 "k" w0) in
  (Cache.loads (Concurrent.shared s) <= 1)%nat
  /\ forall i r,
       Concurrent.threads s !! i = Some ("k"%string, Concurrent.PDone (Ok r)) -> r = Some 0%nat.
Proof.
  intros w0 s.
  apply (one_construction_when_absent nat 1800 100%nat false "k"%string w0 0%nat 2%nat
           ([1; 0; 0; 1; 0; 1] ++ repeat 0 10 ++ repeat 1 10)%nat).
  - reflexivity.
  - reflexivity.
  - intros i j. simpl. lia.
Defined.

(** * Further properties of the caches *)

(** ** The keys of the dict stay distinct *)

Section CacheKeys.
Context {V : Type}.
Variable TTL_SECONDS : Z.
Variable MAX_SIZE : nat.
Implicit Types (w : Cache.world (V := V)) (k : string) (c : OD.t (E := V * Z)).

Lemma keys_to_end_NoDup k e c :
  List.NoDup (OD.keys c) -> List.NoDup (OD.keys (OD.to_end k e c)).
Proof.
  intros Hnd. unfold OD.to_end, OD.keys. rewrite map_app. simpl.
  apply List.NoDup_app.
  - now apply keys_remove_NoDup.
  - repeat constructor. intros [].
  - intros x Hx [<-|[]]. revert Hx. apply od_lookup_keys, od_lookup_remove.
Qed.

Lemma keys_set k e c : OD.keys (OD.set k e c) = if OD.mem k c then OD.keys c else OD.keys c ++ [k].
Proof.
  unfold OD.mem, OD.keys. induction c as [|[k1 e1] c IH]; simpl; [reflexivity|].
  destruct (String.eqb k1 k) eqn:Hk; simpl; [reflexivity|].
  rewrite IH. now destruct (OD.lookup k c).
Qed.

Lemma keys_set_NoDup k e c :
  List.NoDup (OD.keys c) -> List.NoDup (OD.keys (OD.set k e c)).
Proof.
  intros Hnd. rewrite keys_set. unfold OD.mem.
  destruct (OD.lookup k c) eqn:Hl; [exact Hnd|].
  apply List.NoDup_app; [exact Hnd | repeat constructor; intros [] |].
  intros x Hx [<-|[]]. revert Hx. now apply od_lookup_keys.
Qed.

Lemma keys_tl_NoDup c : List.NoDup (OD.keys c) -> List.NoDup (OD.keys (tl c)).
Proof.
  destruct c as [|p c]; simpl; [auto|]. intros H. now apply List.NoDup_cons_iff in H as [_ H].
Qed.

Lemma keys_make_room_NoDup c :
  List.NoDup (OD.keys c) -> List.NoDup (OD.keys (make_room MAX_SIZE c)).
Proof.
  intros H. unfold make_room. destruct (MAX_SIZE <=? length c)%nat; [now apply keys_tl_NoDup|exact H].
Qed.

(** A lookup leaves a dict without duplicate keys, however it ends. *)
Lemma keys_get_cached_NoDup k w :
  List.NoDup (OD.keys (Cache.cache w)) ->
  List.NoDup (OD.keys (Cache.cache
    (snd (Cache.get_cached TTL_SECONDS MAX_SIZE k Cache.load_instance w)))).
Proof.
  intros Hnd. rewrite get_cached_spec by exact Hnd.
  destruct (fresh_hit TTL_SECONDS k w) as [[v t]|] eqn:Hhit.
  - simpl. now apply keys_to_end_NoDup.
  - pose proof (swept_NoDup TTL_SECONDS k w Hnd) as Hs.
    unfold bind, Cache.load_instance.
    destruct (Cache.loader (swept TTL_SECONDS k w) (Cache.loads (swept TTL_SECONDS k w)))
      as [v|e]; [|exact Hs].
    rewrite store_spec. simpl. now apply keys_set_NoDup, keys_make_room_NoDup.
Qed.

(** What a lookup that returns leaves under the key. *)
Lemma get_cached_stores k w v w1 :
  List.NoDup (OD.keys (Cache.cache w)) ->
  Cache.get_cached TTL_SECONDS MAX_SIZE k Cache.load_instance w = (Ok v, w1) ->
  exists t, OD.lookup k (Cache.cache w1) = Some (v, t).
Proof.
  intros Hnd H. rewrite get_cached_spec in H by exact Hnd.
  destruct (fresh_hit TTL_SECONDS k w) as [[v0 t]|] eqn:Hhit.
  - inversion H; subst. exists t. simpl. apply od_lookup_to_end.
  - unfold bind, Cache.load_instance in H.
    destruct (Cache.loader (swept TTL_SECONDS k w) (Cache.loads (swept TTL_SECONDS k w)))
      as [v1|e]; [|discriminate].
    rewrite store_spec in H. inversion H; subst. eexists. simpl. apply od_lookup_set.
Qed.

End CacheKeys.

(** X1. A lookup that returns an instance leaves an entry with that
    instance under the key; a second lookup of the key, made while the age
    of that entry at the next clock reading is within the TTL, returns the
    same instance, constructs nothing and counts one hit. *)
Theorem lookup_again_is_hit :
  forall (V : Type) TTL_SECONDS MAX_SIZE k (w w1 : Cache.world (V := V)) v,
    List.NoDup (OD.keys (Cache.cache w)) ->
    Cache.get_cached TTL_SECONDS MAX_SIZE k Cache.load_instance w = (Ok v, w1) ->
    exists t,
      OD.lookup k (Cache.cache w1) = Some (v, t)
      /\ (Cache.clock w1 (Cache.ticks w1) - t <= TTL_SECONDS ->
          exists w2,
            Cache.get_cached TTL_SECONDS MAX_SIZE k Cache.load_instance w1 = (Ok v, w2)
            /\ Cache.loads w2 = Cache.loads w1
            /\ Cache.hits (Cache.cache_stats w2) = S (Cache.hits (Cache.cache_stats w1))
            /\ Cache.misses (Cache.cache_stats w2) = Cache.misses (Cache.cache_stats w1)
            /\ OD.lookup k (Cache.cache w2) = Some (v, t)).
Proof.
  intros V TTL MAX k w w1 v Hnd H.
  destruct (get_cached_stores TTL MAX k w v w1 Hnd H) as [t Ht].
  exists t. split; [exact Ht|]. intros Hage.
  assert (Hnd1 : List.NoDup (OD.keys (Cache.cache w1))).
  { pose proof (keys_get_cached_NoDup TTL MAX k w Hnd) as Hk. now rewrite H in Hk. }
  assert (Hhit : fresh_hit TTL k w1 = Some (v, t)).
  { unfold fresh_hit. rewrite Ht. apply Z.ltb_ge in Hage. now rewrite Hage. }
  rewrite get_cached_spec by exact Hnd1. rewrite Hhit.
  eexists. split; [reflexivity|]. simpl. repeat split. apply od_lookup_to_end.
Qed.

(** X1 on an empty cache whose clock advances one second per reading. *)
Lemma lookup_again_is_hit_witness :
  let w := Cache.initial (V := nat) (fun n => Z.of_nat n) (fun n => Ok n) in
  let w1 := snd (Cache.get_cached 1800 100 "k" Cache.load_instance w) in
  List.NoDup (OD.keys (Cache.cache w))
  /\ exists t,
       OD.lookup "k" (Cache.cache w1) = Some (0%nat, t)
       /\ (Cache.clock w1 (Cache.ticks w1) - t <= 1800 ->
           exists w2,
             Cache.get_cached 1800 100 "k" Cache.load_instance w1 = (Ok 0%nat, w2)
             /\ Cache.loads w2 = Cache.loads w1
             /\ Cache.hits (Cache.cache_stats w2) = S (Cache.hits (Cache.cache_stats w1))
             /\ Cache.misses (Cache.cache_stats w2) = Cache.misses (Cache.cache_stats w1)
             /\ OD.lookup "k" (Cache.cache w2) = Some (0%nat, t)).
Proof.
  intros w w1.
  assert (Hnd : List.NoDup (OD.keys (Cache.cache w))) by constructor.
  split; [exact Hnd|].
  exact (lookup_again_is_hit nat 1800 100%nat "k"%string w w1 0%nat Hnd eq_refl).
Defined.

(** ** The counters *)

Section CacheCounters.
Context {V : Type}.
Variable TTL_SECONDS : Z.
Variable MAX_SIZE : nat.
Implicit Types (w : Cache.world (V := V)) (k : string) (c : OD.t (E := V * Z)).









End CacheCounters.


(** ** Where the entries go *)

Section CacheAccounts.
Context {V : Type}.
Variable TTL_SECONDS : Z.
Variable MAX_SIZE : nat.
Implicit Types (w : Cache.world (V := V)) (k : string) (c : OD.t (E := V * Z)).

(** The entries the dict holds, and those it has given up for age or for
    room. *)
Definition accounted w : nat :=
  (length (Cache.cache w) + Cache.expired (Cache.cache_stats w)
   + Cache.evictions (Cache.cache_stats w))%nat.

Lemma od_remove_present_length k c e :
  List.NoDup (OD.keys c) -> OD.lookup k c = Some e ->
  S (length (OD.remove k c)) = length c.
Proof.
  unfold OD.keys. induction c as [|[k1 e1] c IH]; simpl; [discriminate|].
  intros Hnd Hl. apply List.NoDup_cons_iff in Hnd as [Hk Hnd].
  destruct (String.eqb k1 k) eqn:Heq; simpl.
  - apply String.eqb_eq in Heq. subst k1.
    rewrite od_remove_absent; [reflexivity|]. now apply od_lookup_keys.
  - f_equal. now apply IH.
Qed.

Lemma after_hit_accounted k v t w :
  List.NoDup (OD.keys (Cache.cache w)) ->
  OD.lookup k (Cache.cache w) = Some (v, t) ->
  accounted (after_hit k (v, t) w) = accounted w.
Proof.
  intros Hnd Hl. unfold accounted, after_hit, OD.to_end. simpl.
  rewrite length_app. simpl.
  pose proof (od_remove_present_length k _ _ Hnd Hl). lia.
Qed.

Lemma swept_accounted k w :
  List.NoDup (OD.keys (Cache.cache w)) ->
  accounted (swept TTL_SECONDS k w) = accounted w.
Proof.
  intros Hnd. unfold accounted, swept, OD.mem. simpl.
  set (c1 := OD.remove k (Cache.cache w)).
  pose proof (List.filter_length_le
                (fun p => negb (TTL_SECONDS <?
                   Cache.clock w (if match OD.lookup k (Cache.cache w) with
                                     | Some _ => true | None => false end
                                  then S (Cache.ticks w) else Cache.ticks w) - snd (snd p)))
                c1) as Hle.
  unfold fresh_entries.
  destruct (OD.lookup k (Cache.cache w)) as [e|] eqn:Hl.
  - pose proof (od_remove_present_length k _ _ Hnd Hl). fold c1 in H. lia.
  - assert (c1 = Cache.cache w) as Hc by (apply od_remove_absent, Hl).
    rewrite Hc in *. lia.
Qed.

Lemma make_room_accounted c :
  (length (make_room MAX_SIZE c) + evicted MAX_SIZE c = length c)%nat.
Proof.
  unfold make_room, evicted. destruct c as [|p c]; simpl.
  - now destruct (MAX_SIZE <=? 0)%nat.
  - destruct (MAX_SIZE <=? S (length c))%nat; simpl; lia.
Qed.

Lemma stored_accounted k v w :
  List.NoDup (OD.keys (Cache.cache w)) ->
  OD.lookup k (Cache.cache w) = None ->
  accounted (snd (Cache.store MAX_SIZE k v w)) = S (accounted w).
Proof.
  intros Hnd Habs. rewrite store_spec. unfold accounted. simpl.
  rewrite od_set_length. unfold OD.mem.
  assert (Hroom : OD.lookup k (make_room MAX_SIZE (Cache.cache w)) = None).
  { unfold make_room. destruct (MAX_SIZE <=? _)%nat; [|exact Habs]. now apply lookup_tail. }
  rewrite Hroom. pose proof (make_room_accounted (Cache.cache w)). lia.
Qed.

End CacheAccounts.

(** X3. No entry leaves the dict uncounted.  Across a lookup, the number of
    entries held plus the entries counted as expired plus those counted as
    evicted grows by one when the lookup constructs and stores an instance,
    and is unchanged when the lookup hits or the construction raises. *)
Theorem entries_are_accounted :
  forall (V : Type) TTL_SECONDS MAX_SIZE k (w : Cache.world (V := V)),
    List.NoDup (OD.keys (Cache.cache w)) ->
    (forall r w',
        Cache.get_cached TTL_SECONDS MAX_SIZE k Cache.load_instance w = (r, w') ->
        accounted w'
        = (accounted w
           + match r with Ok _ => Cache.loads w' - Cache.loads w | Raise _ => 0 end)%nat)
    /\ (forall r w',
        Cache.get_cached_or_none TTL_SECONDS MAX_SIZE k Cache.load_instance w = (r, w') ->
        accounted w'
        = (accounted w
           + match r with
             | Ok (Some _) => Cache.loads w' - Cache.loads w
             | _ => 0
             end)%nat).
Proof.
  intros V TTL MAX k w Hnd.
  pose proof (swept_accounted TTL k w Hnd) as Hswept.
  pose proof (swept_lookup TTL k w) as Habs.
  pose proof (swept_NoDup TTL k w Hnd) as Hnds.
  assert (Hhit : forall v t, fresh_hit TTL k w = Some (v, t) ->
            accounted (after_hit k (v, t) w) = accounted w
            /\ Cache.loads (after_hit k (v, t) w) = Cache.loads w).
  { intros v t Hf. split; [|reflexivity]. apply after_hit_accounted; [exact Hnd|].
    unfold fresh_hit in Hf. destruct (OD.lookup k (Cache.cache w)) as [[v0 t0]|]; [|discriminate].
    destruct (TTL <? _); [discriminate|]. now inversion Hf. }
  split; intros r w' H.
  - rewrite get_cached_spec in H by exact Hnd.
    destruct (fresh_hit TTL k w) as [[v t]|] eqn:Hf.
    + inversion H; subst. destruct (Hhit v t eq_refl) as [-> ->]. lia.
    + unfold bind, Cache.load_instance in H.
      destruct (Cache.loader (swept TTL k w) (Cache.loads (swept TTL k w))) as [v|e].
      * match type of H with Cache.store _ _ _ ?x = _ => set (w3 := x) in * end.
        pose proof (stored_accounted MAX k v w3 Hnds Habs) as Hst.
        pose proof (store_spec MAX k v w3) as Hsp.
        rewrite H in Hst, Hsp. simpl in Hst.
        assert (Hr : r = Ok v) by (now inversion Hsp).
        assert (Hl : Cache.loads w' = S (Cache.loads w)) by (inversion Hsp; reflexivity).
        rewrite Hr, Hl, Hst. change (accounted w3) with (accounted (swept TTL k w)).
        rewrite Hswept. lia.
      * inversion H; subst r w'.
        match goal with |- accounted ?x = _ => change (accounted x) with (accounted (swept TTL k w)) end.
        rewrite Hswept. lia.
  - rewrite get_cached_or_none_spec in H by exact Hnd.
    destruct (fresh_hit TTL k w) as [[v t]|] eqn:Hf.
    + inversion H; subst. destruct (Hhit v t eq_refl) as [-> ->]. lia.
    + unfold try_except_auth, bind, Cache.load_instance in H.
      destruct (Cache.loader (swept TTL k w) (Cache.loads (swept TTL k w))) as [v|e].
      * match type of H with
        | context [Cache.store _ _ _ ?x] => set (w3 := x) in *
        end.
        pose proof (stored_accounted MAX k v w3 Hnds Habs) as Hst.
        pose proof (store_spec MAX k v w3) as Hsp.
        rewrite Hsp in H, Hst. simpl in Hst. unfold ret in H.
        assert (Hr : r = Ok (Some v)) by (now inversion H).
        assert (Hl : Cache.loads w' = S (Cache.loads w)) by (inversion H; reflexivity).
        assert (Hw : accounted w' = S (accounted w3)) by (inversion H; exact Hst).
        rewrite Hr, Hl, Hw. change (accounted w3) with (accounted (swept TTL k w)).
        rewrite Hswept. lia.
      * assert (Hw : accounted w' = accounted (swept TTL k w))
          by (destruct e; inversion H; reflexivity).
        rewrite Hw, Hswept. destruct e; inversion H; lia.
Qed.

(** X3 on a full cache of one entry: the lookup of another key evicts the
    entry and stores the new one. *)
Lemma entries_are_accounted_witness :
  let w := Cache.World (V := nat) (fun n => Z.of_nat n) 0 (fun n => Ok n) 0
             [("a"%string, (7%nat, 0))] (Cache.Stats 0 0 0 0) in
  let w' := snd (Cache.get_cached 1800 1 "b" Cache.load_instance w) in
  List.NoDup (OD.keys (Cache.cache w))
  /\ fst (Cache.get_cached 1800 1 "b" Cache.load_instance w) = Ok 0%nat
  /\ OD.keys (Cache.cache w') = ["b"%string]
  /\ accounted w' = (accounted w + (Cache.loads w' - Cache.loads w))%nat.
Proof.
  intros w w'.
  assert (Hnd : List.NoDup (OD.keys (Cache.cache w))).
  { repeat constructor. intros []. }
  split; [exact Hnd|]. split; [reflexivity|]. split; [reflexivity|].
  exact (proj1 (entries_are_accounted nat 1800 1%nat "b"%string w Hnd) (Ok 0%nat) w' eq_refl).
Defined.

(** X4. The sweep never raises; it drops exactly the entries that are
    older than the TTL at its one clock reading, keeps the others in their
    order, adds the number dropped to the [expired] counter and leaves the
    other counters alone. *)
Theorem sweep_removes_expired :
  forall (V : Type) TTL_SECONDS (w : Cache.world (V := V)),
    List.NoDup (OD.keys (Cache.cache w)) ->
    let now := Cache.clock w (Cache.ticks w) in
    exists w',
      Cache.cleanup_expired TTL_SECONDS w = (Ok tt, w')
      /\ Cache.cache w' = fresh_entries TTL_SECONDS now (Cache.cache w)
      /\ (forall k v t, In (k, (v, t)) (Cache.cache w')
                        <-> In (k, (v, t)) (Cache.cache w) /\ now - t <= TTL_SECONDS)
      /\ (Cache.expired (Cache.cache_stats w') + length (Cache.cache w')
          = Cache.expired (Cache.cache_stats w) + length (Cache.cache w))%nat
      /\ Cache.hits (Cache.cache_stats w') = Cache.hits (Cache.cache_stats w)
      /\ Cache.misses (Cache.cache_stats w') = Cache.misses (Cache.cache_stats w)
      /\ Cache.evictions (Cache.cache_stats w') = Cache.evictions (Cache.cache_stats w)
      /\ Cache.loads w' = Cache.loads w.
Proof.
  intros V TTL w Hnd now. eexists. split; [apply cleanup_expired_spec, Hnd|].
  fold now. cbn [Cache.cache Cache.cache_stats Cache.loads].
  split; [reflexivity|]. split; [|split; [|repeat split]].
  - intros k v t. unfold fresh_entries. rewrite List.filter_In. simpl.
    rewrite negb_true_iff, Z.ltb_ge. reflexivity.
  - unfold add_expired. simpl.
    pose proof (List.filter_length_le
                  (fun p => negb (TTL <? now - snd (snd p))) (Cache.cache w)) as Hle.
    unfold fresh_entries. lia.
Qed.

(** X4 on a dict of one stale and one fresh entry. *)
Lemma sweep_removes_expired_witness :
  let w := Cache.World (V := nat) (fun _ => 2000) 0 (fun n => Ok n) 0
             [("old"%string, (1%nat, 0)); ("new"%string, (2%nat, 1500))]
             (Cache.Stats 0 0 0 0) in
  List.NoDup (OD.keys (Cache.cache w))
  /\ exists w',
       Cache.cleanup_expired 1800 w = (Ok tt, w')
       /\ Cache.cache w' = [("new"%string, (2%nat, 1500))]
       /\ Cache.expired (Cache.cache_stats w') = 1%nat.
Proof.
  intros w.
  assert (Hnd : List.NoDup (OD.keys (Cache.cache w))).
  { repeat constructor; simpl; intuition discriminate. }
  split; [exact Hnd|].
  destruct (sweep_removes_expired nat 1800 w Hnd) as (w' & Hrun & Hc & _ & Hexp & _).
  exists w'. split; [exact Hrun|]. split; [exact Hc|].
  rewrite Hc in Hexp. simpl in Hexp. lia.
Defined.

(** X5. After [Vector.clear_cache] both dicts are empty and the counters
    are as they were; the lookup of the embedding model that follows is a
    miss whatever was cached before: it constructs, returns what the model
    manager gives, and counts one miss and no hit, expiry or eviction. *)
Theorem clear_cache_forces_construction :
  forall (CacheEmbedding BaseVector : Type)
         (s : Vector.state (CacheEmbedding := CacheEmbedding) (BaseVector := BaseVector))
         dataset,
    let s1 := snd (Vector.clear_cache s) in
    let e := Vector.embedding s in
    let r := Vector._get_embeddings dataset s1 in
    let e' := Vector.embedding (snd r) in
    fst (Vector.clear_cache s) = Ok tt
    /\ Cache.cache (Vector.embedding s1) = []
    /\ Cache.cache (Vector.processor s1) = []
    /\ Cache.cache_stats (Vector.embedding s1) = Cache.cache_stats e
    /\ Cache.cache_stats (Vector.processor s1) = Cache.cache_stats (Vector.processor s)
    /\ fst r = Cache.loader e (Cache.loads e)
    /\ Cache.loads e' = S (Cache.loads e)
    /\ Cache.cache_stats e'
       = Cache.Stats (Cache.hits (Cache.cache_stats e)) (S (Cache.misses (Cache.cache_stats e)))
           (Cache.evictions (Cache.cache_stats e)) (Cache.expired (Cache.cache_stats e))
    /\ (length (Cache.cache e') <= 1)%nat.
Proof.
  intros CE BV s dataset s1 e r e'.
  repeat (split; [reflexivity|]).
  unfold e', r, s1, Vector._get_embeddings, Vector.on_embedding, zoom.
  set (key := Vector._generate_embedding_cache_key _ _ _).
  change (Vector.embedding (snd (Vector.clear_cache s)))
    with (Cache.World (Cache.clock e) (Cache.ticks e) (Cache.loader e) (Cache.loads e) []
            (Cache.cache_stats e)).
  rewrite get_cached_spec by constructor.
  unfold fresh_hit, swept, bind, Cache.load_instance. simpl.
  destruct (Cache.loader e (Cache.loads e)) as [v|err];
    simpl; repeat split; try reflexivity; lia.
Qed.

(** X6. An error of the model manager that is not the authorization error
    is not caught.  In the reranking-model mode the constructor of the
    post-processor raises it, so no post-processor is built; the weighted
    runner's embedding lookup raises it too.  In both cases the miss is
    counted, no entry is left under the key, and the next lookup of the key
    constructs again. *)
Theorem load_error_propagates :
  (forall (ModelInstance : Type) tenant_id weights reorder_enabled
          (w : Cache.world (V := ModelInstance)) d provider model e,
      d !! "reranking_provider_name"%string = Some provider -> provider <> ""%string ->
      d !! "reranking_model_name"%string = Some model -> model <> ""%string ->
      let key := DataPostProcessor._generate_rerank_model_cache_key tenant_id provider model in
      List.NoDup (OD.keys (Cache.cache w)) ->
      fresh_hit 1800 key w = None ->
      Cache.loader w (Cache.loads w) = Raise e ->
      e <> InvokeAuthorizationError ->
      exists w',
        DataPostProcessor.__init__ tenant_id DataPostProcessor.RERANKING_MODEL (Some d)
          weights reorder_enabled w = (Raise e, w')
        /\ OD.lookup key (Cache.cache w') = None
        /\ Cache.misses (Cache.cache_stats w') = S (Cache.misses (Cache.cache_stats w))
        /\ Cache.loads w' = S (Cache.loads w)
        /\ fresh_hit 1800 key w' = None)
  /\ (forall (CacheEmbedding : Type)
             (s : WeightRerankRunner.state (CacheEmbedding := CacheEmbedding))
             tenant_id provider model e,
      let key := WeightRerankRunner._generate_embedding_cache_key tenant_id provider model in
      let c := WeightRerankRunner.embedding_cache s in
      List.NoDup (OD.keys (Cache.cache c)) ->
      fresh_hit 1800 key c = None ->
      Cache.loader c (Cache.loads c) = Raise e ->
      exists s',
        WeightRerankRunner._get_cached_embedding_model tenant_id provider model s = (Raise e, s')
        /\ OD.lookup key (Cache.cache (WeightRerankRunner.embedding_cache s')) = None
        /\ Cache.misses (Cache.cache_stats (WeightRerankRunner.embedding_cache s'))
           = S (Cache.misses (Cache.cache_stats c))
        /\ Cache.loads (WeightRerankRunner.embedding_cache s') = S (Cache.loads c)
        /\ WeightRerankRunner.docs_heap s' = WeightRerankRunner.docs_heap s).
Proof.
  split.
  - intros MI tenant_id weights reorder_enabled w d provider model e
      Hp Hpne Hm Hmne key Hnd Hmiss Hload Hne.
    exists (failed_load 1800 key w).
    assert (Hget :
      DataPostProcessor._get_rerank_model_instance tenant_id (Some d) w
      = (Raise e, failed_load 1800 key w)).
    { unfold DataPostProcessor._get_rerank_model_instance.
      destruct (decide (d = ∅)) as [->|_]; [rewrite lookup_empty in Hp; discriminate|].
      rewrite Hp, Hm. simpl.
      apply String.eqb_neq in Hpne, Hmne. rewrite Hpne, Hmne. simpl.
      fold key. change DataPostProcessor._RERANK_MODEL_CACHE_TTL_SECONDS with 1800.
      rewrite get_cached_or_none_spec by exact Hnd. rewrite Hmiss.
      unfold try_except_auth, bind, Cache.load_instance.
      change (Cache.loader (swept 1800 key w) (Cache.loads (swept 1800 key w)))
        with (Cache.loader w (Cache.loads w)).
      rewrite Hload. destruct e; try reflexivity. contradiction. }
    split.
    + unfold DataPostProcessor.__init__, DataPostProcessor._get_rerank_runner.
      change (String.eqb DataPostProcessor.RERANKING_MODEL DataPostProcessor.WEIGHTED_SCORE)
        with false.
      change (String.eqb DataPostProcessor.RERANKING_MODEL DataPostProcessor.RERANKING_MODEL)
        with true.
      cbv iota. unfold bind at 1 2. rewrite Hget. reflexivity.
    + split; [apply swept_lookup|]. split; [reflexivity|]. split; [reflexivity|].
      apply fresh_hit_absent. apply swept_lookup.
  - intros CE s tenant_id provider model e key c Hnd Hmiss Hload.
    exists (WeightRerankRunner.State (WeightRerankRunner.docs_heap s) (failed_load 1800 key c)).
    unfold WeightRerankRunner._get_cached_embedding_model, WeightRerankRunner.on_cache, zoom.
    fold key. fold c.
    change WeightRerankRunner._EMBEDDING_CACHE_TTL_SECONDS with 1800.
    rewrite (load_raises 1800 WeightRerankRunner._EMBEDDING_CACHE_MAX_SIZE key c e Hnd Hmiss Hload).
    cbn [WeightRerankRunner.embedding_cache WeightRerankRunner.docs_heap].
    split; [reflexivity|]. split; [apply swept_lookup|]. repeat split.
Qed.

(** X6 for a model manager that cannot reach the provider. *)
Lemma load_error_propagates_witness :
  let w := Cache.initial (V := nat) (fun n => Z.of_nat n)
             (fun _ => Raise (OtherError "ConnectionError")) in
  let key :=
    DataPostProcessor._generate_rerank_model_cache_key "tenant1" "cohere" "rerank-english-v2.0" in
  exists w',
    DataPostProcessor.__init__ "tenant1" DataPostProcessor.RERANKING_MODEL (Some cohere_model)
      None false w = (Raise (OtherError "ConnectionError"), w')
    /\ OD.lookup key (Cache.cache w') = None
    /\ Cache.misses (Cache.cache_stats w') = 1%nat
    /\ Cache.loads w' = 1%nat.
Proof.
  intros w key.
  destruct (proj1 load_error_propagates nat "tenant1"%string None false w cohere_model
              "cohere"%string "rerank-english-v2.0"%string (OtherError "ConnectionError"))
    as (w' & Hnew & Habs & Hm & Hl & _);
    [reflexivity | discriminate | reflexivity | discriminate | constructor
     | reflexivity | reflexivity | discriminate |].
  exists w'. auto.
Defined.

(** * Further properties of the lookups under contention *)

Section LockDiscipline.
Context {V : Type}.
Variable TTL_SECONDS : Z.
Variable MAX_SIZE : nat.
Variable catch_auth : bool.

Hypothesis max_positive : (1 <= MAX_SIZE)%nat.

Local Abbreviation pc := (Concurrent.pc (V := V)).
Local Abbreviation sys := (Concurrent.sys (V := V)).
Local Abbreviation step := (Concurrent.step (V := V) TTL_SECONDS MAX_SIZE catch_auth).

(** Threads that start lookups, each of its own key. *)
Definition start_all (keys : list string) (w : Cache.world (V := V)) : sys :=
  Concurrent.Sys w None (map (fun key => (key, Concurrent.PStart)) keys).

(** The thread about to store has room for its entry. *)
Definition room_to_store (p : pc) (w : Cache.world (V := V)) : Prop :=
  match p with
  | Concurrent.PStore _ => (length (Cache.cache w) < MAX_SIZE)%nat
  | _ => True
  end.

(** One step of thread [me]: it is inside [with lock:] exactly when it
    holds the lock, before and after; it changes the dict only while it
    holds the lock; and the dict stays within its bound. *)
Lemma step_discipline me key p l w p' l' w' :
  step me key p l w = Some (p', l', w') ->
  (holds p = true <-> l = Some me) ->
  (length (Cache.cache w) <= MAX_SIZE)%nat ->
  room_to_store p w ->
  (holds p' = true <-> l' = Some me)
  /\ lock_change me l l'
  /\ (holds p = false -> Cache.cache w' = Cache.cache w)
  /\ (length (Cache.cache w') <= MAX_SIZE)%nat
  /\ room_to_store p' w'.
Proof using max_positive.
  intros Hstep Hl Hlen Hroom.
  destruct w as [clk n ldr nl c st].
  assert (Hfree : l <> Some me -> (false = true <-> l = Some me))
    by (intros Hne; split; [discriminate | contradiction]).
  unfold lock_change.
  assert (Hrem : forall k0, (length (OD.remove k0 c) <= length c)%nat)
    by (intros; apply od_remove_length).
  assert (Hend : forall k0 e e', OD.lookup k0 c = Some e' ->
            (length (OD.to_end k0 e c) <= length c)%nat).
  { intros k0 e e' Hk. apply od_to_end_length. unfold OD.mem. now rewrite Hk. }
  assert (Hset : forall k0 e c0, (length (OD.set (E := V * Z) k0 e c0) <= S (length c0))%nat).
  { intros k0 e c0. rewrite od_set_length. destruct (OD.mem k0 c0); lia. }
  cbn [Cache.cache] in Hlen.
  destruct p; simpl in Hl, Hroom;
    unfold Concurrent.step, Concurrent.next, Concurrent.acquire, Cache.contains,
      Cache.getitem, Cache.is_cache_expired, Cache.move_to_end, Cache.getitem, Cache.delitem,
      Cache.contains, Cache.incr_hits, Cache.incr_expired, Cache.incr_misses,
      Cache.time_time, Cache.load_instance, Cache.evict_lru, Cache.popitem_first,
      Cache.incr_evictions, Cache.setitem, bind, gets, modify, ret, raise, OD.mem in Hstep;
    cbn [Cache.cache Cache.clock Cache.ticks Cache.loader Cache.loads Cache.cache_stats
         Cache.set_cache Cache.set_stats fst snd] in Hstep;
    repeat (match type of Hstep with
            | context [OD.lookup ?k0 ?c0] => destruct (OD.lookup k0 c0) eqn:?
            | context [ldr ?i] => destruct (ldr i) eqn:?
            | context [Nat.leb ?a ?b] => destruct (Nat.leb a b) eqn:?
            | context [Z.ltb ?a ?b] => destruct (Z.ltb a b) eqn:?
            | context [match ?x with _ => _ end] => is_var x; destruct x eqn:?
            | context [match ?x with _ => _ end] => destruct x eqn:?
            end;
            cbn [Cache.cache Cache.clock Cache.ticks Cache.loader Cache.loads Cache.cache_stats
                 Cache.set_cache Cache.set_stats fst snd negb] in Hstep);
    try discriminate Hstep;
    inversion Hstep; subst; clear Hstep;
    cbn [Cache.cache Cache.set_cache Cache.set_stats holds room_to_store length];
    (split; [|split; [|split; [|split]]]);
    try (intros; discriminate);
    try reflexivity;
    try tauto;
    try exact I;
    try (split; intros; discriminate);
    try lia;
    try (pose proof (Hrem key); lia);
    try (match goal with H : OD.lookup _ _ = Some _ |- _ => pose proof (Hend _ p _ H); lia end);
    try (match goal with |- context [OD.remove ?k0 _] => pose proof (Hrem k0); lia end);
    try (match goal with |- context [OD.set ?k0 ?e ?c0] => pose proof (Hset k0 e c0); lia end);
    try (apply Nat.leb_gt; assumption);
    try (simpl in *; lia).
Qed.

(** What every state of a race satisfies. *)
Definition discipline (s : sys) : Prop :=
  (forall i key p, Concurrent.threads s !! i = Some (key, p) ->
     (holds p = true <-> Concurrent.lock s = Some i))
  /\ (forall i, Concurrent.lock s = Some i ->
        exists key p, Concurrent.threads s !! i = Some (key, p))
  /\ (length (Cache.cache (Concurrent.shared s)) <= MAX_SIZE)%nat
  /\ (forall i key p, Concurrent.threads s !! i = Some (key, p) ->
        room_to_store p (Concurrent.shared s)).

Lemma discipline_start keys w :
  (length (Cache.cache w) <= MAX_SIZE)%nat -> discipline (start_all keys w).
Proof.
  intros Hlen. unfold discipline, start_all. simpl.
  assert (Hstart : forall i key p,
            map (fun key => (key, Concurrent.PStart (V := V))) keys !! i = Some (key, p) ->
            p = Concurrent.PStart).
  { intros i key p H. rewrite list_lookup_fmap in H.
    destruct (keys !! i); simpl in H; [|discriminate]. now inversion H. }
  split; [|split; [|split]].
  - intros i key p H. apply Hstart in H. subst p. simpl. split; discriminate.
  - intros i H. discriminate.
  - exact Hlen.
  - intros i key p H. apply Hstart in H. subst p. exact I.
Qed.

Lemma discipline_step i s :
  discipline s -> discipline (Concurrent.sys_step TTL_SECONDS MAX_SIZE catch_auth i s).
Proof using max_positive.
  intros (Hth & Hlk & Hlen & Hroom). unfold Concurrent.sys_step.
  destruct (Concurrent.threads s !! i) as [[key p]|] eqn:Hi; [|exact (conj Hth (conj Hlk (conj Hlen Hroom)))].
  destruct (step i key p (Concurrent.lock s) (Concurrent.shared s)) as [[[p' l'] w']|] eqn:Hstep;
    [|exact (conj Hth (conj Hlk (conj Hlen Hroom)))].
  destruct (step_discipline i key p _ _ p' l' w' Hstep (Hth i key p Hi) Hlen (Hroom i key p Hi))
    as (Hp' & Hchange & Hframe & Hlen' & Hroom').
  assert (Hbound : (i < length (Concurrent.threads s))%nat)
    by (apply lookup_lt_is_Some; eauto).
  assert (Hother : forall j kj pj, j <> i ->
            Concurrent.threads s !! j = Some (kj, pj) ->
            (holds pj = true <-> l' = Some j) /\ room_to_store pj w').
  { intros j kj pj Hne Hj. pose proof (Hth j kj pj Hj) as Hlj.
    assert (Hnot : holds p = true -> holds pj = false).
    { intros Hp. apply (Hth i key p Hi) in Hp. destruct (holds pj) eqn:Hpj; [|reflexivity].
      assert (Some i = Some j) by (rewrite <- Hp; now apply Hlj). congruence. }
    split.
    - destruct Hchange as [->|[[Hl ->]|[Hl ->]]]; [exact Hlj| |].
      + rewrite Hl in Hlj. split; [intros H; apply Hlj in H; discriminate | congruence].
      + rewrite Hl in Hlj. split; [intros H; apply Hlj in H; congruence | discriminate].
    - destruct pj; try exact I. simpl.
      destruct (holds p) eqn:Hp; [specialize (Hnot eq_refl); discriminate|].
      rewrite (Hframe eq_refl). apply (Hroom j kj _ Hj). }
  unfold discipline. simpl. split; [|split; [|split]].
  - intros j kj pj Hj. destruct (decide (j = i)) as [->|Hne].
    + rewrite list_lookup_insert_eq in Hj by exact Hbound. inversion Hj; subst. exact Hp'.
    + rewrite list_lookup_insert_ne in Hj by congruence. now apply (Hother j kj pj).
  - intros j Hj. destruct (decide (j = i)) as [->|Hne].
    + rewrite list_lookup_insert_eq by exact Hbound. eauto.
    + rewrite list_lookup_insert_ne by congruence. apply Hlk.
      destruct Hchange as [->|[[_ ->]|[_ ->]]]; [exact Hj | congruence | discriminate].
  - exact Hlen'.
  - intros j kj pj Hj. destruct (decide (j = i)) as [->|Hne].
    + rewrite list_lookup_insert_eq in Hj by exact Hbound. inversion Hj; subst. exact Hroom'.
    + rewrite list_lookup_insert_ne in Hj by congruence. now apply (Hother j kj pj).
Qed.

Lemma discipline_run schedule s :
  discipline s -> discipline (Concurrent.run TTL_SECONDS MAX_SIZE catch_auth schedule s).
Proof using max_positive.
  revert s. induction schedule as [|i schedule IH]; intros s H; simpl; [exact H|].
  apply IH, discipline_step, H.
Qed.

End LockDiscipline.

(** X9. However the lookups of any number of threads are interleaved, the
    dict never holds more than its maximum of entries, at most one thread is
    inside a [with lock:] block, that thread is the holder of the lock, and
    when every thread has finished the lock is free. *)
Theorem bounded_size_on_every_schedule :
  forall (V : Type) TTL_SECONDS MAX_SIZE catch_auth keys (w : Cache.world (V := V)) schedule,
    (1 <= MAX_SIZE)%nat ->
    (length (Cache.cache w) <= MAX_SIZE)%nat ->
    let s := Concurrent.run TTL_SECONDS MAX_SIZE catch_auth schedule (start_all keys w) in
    (length (Cache.cache (Concurrent.shared s)) <= MAX_SIZE)%nat
    /\ (forall i j ki kj pi pj,
          Concurrent.threads s !! i = Some (ki, pi) ->
          Concurrent.threads s !! j = Some (kj, pj) ->
          holds pi = true -> holds pj = true -> i = j)
    /\ (forall i key p,
          Concurrent.threads s !! i = Some (key, p) ->
          (holds p = true <-> Concurrent.lock s = Some i))
    /\ ((forall i key p, Concurrent.threads s !! i = Some (key, p) ->
                         exists r, p = Concurrent.PDone r) ->
        Concurrent.lock s = None).
Proof.
  intros V TTL MAX catch_auth keys w schedule Hmax Hlen s.
  destruct (discipline_run TTL MAX catch_auth Hmax schedule _ (discipline_start MAX keys w Hlen))
    as (Hth & Hlk & Hsize & _).
  fold s in Hth, Hlk, Hsize.
  split; [exact Hsize|]. split; [|split; [exact Hth|]].
  - intros i j ki kj pi pj Hi Hj Hpi Hpj.
    apply (Hth i ki pi Hi) in Hpi. apply (Hth j kj pj Hj) in Hpj. congruence.
  - intros Hdone. destruct (Concurrent.lock s) as [i|] eqn:Hl; [|reflexivity].
    destruct (Hlk i eq_refl) as (key & p & Hi).
    destruct (Hdone i key p Hi) as [r ->].
    pose proof (proj2 (Hth i key _ Hi) eq_refl) as Hheld. discriminate Hheld.
Qed.

(** X9 for three threads on a cache of two entries. *)
Lemma bounded_size_on_every_schedule_witness :
  let w := Cache.initial (V := nat) (fun n => Z.of_nat n) (fun n => Ok n) in
  let s := Concurrent.run 1800 2 false
             ([0; 1; 2; 0; 1; 2; 2; 2; 1; 0] ++ repeat 0 12 ++ repeat 1 12 ++ repeat 2 12)%nat
             (start_all ["a"; "b"; "c"]%string w) in
  (length (Cache.cache (Concurrent.shared s)) <= 2)%nat
  /\ Concurrent.lock s = None
  /\ Cache.loads (Concurrent.shared s) = 3%nat.
Proof.
  intros w s.
  destruct (bounded_size_on_every_schedule nat 1800 2%nat false ["a"; "b"; "c"]%string w
              ([0; 1; 2; 0; 1; 2; 2; 2; 1; 0] ++ repeat 0 12 ++ repeat 1 12 ++ repeat 2 12)%nat)
    as (Hsize & _ & _ & Hfree); [lia | simpl; lia |].
  split; [exact Hsize|]. split; [|reflexivity].
  apply Hfree. intros i key p Hi.
  destruct i as [|[|[|i]]]; vm_compute in Hi; inversion Hi; eauto.
Defined.

(** * Further properties of the runners *)

(** ** [RerankModelRunner.run] *)

Section RerankModelRun.
Context {ModelInstance : Type}.
Variable invoke_rerank :
  ModelInstance -> string -> list string -> option Q -> option Z -> option string ->
  result (list RerankModelRunner.RerankDocument).
Variable new_document : string -> option loc -> string -> heap -> Document * heap.

Local Abbreviation collect := (RerankModelRunner.collect new_document).
Local Abbreviation run := (RerankModelRunner.run invoke_rerank new_document).

(** The threshold test [score_threshold is None or result.score >= score_threshold]. *)
Definition passes (score_threshold : option Q) (r : RerankModelRunner.RerankDocument) : bool :=
  match score_threshold with
  | None => true
  | Some t => Qle_bool t (RerankModelRunner.score r)
  end.

(** [i] is an index of a list of length [n], counted from either end. *)
Definition in_range (n : nat) (i : Z) : Prop := - Z.of_nat n <= i < Z.of_nat n.

(** The float under ["score"] in the metadata of [d], zero without one. *)
Definition score_of (h : heap) (d : Document) : pyfloat :=
  match metadata d with
  | Some l => match h l !! "score"%string with Some (PyFloat x) => x | _ => Num 0 end
  | None => Num 0
  end.

(** [d] is what the constructor gives, in some heap, for the result [r]
    and the document [src] the result points at. *)
Definition built_from (r : RerankModelRunner.RerankDocument) (src d : Document) : Prop :=
  exists h0,
    d = fst (new_document (RerankModelRunner.text r) (metadata src) (provider src) h0).

Lemma index_inv {S A} (xs : list A) (i : Z) (s : S) x s' :
  index xs i s = (Ok x, s') -> s' = s /\ In x xs /\ in_range (length xs) i.
Proof.
  unfold index, in_range.
  destruct (0 <=? i) eqn:Hi.
  - rewrite Hi. destruct (nth_error xs (Z.to_nat i)) as [y|] eqn:Hn; intros H; inversion H; subst.
    split; [reflexivity|]. split; [eapply nth_error_In, Hn|].
    apply Z.leb_le in Hi. assert (Z.to_nat i < length xs)%nat by (apply nth_error_Some; congruence).
    lia.
  - destruct (0 <=? Z.of_nat (length xs) + i) eqn:Hj; [|intros H; inversion H].
    destruct (nth_error xs (Z.to_nat (Z.of_nat (length xs) + i))) as [y|] eqn:Hn;
      intros H; inversion H; subst.
    split; [reflexivity|]. split; [eapply nth_error_In, Hn|].
    apply Z.leb_le in Hj. apply Z.leb_gt in Hi. lia.
Qed.

Lemma index_out_of_range {S A} (xs : list A) (i : Z) (s : S) :
  ~ in_range (length xs) i -> index xs i s = (Raise IndexError, s).
Proof.
  unfold index, in_range. intros Hout.
  destruct (0 <=? i) eqn:Hi.
  - rewrite Hi. apply Z.leb_le in Hi.
    destruct (nth_error xs (Z.to_nat i)) as [y|] eqn:Hn; [|reflexivity].
    assert (Z.to_nat i < length xs)%nat by (apply nth_error_Some; congruence). lia.
  - apply Z.leb_gt in Hi.
    destruct (0 <=? Z.of_nat (length xs) + i) eqn:Hj; [|reflexivity].
    apply Z.leb_le in Hj. lia.
Qed.

Lemma index_raises {S A} (xs : list A) (i : Z) (s : S) e s' :
  index xs i s = (Raise e, s') -> e = IndexError /\ s' = s.
Proof.
  unfold index. destruct (0 <=? _); [|intros H; now inversion H].
  destruct (nth_error _ _); intros H; now inversion H.
Qed.

(** What [xs[i]] gives does not depend on the heap. *)
Lemma index_any_heap {A} (xs : list A) (i : Z) (h1 h2 : heap) :
  fst (index xs i h1) = fst (index xs i h2).
Proof.
  unfold index. destruct (0 <=? _); [|reflexivity]. now destruct (nth_error _ _).
Qed.

(** One turn of the loop for a result that passes the threshold and points
    at [src]: the new document and the heap after the turn. *)
Definition turn (r : RerankModelRunner.RerankDocument) (src : Document) (h : heap)
  : Document * heap :=
  let built := new_document (RerankModelRunner.text r) (metadata src) (provider src) h in
  (fst built,
   match metadata (fst built) with
   | Some l => dict_set l "score" (PyFloat (Num (RerankModelRunner.score r))) (snd built)
   | None => snd built
   end).

Lemma collect_turn documents score_threshold r rest h src :
  passes score_threshold r = true ->
  index documents (RerankModelRunner.index_ r) h = (Ok src, h) ->
  collect documents score_threshold (r :: rest) h
  = let '(d, h1) := turn r src h in
    match collect documents score_threshold rest h1 with
    | (Ok kept, h2) => (Ok (if has_metadata d then d :: kept else kept), h2)
    | (Raise e, h2) => (Raise e, h2)
    end.
Proof.
  intros Hpass Hidx. cbn [RerankModelRunner.collect].
  fold (passes score_threshold r). rewrite Hpass.
  unfold bind at 1. rewrite Hidx.
  unfold bind at 1, RerankModelRunner.construct, turn, has_metadata. cbn [fst snd].
  destruct (metadata (fst (new_document _ _ _ h))) as [l|].
  - unfold bind at 1, modify. unfold bind at 1.
    now destruct (RerankModelRunner.collect _ _ _ _ _) as [[kept|e] h2].
  - now destruct (RerankModelRunner.collect _ _ _ _ _) as [[kept|e] h2].
Qed.

(** What the loop over the results has done when it ends without raising:
    every document it kept was built for a result that passes the
    threshold, from the document the result points at, and has metadata. *)
Lemma collect_inv documents score_threshold results h kept h' :
  collect documents score_threshold results h = (Ok kept, h') ->
  Forall (fun d => exists r src,
            In r results /\ passes score_threshold r = true /\ In src documents
            /\ fst (index documents (RerankModelRunner.index_ r) h) = Ok src
            /\ built_from r src d /\ metadata d <> None) kept.
Proof.
  revert h kept. induction results as [|r rest IH]; intros h kept H.
  - simpl in H. inversion H; subst. constructor.
  - assert (Hlater : forall h1 kept1,
              collect documents score_threshold rest h1 = (Ok kept1, h') ->
              Forall (fun d => exists r0 src,
                        In r0 (r :: rest) /\ passes score_threshold r0 = true
                        /\ In src documents
                        /\ fst (index documents (RerankModelRunner.index_ r0) h) = Ok src
                        /\ built_from r0 src d /\ metadata d <> None) kept1).
    { intros h1 kept1 Hrest. eapply List.Forall_impl; [|exact (IH _ _ Hrest)].
      intros d (r0 & src & Hr0 & Hp & Hsrc & Hidx & Hb & Hm). exists r0, src.
      split; [now right|]. split; [exact Hp|]. split; [exact Hsrc|].
      split; [now rewrite (index_any_heap documents _ h h1)|]. auto. }
    destruct (passes score_threshold r) eqn:Hpass.
    + destruct (index documents (RerankModelRunner.index_ r) h) as [[src|e] h0] eqn:Hidx.
      * pose proof Hidx as Hidx'. apply index_inv in Hidx' as (-> & Hsrc & _).
        rewrite (collect_turn _ _ _ _ _ src Hpass Hidx) in H.
        destruct (turn r src h) as [d h1] eqn:Hturn.
        destruct (collect documents score_threshold rest h1) as [[kept1|e] h2] eqn:Hrest;
          inversion H; subst. clear H.
        specialize (Hlater _ _ Hrest).
        unfold has_metadata. destruct (metadata d) as [l|] eqn:Hm; [|exact Hlater].
        constructor; [|exact Hlater].
        exists r, src. split; [now left|]. split; [exact Hpass|]. split; [exact Hsrc|].
        split; [now rewrite Hidx|]. split; [|congruence].
        exists h. unfold turn in Hturn. now inversion Hturn.
      * cbn [RerankModelRunner.collect] in H. fold (passes score_threshold r) in H.
        rewrite Hpass in H. unfold bind at 1 in H. rewrite Hidx in H. discriminate.
    + cbn [RerankModelRunner.collect] in H. fold (passes score_threshold r) in H.
      rewrite Hpass in H. exact (Hlater _ _ H).
Qed.

(** No result that passes the threshold is lost by the loop, unless the
    document built for it has no metadata. *)
Lemma collect_complete documents score_threshold results h kept h' :
  collect documents score_threshold results h = (Ok kept, h') ->
  forall r, In r results -> passes score_threshold r = true ->
    exists src d,
      fst (index documents (RerankModelRunner.index_ r) h) = Ok src
      /\ built_from r src d
      /\ (metadata d <> None -> In d kept).
Proof.
  revert h kept. induction results as [|r0 rest IH]; intros h kept H r Hr Hpass; [destruct Hr|].
  assert (Hlater : forall h1 kept1,
            collect documents score_threshold rest h1 = (Ok kept1, h') ->
            In r rest ->
            exists src d,
              fst (index documents (RerankModelRunner.index_ r) h) = Ok src
              /\ built_from r src d /\ (metadata d <> None -> In d kept1)).
  { intros h1 kept1 Hrest Hin.
    destruct (IH _ _ Hrest r Hin Hpass) as (src & d & Hidx & Hb & Hd).
    exists src, d. split; [now rewrite (index_any_heap documents _ h h1)|]. auto. }
  destruct (passes score_threshold r0) eqn:Hpass0.
  - destruct (index documents (RerankModelRunner.index_ r0) h) as [[src|e] h0] eqn:Hidx.
    + pose proof Hidx as Hidx'. apply index_inv in Hidx' as (-> & _ & _).
      rewrite (collect_turn _ _ _ _ _ src Hpass0 Hidx) in H.
      destruct (turn r0 src h) as [d h1] eqn:Hturn.
      destruct (collect documents score_threshold rest h1) as [[kept1|e] h2] eqn:Hrest;
        inversion H; subst. clear H.
      destruct Hr as [->|Hr].
      * exists src, d. split; [now rewrite Hidx|]. split.
        -- exists h. unfold turn in Hturn. now inversion Hturn.
        -- intros Hm. unfold has_metadata. destruct (metadata d); [now left | congruence].
      * destruct (Hlater _ _ Hrest Hr) as (src' & d' & Hidx' & Hb & Hd).
        exists src', d'. split; [exact Hidx'|]. split; [exact Hb|].
        intros Hm. destruct (has_metadata d); [right|]; now apply Hd.
    + cbn [RerankModelRunner.collect] in H. fold (passes score_threshold r0) in H.
      rewrite Hpass0 in H. unfold bind at 1 in H. rewrite Hidx in H. discriminate.
  - cbn [RerankModelRunner.collect] in H. fold (passes score_threshold r0) in H.
    rewrite Hpass0 in H. destruct Hr as [->|Hr]; [congruence|]. exact (Hlater _ _ H Hr).
Qed.

(** The loop keeps at most one document for each result that passes. *)
Lemma collect_length documents score_threshold results h kept h' :
  collect documents score_threshold results h = (Ok kept, h') ->
  (length kept <= length (List.filter (passes score_threshold) results))%nat.
Proof.
  revert h kept. induction results as [|r rest IH]; intros h kept H.
  - simpl in H. inversion H; subst. simpl. lia.
  - simpl List.filter. destruct (passes score_threshold r) eqn:Hpass.
    + destruct (index documents (RerankModelRunner.index_ r) h) as [[src|e] h0] eqn:Hidx.
      * pose proof Hidx as Hidx'. apply index_inv in Hidx' as (-> & _ & _).
        rewrite (collect_turn _ _ _ _ _ src Hpass Hidx) in H.
        destruct (turn r src h) as [d h1].
        destruct (collect documents score_threshold rest h1) as [[kept1|e] h2] eqn:Hrest;
          inversion H; subst. clear H.
        specialize (IH _ _ Hrest). destruct (has_metadata d); simpl; lia.
      * cbn [RerankModelRunner.collect] in H. fold (passes score_threshold r) in H.
        rewrite Hpass in H. unfold bind at 1 in H. rewrite Hidx in H. discriminate.
    + cbn [RerankModelRunner.collect] in H. fold (passes score_threshold r) in H.
      rewrite Hpass in H. exact (IH _ _ H).
Qed.

Lemma rerank_sort_key_state x (h : heap) : snd (RerankModelRunner.sort_key x h) = h.
Proof.
  unfold RerankModelRunner.sort_key, bind, gets.
  destruct (metadata x) as [l|]; [|reflexivity].
  now destruct (h l !! "score"%string) as [[]|].
Qed.

(** The key of a document, when it has one, is its score. *)
Lemma rerank_sort_key_score x (h : heap) k :
  fst (RerankModelRunner.sort_key x h) = Ok k -> k = score_of h x.
Proof.
  unfold RerankModelRunner.sort_key, score_of, bind, gets. simpl.
  destruct (metadata x) as [l|]; [|discriminate].
  destruct (h l !! "score"%string) as [[y| |]|]; simpl; intros H; now inversion H.
Qed.

Lemma rerank_keyed (h : heap) docs (keyed : list (pyfloat * Document)) :
  map_m (fun x => k <- RerankModelRunner.sort_key x;; ret (k, x)) docs h = (Ok keyed, h) ->
  keyed = map (fun d => (score_of h d, d)) docs.
Proof.
  revert keyed. induction docs as [|d docs IH]; intros keyed H; simpl in H.
  - now inversion H.
  - pose proof (rerank_sort_key_score d h) as Hk.
    pose proof (rerank_sort_key_state d h) as Hs.
    unfold bind at 1 2 in H.
    destruct (RerankModelRunner.sort_key d h) as [[k|e] h1]; simpl in Hk, Hs; [|discriminate].
    subst h1. rewrite (Hk k eq_refl) in H. unfold ret at 1 in H.
    apply bind_inv_ok in H as (keyed' & h2 & Hrest & H). inversion H; subst.
    simpl. f_equal. now apply IH.
Qed.

(** What a run that returns has done. *)
Lemma rerank_run_inv inst query documents score_threshold top_n user h out h' :
  run inst query documents score_threshold top_n user h = (Ok out, h') ->
  exists results kept,
    invoke_rerank inst query (map page_content documents) score_threshold top_n user = Ok results
    /\ collect documents score_threshold results h = (Ok kept, h')
    /\ out = top top_n (map snd (sort_desc (map (fun d => (score_of h' d, d)) kept))).
Proof.
  intros H. unfold RerankModelRunner.run in H.
  apply bind_inv_ok in H as (results & h0 & Hinv & H).
  destruct (invoke_rerank inst query (map page_content documents) score_threshold top_n user)
    as [results0|e] eqn:Hcall; inversion Hinv; subst results0 h0. clear Hinv.
  apply bind_inv_ok in H as (kept & h1 & Hcol & H).
  apply bind_inv_ok in H as (keyed & h2 & Hkeyed & H).
  assert (h2 = h1) as ->.
  { pose proof (map_m_readonly_state
                  (fun x => k <- RerankModelRunner.sort_key x;; ret (k, x)) kept h1) as Hro.
    rewrite Hkeyed in Hro. simpl in Hro. apply Hro. intros x s. unfold bind.
    pose proof (rerank_sort_key_state x s) as Hs.
    now destruct (RerankModelRunner.sort_key x s) as [[k|e] s1]. }
  inversion H; subst. clear H.
  exists results, kept. split; [reflexivity|]. split; [exact Hcol|].
  now rewrite (rerank_keyed h' kept keyed Hkeyed).
Qed.

(** A result that passes the threshold and points outside the documents
    makes the loop raise [IndexError]. *)
Lemma collect_index_error documents score_threshold results h r :
  In r results -> passes score_threshold r = true ->
  ~ in_range (length documents) (RerankModelRunner.index_ r) ->
  fst (collect documents score_threshold results h) = Raise IndexError.
Proof.
  intros Hr Hpass Hout. revert h. induction results as [|r0 rest IH]; intros h; [destruct Hr|].
  destruct (passes score_threshold r0) eqn:Hpass0.
  - destruct (index documents (RerankModelRunner.index_ r0) h) as [[src|e] h1] eqn:Hidx.
    + pose proof Hidx as Hidx'. apply index_inv in Hidx' as (-> & _ & Hin).
      destruct Hr as [->|Hr]; [contradiction|].
      rewrite (collect_turn _ _ _ _ _ src Hpass0 Hidx).
      destruct (turn r0 src h) as [d h1].
      specialize (IH Hr h1).
      destruct (collect documents score_threshold rest h1) as [[kept|e] h2]; simpl in *;
        [discriminate | exact IH].
    + cbn [RerankModelRunner.collect]. fold (passes score_threshold r0). rewrite Hpass0.
      unfold bind at 1. rewrite Hidx. apply index_raises in Hidx as [-> _]. reflexivity.
  - cbn [RerankModelRunner.collect]. fold (passes score_threshold r0). rewrite Hpass0.
    destruct Hr as [->|Hr]; [congruence | now apply IH].
Qed.

End RerankModelRun.

(** X10. What [RerankModelRunner.run] returns, when it returns, whatever
    the constructor of [Document] does: the model was asked once, with the
    page contents of the documents in order; the documents returned are
    among those the loop collected, at most [top_n] of them when [top_n] is
    positive and all of them when [top_n] is [None] or zero; every document
    collected has metadata and is what the constructor gave for a result of
    the model and the input document the result points at, a result whose
    score is not below the threshold when one is given, zero included; there
    is at most one document for each such result, and none of these results
    is lost unless the document built for it has no metadata.  When the
    scores the documents collected hold at the end are numbers, the result
    is those documents in descending order of that score, cut to the first
    [top_n] when [top_n] is positive. *)
Theorem rerank_model_result :
  forall (ModelInstance : Type) invoke_rerank new_document (inst : ModelInstance) query
         documents score_threshold top_n user h out h',
    RerankModelRunner.run invoke_rerank new_document inst query documents score_threshold
      top_n user h = (Ok out, h') ->
    exists results collected,
      invoke_rerank inst query (map page_content documents) score_threshold top_n user
      = Ok results
      /\ (forall d, In d out -> In d collected)
      /\ (forall n, top_n = Some n -> 0 < n -> Z.of_nat (length out) <= n)
      /\ (truthy_int top_n = false -> Permutation out collected)
      /\ (forall d, In d collected ->
            exists r src,
              In r results /\ In src documents
              /\ fst (index documents (RerankModelRunner.index_ r) h) = Ok src
              /\ built_from new_document r src d
              /\ (forall t, score_threshold = Some t -> (t <= RerankModelRunner.score r)%Q)
              /\ metadata d <> None)
      /\ (length collected <= length (List.filter (passes score_threshold) results))%nat
      /\ (forall r, In r results -> passes score_threshold r = true ->
            exists src d,
              fst (index documents (RerankModelRunner.index_ r) h) = Ok src
              /\ built_from new_document r src d
              /\ (metadata d <> None -> In d collected))
      /\ (Forall (fun d => is_number (score_of h' d)) collected ->
          out = top top_n (sort_by_score (fun d => number (score_of h' d)) collected)
          /\ StronglySorted
               (fun a b => (number (score_of h' b) <= number (score_of h' a))%Q) out).
Proof.
  intros MI invoke_rerank new_document inst query documents thr top_n user h out h' Hrun.
  apply rerank_run_inv in Hrun as (results & kept & Hcall & Hcol & ->).
  pose proof (collect_inv _ _ _ _ _ _ _ Hcol) as Hall.
  assert (Hperm : Permutation (map snd (sort_desc (map (fun d => (score_of h' d, d)) kept)))
                    kept).
  { rewrite sort_desc_perm, map_map. simpl. now rewrite map_id. }
  exists results, kept. split; [exact Hcall|].
  split; [|split; [|split; [|split; [|split; [|split]]]]].
  - intros d Hd. apply top_incl in Hd. now apply (Permutation_in _ Hperm) in Hd.
  - intros n -> Hn. unfold top, truthy_int.
    assert (Hnz : (n =? 0) = false) by (apply Z.eqb_neq; lia).
    rewrite Hnz. simpl. apply slice_to_length. lia.
  - intros Hfalsy. unfold top. rewrite Hfalsy. exact Hperm.
  - intros d Hd. rewrite List.Forall_forall in Hall.
    destruct (Hall d Hd) as (r & src & Hr & Hpass & Hsrc & Hidx & Hbuilt & Hm).
    exists r, src. repeat split; try assumption.
    intros t ->. simpl in Hpass. now apply Qle_bool_iff.
  - exact (collect_length _ _ _ _ _ _ _ Hcol).
  - exact (collect_complete _ _ _ _ _ _ _ Hcol).
  - intros Hnum.
    assert (Hsorted : map snd (sort_desc (map (fun d => (score_of h' d, d)) kept))
                      = sort_by_score (fun d => number (score_of h' d)) kept).
    { unfold sort_by_score. now rewrite (keys_are_numbers (score_of h') kept Hnum). }
    rewrite Hsorted. split; [reflexivity|].
    unfold top.
    pose proof (sort_by_score_sorted (fun d => number (score_of h' d)) kept) as Hs.
    destruct (truthy_int top_n); [|exact Hs].
    destruct top_n; [now apply slice_to_sorted | exact Hs].
Qed.

(** A constructor that keeps the dict it is given. *)
Definition same_dict (page_content : string) (metadata : option loc) (provider : string)
  (h : heap) : Document * heap :=
  ({| page_content := page_content; metadata := metadata; vector := None;
      provider := provider |}, h).

(** X10 on two documents and a threshold of zero: the result with a
    negative score is dropped. *)
Definition first_doc : Document :=
  {| page_content := "one"; metadata := Some 0%nat; vector := None; provider := "dify" |}.

Definition second_doc : Document :=
  {| page_content := "two"; metadata := Some 1%nat; vector := None; provider := "dify" |}.

Definition two_results (_ : unit) (_ : string) (_ : list string) (_ : option Q) (_ : option Z)
  (_ : option string) : result (list RerankModelRunner.RerankDocument) :=
  Ok [ {| RerankModelRunner.index_ := 0; RerankModelRunner.text := "one";
          RerankModelRunner.score := - (1 # 2) |};
       {| RerankModelRunner.index_ := 1; RerankModelRunner.text := "two";
          RerankModelRunner.score := 3 # 4 |} ].

Lemma rerank_model_result_witness :
  let r := RerankModelRunner.run two_results same_dict tt "q" [first_doc; second_doc]
             (Some 0%Q) (Some 1) None (fun _ => ∅) in
  fst r = Ok [second_doc]
  /\ snd r 1%nat !! "score"%string = Some (PyFloat (Num (3 # 4)))
  /\ exists collected,
       (forall d, In d [second_doc] -> In d collected)
       /\ (length collected <= 1)%nat
       /\ Z.of_nat (length [second_doc]) <= 1.
Proof.
  intros r.
  assert (Hrun : r = (Ok [second_doc], snd r)) by (vm_compute; reflexivity).
  split; [now rewrite Hrun|]. split; [vm_compute; reflexivity|].
  destruct (rerank_model_result unit two_results same_dict tt "q"%string
              [first_doc; second_doc] (Some 0%Q) (Some 1) None (fun _ => ∅) [second_doc]
              (snd r) Hrun)
    as (results & collected & Hcall & Hin & Htop & _ & _ & Hlen & _).
  exists collected. split; [exact Hin|]. split.
  - inversion Hcall; subst results. exact Hlen.
  - apply (Htop 1 eq_refl). lia.
Defined.

(** X11. The errors of [RerankModelRunner.run]: an error of the model is
    raised unchanged, with no dict written; a result that passes the
    threshold and whose index is outside the documents, counted from either
    end, raises [IndexError], whatever the other results are. *)
Theorem rerank_model_errors :
  forall (ModelInstance : Type) invoke_rerank new_document (inst : ModelInstance) query
         documents score_threshold top_n user (h : heap),
    let answer :=
      invoke_rerank inst query (map page_content documents) score_threshold top_n user in
    let r := RerankModelRunner.run invoke_rerank new_document inst query documents
               score_threshold top_n user h in
    (forall e, answer = Raise e -> r = (Raise e, h))
    /\ (forall results bad,
          answer = Ok results ->
          In bad results -> passes score_threshold bad = true ->
          ~ in_range (length documents) (RerankModelRunner.index_ bad) ->
          fst r = Raise IndexError).
Proof.
  intros MI invoke_rerank new_document inst query documents thr top_n user h answer r. split.
  - intros e He. unfold r, RerankModelRunner.run, bind. fold answer. now rewrite He.
  - intros results bad Hans Hbad Hpass Hout.
    unfold r, RerankModelRunner.run. unfold bind at 1. fold answer. rewrite Hans.
    unfold bind at 1.
    pose proof (collect_index_error new_document documents thr results h bad Hbad Hpass Hout)
      as Hc.
    destruct (RerankModelRunner.collect new_document documents thr results h)
      as [[kept|e] h1]; simpl in Hc; [discriminate|]. now inversion Hc.
Qed.

(** X11 for a model that answers with an index past the two documents. *)
Definition stray_result (_ : unit) (_ : string) (_ : list string) (_ : option Q) (_ : option Z)
  (_ : option string) : result (list RerankModelRunner.RerankDocument) :=
  Ok [ {| RerankModelRunner.index_ := 1; RerankModelRunner.text := "two";
          RerankModelRunner.score := 3 # 4 |};
       {| RerankModelRunner.index_ := 2; RerankModelRunner.text := "three";
          RerankModelRunner.score := 1 # 4 |} ].

Lemma rerank_model_errors_witness :
  let r := RerankModelRunner.run stray_result same_dict tt "q" [first_doc; second_doc]
             None None None (fun _ => ∅) in
  fst r = Raise IndexError
  /\ snd r 1%nat !! "score"%string = Some (PyFloat (Num (3 # 4))).
Proof.
  intros r. split; [|vm_compute; reflexivity].
  apply (proj2 (rerank_model_errors unit stray_result same_dict tt "q"%string
                  [first_doc; second_doc] None None None (fun _ => ∅))
           _ {| RerankModelRunner.index_ := 2; RerankModelRunner.text := "three";
                RerankModelRunner.score := 1 # 4 |} eq_refl).
  - right. now left.
  - reflexivity.
  - unfold in_range. simpl. lia.
Defined.

(** ** The keyword scores of the weighted runner *)


(** ** The modes of the post-processor *)

(** X13. A post-processor built in a mode that is neither of the two rerank
    modes, or in the weighted-score mode without weights (none, or an empty
    dict), has no rerank runner: the constructor does not touch the cache of
    rerank models, whatever reranking model is named, and [invoke] returns
    the documents as given, reordered when the reorder step is enabled.  In
    the weighted-score mode a weights dict without ["vector_setting"] makes
    the constructor raise [KeyError]. *)
Theorem post_processor_without_runner :
  forall (ModelInstance CacheEmbedding : Type) extract_keywords
         (embed_query : CacheEmbedding -> string -> result (list Q))
         math_log math_sqrt invoke_rerank reorder_run
         tenant_id reranking_mode reranking_model weights reorder_enabled
         (w : Cache.world (V := ModelInstance)),
    let new :=
      DataPostProcessor.__init__ tenant_id reranking_mode reranking_model weights
        reorder_enabled w in
    ((reranking_mode <> DataPostProcessor.WEIGHTED_SCORE
      /\ reranking_mode <> DataPostProcessor.RERANKING_MODEL)
     \/ (reranking_mode = DataPostProcessor.WEIGHTED_SCORE
         /\ (weights = None \/ weights = Some ∅)) ->
     exists p,
       new = (Ok p, w)
       /\ DataPostProcessor.rerank_runner p = None
       /\ passes_through extract_keywords embed_query math_log math_sqrt invoke_rerank
            reorder_run p reorder_enabled)
    /\ (forall d,
          reranking_mode = DataPostProcessor.WEIGHTED_SCORE ->
          weights = Some d -> d <> ∅ -> d !! "vector_setting"%string = None ->
          new = (Raise (KeyError "vector_setting"), w)).
Proof.
  intros MI CE extract_keywords embed_query math_log math_sqrt invoke_rerank reorder_run
    tenant_id mode reranking_model weights reorder_enabled w new.
  split.
  - intros Hcase.
    exists {| DataPostProcessor.rerank_runner := None;
              DataPostProcessor.reorder_runner :=
                DataPostProcessor._get_reorder_runner reorder_enabled |}.
    split; [|split; [reflexivity | apply no_runner_passes_through]].
    unfold new, DataPostProcessor.__init__, DataPostProcessor._get_rerank_runner.
    destruct Hcase as [[Hw Hr]|[-> Hweights]].
    + apply String.eqb_neq in Hw, Hr. rewrite Hw, Hr. reflexivity.
    + change (String.eqb DataPostProcessor.WEIGHTED_SCORE DataPostProcessor.WEIGHTED_SCORE)
        with true.
      change (String.eqb DataPostProcessor.WEIGHTED_SCORE DataPostProcessor.RERANKING_MODEL)
        with false.
      destruct Hweights as [->| ->]; [reflexivity|].
      destruct (decide (∅ = ∅)) as [_|Hne]; [reflexivity | contradiction].
  - intros d -> -> Hne Hmissing.
    unfold new, DataPostProcessor.__init__, DataPostProcessor._get_rerank_runner.
    change (String.eqb DataPostProcessor.WEIGHTED_SCORE DataPostProcessor.WEIGHTED_SCORE)
      with true.
    destruct (decide (d = ∅)) as [He|_]; [contradiction|].
    unfold DataPostProcessor.make_weights, DataPostProcessor.weight_entry, bind.
    rewrite Hmissing. reflexivity.
Qed.

(** X13 for a mode the post-processor does not know. *)
Lemma post_processor_without_runner_witness :
  let w := Cache.initial (V := nat) (fun n => Z.of_nat n) (fun n => Ok n) in
  exists p,
    DataPostProcessor.__init__ "tenant1" "hybrid" (Some cohere_model) None true w = (Ok p, w)
    /\ DataPostProcessor.rerank_runner p = None
    /\ passes_through (CacheEmbedding := nat) (fun text => [text]) (fun _ _ => Ok [1%Q])
         (fun x => x) (fun x => x) (fun _ _ _ _ _ _ => Ok []) (@rev Document) p true.
Proof.
  intros w.
  apply (proj1 (post_processor_without_runner nat nat (fun text => [text]) (fun _ _ => Ok [1%Q])
                  (fun x => x) (fun x => x) (fun _ _ _ _ _ _ => Ok []) (@rev Document)
                  "tenant1"%string "hybrid"%string (Some cohere_model) None true w)).
  left. split; discriminate.
Defined.

(** * The methods of [Vector] that write texts *)

Lemma for_each_map {S A B} (f : A -> B) (xs : list A) (body : B -> M S unit) s :
  for_each (map f xs) body s = for_each xs (fun x => body (f x)) s.
Proof.
  revert s. induction xs as [|x xs IH]; intros s; simpl; [reflexivity|].
  unfold bind. destruct (body (f x) s) as [[[]|e] s1]; [apply IH | reflexivity].
Qed.

Lemma firstn_plus {A} (a b : nat) (l : list A) :
  firstn (a + b) l = firstn a l ++ firstn b (skipn a l).
Proof.
  revert l. induction a as [|a IH]; intros l; simpl; [reflexivity|].
  destruct l as [|x l]; simpl; [now rewrite firstn_nil | now rewrite IH].
Qed.

Section Batches.
Context {A : Type}.
Variable b : nat.
Hypothesis b_positive : (0 < b)%nat.

(** The batches of [l]: the slices that [create] cuts. *)
Definition batches (l : list A) : list (list A) :=
  map (fun i => VectorTexts.slice l i (i + b)) (VectorTexts.range 0 (length l) b).

Definition batch_count (n : nat) : nat := ((n - 0 + (b - 1)) / b)%nat.

Lemma batch_count_bounds n :
  (n <= batch_count n * b /\ (batch_count n * b < n + b))%nat.
Proof using b_positive.
  unfold batch_count.
  pose proof (Nat.div_mod_eq (n - 0 + (b - 1)) b) as Hdm.
  pose proof (Nat.mod_upper_bound (n - 0 + (b - 1)) b) as Hub.
  nia.
Qed.

Lemma batches_nth l :
  batches l = map (fun j => firstn b (skipn (j * b) l)) (seq 0 (batch_count (length l))).
Proof.
  unfold batches, VectorTexts.range, VectorTexts.slice. rewrite map_map. fold (batch_count (length l)).
  apply map_ext. intros j. simpl. f_equal. clear. lia.
Qed.

Lemma concat_first_batches (l : list A) m :
  concat (map (fun j => firstn b (skipn (j * b) l)) (seq 0 m)) = firstn (m * b) l.
Proof.
  induction m as [|m IH]; [reflexivity|].
  rewrite seq_S, map_app, concat_app, IH. simpl. rewrite app_nil_r.
  replace (b + m * b)%nat with (m * b + b)%nat by (clear; lia). now rewrite firstn_plus.
Qed.

Lemma concat_batches l : concat (batches l) = l.
Proof using b_positive.
  rewrite batches_nth, concat_first_batches. apply firstn_all2.
  pose proof (batch_count_bounds (length l)). lia.
Qed.

Lemma concat_batches_prefix l k :
  exists rest, l = concat (firstn k (batches l)) ++ rest.
Proof using b_positive.
  exists (concat (skipn k (batches l))).
  rewrite <- concat_app, firstn_skipn. symmetry. apply concat_batches.
Qed.

Lemma batches_length l : length (batches l) = batch_count (length l).
Proof. now rewrite batches_nth, length_map, length_seq. Qed.

Lemma batch_size_bounds l j c :
  nth_error (batches l) j = Some c ->
  (0 < length c <= b)%nat /\ ((S j < length (batches l))%nat -> length c = b).
Proof using b_positive.
  intros Hj.
  assert (Hlt : (j < batch_count (length l))%nat).
  { rewrite <- batches_length. apply nth_error_Some. congruence. }
  rewrite batches_nth, nth_error_map, nth_error_seq in Hj.
  apply Nat.ltb_lt in Hlt as Hb. rewrite Hb in Hj. simpl in Hj. inversion Hj; subst c.
  rewrite length_firstn, length_skipn, batches_length.
  pose proof (batch_count_bounds (length l)) as [H1 H2]. split; [|intros Hs]; nia.
Qed.

End Batches.

Section CreateTexts.
Variable embed_documents : list string -> result (list (list Q)).
Variable processor_create : list Document -> list (list Q) -> result unit.

Local Abbreviation state := VectorTexts.texts_state.

(** What [create] does with one batch. *)
Definition write_batch (batch : list Document) : M state unit :=
  batch_embeddings <- VectorTexts.lift (embed_documents (map page_content batch));;
  VectorTexts.vector_processor_create processor_create batch batch_embeddings.

Lemma write_batch_eq batch (s : state) :
  write_batch batch s
  = match embed_documents (map page_content batch) with
    | Ok em =>
        (processor_create batch em,
         VectorTexts.TextsState (VectorTexts.documents s) (VectorTexts.created s ++ [(batch, em)]))
    | Raise e => (Raise e, s)
    end.
Proof.
  unfold write_batch, bind, VectorTexts.lift, VectorTexts.vector_processor_create.
  now destruct (embed_documents (map page_content batch)).
Qed.

(** The calls made by the loop are those for a front part of the batches,
    each with the embeddings of its texts; all of them when the loop ends
    without raising. *)
Lemma write_batches bs (s : state) :
  exists new,
    snd (for_each bs write_batch s)
    = VectorTexts.TextsState (VectorTexts.documents s) (VectorTexts.created s ++ new)
    /\ map fst new = firstn (length new) bs
    /\ (length new <= length bs)%nat
    /\ Forall (fun c => embed_documents (map page_content (fst c)) = Ok (snd c)) new
    /\ (fst (for_each bs write_batch s) = Ok tt -> length new = length bs).
Proof.
  revert s. induction bs as [|batch bs IH]; intros s.
  - exists []. simpl. rewrite app_nil_r. destruct s. repeat split; auto.
  - cbn [for_each]. unfold bind. rewrite write_batch_eq.
    destruct (embed_documents (map page_content batch)) as [em|e] eqn:Hem.
    + destruct (processor_create batch em) as [[]|e].
      * destruct (IH (VectorTexts.TextsState (VectorTexts.documents s)
                         (VectorTexts.created s ++ [(batch, em)])))
          as (new & Hs & Hm & Hle & Hall & Hok).
        exists ((batch, em) :: new). simpl in *. rewrite Hs, <- app_assoc. simpl.
        split; [reflexivity|]. split; [now rewrite Hm|]. split; [lia|].
        split; [constructor; [exact Hem | exact Hall]|]. intros H. now rewrite Hok.
      * exists [(batch, em)]. simpl. split; [reflexivity|]. split; [reflexivity|].
        split; [lia|]. split; [repeat constructor; exact Hem|]. discriminate.
    + exists []. simpl. rewrite app_nil_r. destruct s. repeat split; auto; try lia.
      discriminate.
Qed.

End CreateTexts.

(** X14. [Vector.create] embeds and writes the texts in batches of a
    thousand, in order: every call of the vector processor gets between one
    and a thousand texts together with the embeddings of exactly those
    texts, every call but the last gets a thousand, and the texts written
    are a front part of the texts given, all of them when [create] returns.
    Without texts ([None] or an empty list) nothing is embedded or
    written. *)
Theorem create_writes_batches :
  forall embed_documents processor_create texts (s : VectorTexts.texts_state),
    let r := VectorTexts.create embed_documents processor_create (Some texts) s in
    VectorTexts.create embed_documents processor_create None s = (Ok tt, s)
    /\ exists new,
         snd r = VectorTexts.TextsState (VectorTexts.documents s) (VectorTexts.created s ++ new)
         /\ (exists rest, texts = concat (map fst new) ++ rest)
         /\ Forall (fun c => (0 < length (fst c) <= 1000)%nat
                             /\ embed_documents (map page_content (fst c)) = Ok (snd c)) new
         /\ (forall front last, new = front ++ [last] ->
               Forall (fun c => length (fst c) = 1000%nat) front)
         /\ (fst r = Ok tt -> texts = concat (map fst new))
         /\ (texts = [] -> new = []).
Proof.
  intros embed_documents processor_create texts s r.
  split; [reflexivity|].
  assert (Hpos : (0 < VectorTexts.batch_size)%nat) by (unfold VectorTexts.batch_size; lia).
  assert (Hr : r = for_each (batches VectorTexts.batch_size texts)
                     (write_batch embed_documents processor_create) s).
  { unfold r, VectorTexts.create, batches.
    destruct texts as [|t ts]; [reflexivity|].
    rewrite for_each_map. reflexivity. }
  destruct (write_batches embed_documents processor_create
              (batches VectorTexts.batch_size texts) s) as (new & Hs & Hm & Hle & Hall & Hok).
  rewrite <- Hr in Hs, Hok.
  exists new. split; [exact Hs|]. split; [|split; [|split; [|split]]].
  - rewrite Hm. apply concat_batches_prefix, Hpos.
  - rewrite List.Forall_forall in *. intros c Hc. split; [|now apply Hall].
    apply In_nth_error in Hc as [j Hj].
    assert (Hb : nth_error (batches VectorTexts.batch_size texts) j = Some (fst c)).
    { assert (Hjl : (j < length new)%nat) by (apply nth_error_Some; congruence).
      pose proof (f_equal (fun l => nth_error l j) Hm) as Hn. simpl in Hn.
      rewrite nth_error_map, Hj, nth_error_firstn in Hn.
      apply Nat.ltb_lt in Hjl. rewrite Hjl in Hn. symmetry. exact Hn. }
    apply (batch_size_bounds VectorTexts.batch_size Hpos) in Hb as [Hb _]. exact Hb.
  - intros front last ->. rewrite List.Forall_forall. intros c Hc.
    apply In_nth_error in Hc as [j Hj].
    assert (Hjl : (j < length front)%nat) by (apply nth_error_Some; congruence).
    rewrite length_app in Hm, Hle. simpl in Hm, Hle.
    assert (Hb : nth_error (batches VectorTexts.batch_size texts) j = Some (fst c)).
    { pose proof (f_equal (fun l => nth_error l j) Hm) as Hn. simpl in Hn.
      rewrite nth_error_map, nth_error_app1, Hj, nth_error_firstn in Hn by exact Hjl.
      assert (Hjb : (j <? length front + 1)%nat = true) by (apply Nat.ltb_lt; lia).
      rewrite Hjb in Hn. symmetry. exact Hn. }
    apply (batch_size_bounds VectorTexts.batch_size Hpos) in Hb as [_ Hb]. apply Hb. lia.
  - intros H. specialize (Hok H). rewrite Hm, Hok, firstn_all. symmetry.
    apply concat_batches, Hpos.
  - intros ->. destruct new as [|c new]; [reflexivity|]. simpl in Hle. lia.
Qed.

(** ** The duplicate check of [add_texts] *)

Section FilterDuplicates.
Variable embed_documents : list string -> result (list (list Q)).
Variable processor_create : list Document -> list (list Q) -> result unit.
Variable processor_text_exists : pyval -> result bool.
Variable document_eq : Document -> Document -> bool.
Variable h : heap.

Local Abbreviation state := VectorTexts.texts_state.
Local Abbreviation remove_first := (VectorTexts.remove_first document_eq).

(** Whether the loop of [_filter_duplicate_texts] removes [text]: it has
    metadata, its ["doc_id"] is truthy and the vector processor has a text
    of that id. *)
Definition is_duplicate (text : Document) : result bool :=
  match metadata text with
  | None => Ok false
  | Some l =>
      match h l !! "doc_id"%string with
      | None => Raise (KeyError "doc_id")
      | Some doc_id =>
          if VectorTexts.truthy_val doc_id then processor_text_exists doc_id else Ok false
      end
  end.

Definition duplicate (text : Document) : bool :=
  match is_duplicate text with Ok true => true | _ => false end.

(** The body of the loop. *)
Definition check (text : Document) : M state unit :=
  match metadata text with
  | None => ret tt
  | Some l =>
      doc_id <- match h l !! "doc_id"%string with
                | Some v => ret v
                | None => raise (KeyError "doc_id")
                end;;
      if VectorTexts.truthy_val doc_id then
        exists_duplicate_node <- VectorTexts.text_exists processor_text_exists doc_id;;
        if exists_duplicate_node then VectorTexts.list_remove document_eq text else ret tt
      else ret tt
  end.

Lemma check_eq text (s : state) :
  check text s
  = match is_duplicate text with
    | Ok true => VectorTexts.list_remove document_eq text s
    | Ok false => (Ok tt, s)
    | Raise e => (Raise e, s)
    end.
Proof.
  unfold check, is_duplicate, bind, ret, raise, VectorTexts.text_exists, VectorTexts.lift.
  destruct (metadata text) as [l|]; [|reflexivity].
  destruct (h l !! "doc_id"%string) as [v|]; [|reflexivity].
  destruct (VectorTexts.truthy_val v); [|reflexivity].
  now destruct (processor_text_exists v) as [[]|].
Qed.

(** The number of items of [l] equal to [z]. *)
Definition count (z : Document) (l : list Document) : nat :=
  length (List.filter (fun item => document_eq item z) l).

Lemma count_app z l1 l2 : count z (l1 ++ l2) = (count z l1 + count z l2)%nat.
Proof. unfold count. now rewrite List.filter_app, length_app. Qed.

Lemma remove_first_inv x l l' :
  remove_first x l = Some l' ->
  exists front item back,
    l = front ++ item :: back /\ document_eq item x = true /\ l' = front ++ back.
Proof.
  revert l'. induction l as [|item l IH]; intros l' H; simpl in H; [discriminate|].
  destruct (document_eq item x) eqn:Heq.
  - inversion H; subst. exists [], item, l'. auto.
  - destruct (remove_first x l) as [l1|]; simpl in H; [|discriminate].
    inversion H; subst. destruct (IH l1 eq_refl) as (front & it & back & -> & Hit & ->).
    exists (item :: front), it, back. auto.
Qed.

Lemma remove_first_found x l :
  (0 < count x l)%nat -> exists l', remove_first x l = Some l'.
Proof.
  unfold count. induction l as [|item l IH]; simpl; [lia|].
  destruct (document_eq item x); simpl; [eauto|].
  intros H. destruct (IH H) as [l' ->]. simpl. eauto.
Qed.

Hypothesis eq_reflexive : forall x, document_eq x x = true.
Hypothesis eq_symmetric : forall x y, document_eq x y = true -> document_eq y x = true.
Hypothesis eq_transitive :
  forall x y z, document_eq x y = true -> document_eq y z = true -> document_eq x z = true.
Hypothesis eq_respected :
  forall x y, document_eq x y = true -> is_duplicate x = is_duplicate y.

Lemma eq_same_class x y z :
  document_eq x y = true -> document_eq x z = document_eq y z.
Proof using eq_symmetric eq_transitive.
  intros Hxy. destruct (document_eq y z) eqn:Hyz.
  - eauto.
  - destruct (document_eq x z) eqn:Hxz; [|reflexivity].
    rewrite <- Hyz. symmetry. eauto.
Qed.

Lemma duplicate_respected x y : document_eq x y = true -> duplicate x = duplicate y.
Proof using eq_respected.
  intros Hxy. unfold duplicate. now rewrite (eq_respected x y Hxy).
Qed.

Local Abbreviation keep := (fun d => negb (duplicate d)).

(** The loop, from a list [acc] that holds, for every duplicate, as many
    items equal to it as are still to come in the copy. *)
Lemma check_all copy acc cr :
  (forall x, In x copy -> exists b, is_duplicate x = Ok b) ->
  (forall z, duplicate z = true -> count z acc = count z copy) ->
  exists acc',
    for_each copy check (VectorTexts.TextsState acc cr) = (Ok tt, VectorTexts.TextsState acc' cr)
    /\ List.filter keep acc' = List.filter keep acc
    /\ forall z, duplicate z = true -> count z acc' = 0%nat.
Proof using eq_reflexive eq_symmetric eq_transitive eq_respected.
  revert acc. induction copy as [|x copy IH]; intros acc Hok Hcount.
  - exists acc. simpl. repeat split. intros z Hz. now rewrite (Hcount z Hz).
  - cbn [for_each]. unfold bind. rewrite check_eq.
    destruct (Hok x (or_introl eq_refl)) as [b Hb]. rewrite Hb.
    assert (Hok' : forall y, In y copy -> exists b, is_duplicate y = Ok b)
      by (intros y Hy; apply Hok; now right).
    destruct b.
    + assert (Hdup : duplicate x = true) by (unfold duplicate; now rewrite Hb).
      assert (Hfound : (0 < count x acc)%nat).
      { rewrite (Hcount x Hdup). unfold count. simpl. rewrite eq_reflexive. simpl. lia. }
      destruct (remove_first_found x acc Hfound) as [acc1 Hrem].
      unfold VectorTexts.list_remove. cbn [VectorTexts.documents VectorTexts.created]. rewrite Hrem.
      apply remove_first_inv in Hrem as (front & item & back & -> & Hitem & ->).
      assert (Hditem : duplicate item = true)
        by (now rewrite (duplicate_respected item x Hitem)).
      assert (Hcount' : forall z, duplicate z = true ->
                count z (front ++ back) = count z copy).
      { intros z Hz. specialize (Hcount z Hz).
        rewrite !count_app in *. unfold count in *. simpl in Hcount.
        rewrite (eq_same_class item x z Hitem) in Hcount.
        destruct (document_eq x z); simpl in Hcount; lia. }
      destruct (IH (front ++ back) Hok' Hcount') as (acc' & Hrun & Hkeep & Hzero).
      exists acc'. split; [exact Hrun|]. split; [|exact Hzero].
      rewrite Hkeep, !List.filter_app. simpl. now rewrite Hditem.
    + assert (Hdup : duplicate x = false) by (unfold duplicate; now rewrite Hb).
      apply IH; [exact Hok'|].
      intros z Hz. rewrite (Hcount z Hz). unfold count. simpl.
      destruct (document_eq x z) eqn:Hxz; [|reflexivity].
      rewrite (duplicate_respected x z Hxz) in Hdup. congruence.
Qed.

Lemma filter_duplicate_texts_spec (s : state) :
  (forall x, In x (VectorTexts.documents s) -> exists b, is_duplicate x = Ok b) ->
  let kept := List.filter keep (VectorTexts.documents s) in
  VectorTexts._filter_duplicate_texts processor_text_exists document_eq h s
  = (Ok kept, VectorTexts.TextsState kept (VectorTexts.created s)).
Proof using eq_reflexive eq_symmetric eq_transitive eq_respected.
  intros Hok kept. destruct s as [l0 cr]. simpl in *.
  destruct (check_all l0 l0 cr Hok (fun z _ => eq_refl)) as (acc' & Hrun & Hkeep & Hzero).
  assert (Hall : List.filter keep acc' = acc').
  { apply List.forallb_filter_id. apply forallb_forall. intros x Hx.
    destruct (duplicate x) eqn:Hd; [|reflexivity].
    specialize (Hzero x Hd). unfold count in Hzero.
    assert (Hin : In x (List.filter (fun item => document_eq item x) acc'))
      by (apply List.filter_In; auto).
    apply length_zero_iff_nil in Hzero. rewrite Hzero in Hin. destruct Hin. }
  unfold VectorTexts._filter_duplicate_texts. unfold bind at 1, gets at 1.
  cbn [VectorTexts.documents].
  change (for_each l0 _) with (for_each l0 check).
  unfold bind. rewrite Hrun. unfold gets. cbn [VectorTexts.documents].
  unfold kept. rewrite <- Hkeep, Hall. reflexivity.
Qed.

End FilterDuplicates.

(** X15. With [duplicate_check], [add_texts] drops from the list it was
    given, in place, exactly the documents that have metadata, a truthy
    ["doc_id"] and a text of that id in the vector processor already; the
    documents that stay keep their order, and they alone are embedded and
    written, in one call.  This needs [==] on documents to be an equivalence
    under which equal documents have the same ["doc_id"], and every
    ["doc_id"] read and every [text_exists] call to succeed.  Without
    [duplicate_check] every document is embedded and written. *)
Theorem add_texts_drops_duplicates :
  forall embed_documents processor_create processor_text_exists document_eq h
         (s : VectorTexts.texts_state),
    (forall x, document_eq x x = true) ->
    (forall x y, document_eq x y = true -> document_eq y x = true) ->
    (forall x y z, document_eq x y = true -> document_eq y z = true ->
                   document_eq x z = true) ->
    (forall x y, document_eq x y = true ->
                 is_duplicate processor_text_exists h x = is_duplicate processor_text_exists h y) ->
    (forall x, In x (VectorTexts.documents s) ->
               exists b, is_duplicate processor_text_exists h x = Ok b) ->
    let kept :=
      List.filter (fun d => negb (duplicate processor_text_exists h d)) (VectorTexts.documents s) in
    let written texts (s' : VectorTexts.texts_state) :=
      match embed_documents (map page_content texts) with
      | Ok embeddings =>
          (processor_create texts embeddings,
           VectorTexts.TextsState texts (VectorTexts.created s ++ [(texts, embeddings)]))
      | Raise e => (Raise e, s')
      end in
    VectorTexts._filter_duplicate_texts processor_text_exists document_eq h s
    = (Ok kept, VectorTexts.TextsState kept (VectorTexts.created s))
    /\ VectorTexts.add_texts embed_documents processor_create processor_text_exists document_eq
         h true s
       = written kept (VectorTexts.TextsState kept (VectorTexts.created s))
    /\ VectorTexts.add_texts embed_documents processor_create processor_text_exists document_eq
         h false s
       = written (VectorTexts.documents s) s.
Proof.
  intros embed_documents processor_create processor_text_exists document_eq h s
    Hrefl Hsym Htrans Hresp Hok kept written.
  pose proof (filter_duplicate_texts_spec processor_text_exists document_eq h
                Hrefl Hsym Htrans Hresp s Hok) as Hfilter.
  fold kept in Hfilter.
  split; [exact Hfilter|]. split.
  - unfold VectorTexts.add_texts. unfold bind at 1. rewrite Hfilter.
    unfold written, bind, VectorTexts.lift, VectorTexts.vector_processor_create.
    now destruct (embed_documents (map page_content kept)).
  - unfold VectorTexts.add_texts, written, bind, gets, VectorTexts.lift,
      VectorTexts.vector_processor_create.
    destruct s as [l0 cr]. simpl.
    now destruct (embed_documents (map page_content l0)).
Qed.

(** X15 on three documents of which the first and the third are the same
    text, already in the store. *)
Definition same_text (x y : Document) : bool :=
  String.eqb (page_content x) (page_content y) && bool_decide (metadata x = metadata y).

Definition doc_ids : heap :=
  fun l => if Nat.eqb l 0 then <["doc_id"%string := PyStr "a"]> ∅
           else <["doc_id"%string := PyStr "b"]> ∅.

Definition stored_a (id : pyval) : result bool :=
  match id with
  | PyStr s => Ok (String.eqb s "a")
  | _ => Ok false
  end.

Definition text_a : Document :=
  {| page_content := "a"; metadata := Some 0%nat; vector := None; provider := "dify" |}.

Definition text_b : Document :=
  {| page_content := "b"; metadata := Some 1%nat; vector := None; provider := "dify" |}.

Lemma add_texts_drops_duplicates_witness :
  let s := VectorTexts.TextsState [text_a; text_b; text_a] [] in
  VectorTexts._filter_duplicate_texts stored_a same_text doc_ids s
  = (Ok [text_b], VectorTexts.TextsState [text_b] [])
  /\ VectorTexts.add_texts (fun texts => Ok (map (fun _ => [1%Q]) texts)) (fun _ _ => Ok tt)
       stored_a same_text doc_ids true s
     = (Ok tt, VectorTexts.TextsState [text_b] [([text_b], [[1%Q]])]).
Proof.
  intros s.
  destruct (add_texts_drops_duplicates (fun texts => Ok (map (fun _ => [1%Q]) texts))
              (fun _ _ => Ok tt) stored_a same_text doc_ids s) as (Hfilter & Hadd & _).
  - intros x. unfold same_text. rewrite String.eqb_refl. now rewrite bool_decide_eq_true_2.
  - intros x y. unfold same_text. rewrite !andb_true_iff, !bool_decide_eq_true, !String.eqb_eq.
    intros [-> ->]. auto.
  - intros x y z. unfold same_text.
    rewrite !andb_true_iff, !bool_decide_eq_true, !String.eqb_eq.
    intros [-> ->] [-> ->]. auto.
  - intros x y. unfold same_text. rewrite andb_true_iff, bool_decide_eq_true.
    intros [_ Hm]. unfold is_duplicate. now rewrite Hm.
  - intros x [<-|[<-|[<-|[]]]]; vm_compute; eauto.
  - split; [exact Hfilter | exact Hadd].
Defined.

(** * The mail task *)

Section MailTask.
Variable mail_is_inited : bool.
Variable unnotified_logs : result (list MailCleanDocumentNotifyTask.DatasetAutoDisableLog).
Variable tenant_first : string -> result (option MailCleanDocumentNotifyTask.Tenant).
Variable owner_join_first :
  string -> result (option MailCleanDocumentNotifyTask.TenantAccountJoin).
Variable account_first : string -> result (option MailCleanDocumentNotifyTask.Account).
Variable dataset_first : string -> result (option MailCleanDocumentNotifyTask.Dataset).
Variable render_template : string -> result string.
Variable mail_send_outcome : string -> string -> string -> result unit.

Local Abbreviation outbox := MailCleanDocumentNotifyTask.outbox.

(** Grouping into an empty plain dict: nothing to do for no rows, and
    [KeyError] at the first row. *)
Lemma append_each_empty {X Y} (key : X -> string) (value : X -> Y) (xs : list X) (s : outbox) :
  MailCleanDocumentNotifyTask.append_each key value xs [] s
  = match xs with
    | [] => (Ok [], s)
    | x :: _ => (Raise (KeyError (key x)), s)
    end.
Proof. destruct xs as [|x xs]; reflexivity. Qed.

(** The guarded part of the task raises, and hands no mail over. *)
Lemma guarded_part_raises (s : outbox) :
  exists e,
    (dataset_auto_disable_logs <- MailCleanDocumentNotifyTask.lift unnotified_logs;;
     dataset_auto_disable_logs_map <-
       MailCleanDocumentNotifyTask.append_each MailCleanDocumentNotifyTask.tenant_id
         (fun log => log) dataset_auto_disable_logs [];;
     for_each dataset_auto_disable_logs_map
       (MailCleanDocumentNotifyTask.notify_tenant tenant_first owner_join_first
          account_first dataset_first);;
     html_content <- MailCleanDocumentNotifyTask.lift
                       (render_template "clean_document_job_mail_template-US.html");;
     to <- MailCleanDocumentNotifyTask.load_to;;
     MailCleanDocumentNotifyTask.mail_send mail_send_outcome to "立即加入 Dify 工作空间"
       html_content) s
    = (Raise e, s).
Proof.
  unfold bind at 1, MailCleanDocumentNotifyTask.lift at 1.
  destruct unnotified_logs as [logs|e]; [|eauto].
  unfold bind at 1. rewrite append_each_empty.
  destruct logs as [|log logs]; [|eauto].
  cbn [for_each]. unfold bind at 1, ret at 1.
  unfold bind at 1, MailCleanDocumentNotifyTask.lift at 1.
  destruct (render_template _) as [html|e]; [|eauto].
  unfold bind, MailCleanDocumentNotifyTask.load_to, raise. eauto.
Qed.

End MailTask.

(** X16. The task sends no mail.  When the mail extension is not
    initialised it returns at once; otherwise it ends with [NameError],
    whatever the tables hold and whatever the queries, the template engine
    and the mail extension would answer: the unnotified rows, if there are
    any, raise [KeyError] when they are grouped into a plain dict, the
    recipient [to] is a name bound nowhere, and the handler that catches
    these errors reads [to] itself. *)
Theorem notify_task_sends_nothing :
  forall mail_is_inited unnotified_logs tenant_first owner_join_first account_first
         dataset_first render_template mail_send_outcome
         (s : MailCleanDocumentNotifyTask.outbox),
    MailCleanDocumentNotifyTask.send_document_clean_notify_task mail_is_inited
      unnotified_logs tenant_first owner_join_first account_first dataset_first
      render_template mail_send_outcome s
    = (if mail_is_inited
       then Raise (OtherError "NameError: name 'to' is not defined")
       else Ok tt,
       s).
Proof.
  intros mail_is_inited unnotified_logs tenant_first owner_join_first account_first
    dataset_first render_template mail_send_outcome s.
  unfold MailCleanDocumentNotifyTask.send_document_clean_notify_task.
  destruct mail_is_inited; [|reflexivity].
  unfold MailCleanDocumentNotifyTask.try_except. cbn [negb]. cbv beta.
  destruct (guarded_part_raises unnotified_logs tenant_first owner_join_first account_first
              dataset_first render_template mail_send_outcome s) as [e He].
  rewrite He. reflexivity.
Qed.

(** * The form of the cache keys *)

Lemma le_bytes_length n w : length (Md5.le_bytes n w) = n.
Proof. revert w. induction n as [|n IH]; intros w; simpl; [reflexivity | now rewrite IH]. Qed.

Lemma le_bytes_range n w : Forall (fun b => 0 <= b < 256) (Md5.le_bytes n w).
Proof.
  revert w. induction n as [|n IH]; intros w; simpl; constructor; [|apply IH].
  change 255 with (Z.ones 8). rewrite Z.land_ones by lia.
  apply Z.mod_pos_bound. lia.
Qed.

(** A lower-case hexadecimal digit. *)
Definition is_hex_digit (c : ascii) : Prop :=
  In c (list_ascii_of_string "0123456789abcdef").

Lemma hex_digit_is_hex n : 0 <= n < 16 -> is_hex_digit (Md5.hex_digit n).
Proof.
  intros Hn. unfold Md5.hex_digit, is_hex_digit. apply nth_In.
  change (length (list_ascii_of_string "0123456789abcdef")) with 16%nat. lia.
Qed.

Lemma hex_form bs :
  Forall (fun b => 0 <= b < 256) bs ->
  String.length (Md5.hex bs) = (2 * length bs)%nat
  /\ Forall is_hex_digit (list_ascii_of_string (Md5.hex bs)).
Proof.
  induction 1 as [|b bs Hb _ [IHl IHd]]; simpl; [split; [reflexivity | constructor]|].
  split; [rewrite IHl; lia|].
  constructor; [|constructor; [|exact IHd]].
  - apply hex_digit_is_hex. rewrite Z.shiftr_div_pow2 by lia.
    change (2 ^ 4) with 16. split; [apply Z.div_pos; lia|].
    apply Z.div_lt_upper_bound; lia.
  - apply hex_digit_is_hex. change 15 with (Z.ones 4). rewrite Z.land_ones by lia.
    apply Z.mod_pos_bound. lia.
Qed.

(** X17. Every cache key is a string of 32 lower-case hexadecimal digits,
    whatever the fields are and however long they are. *)
Theorem cache_keys_are_32_hex_digits :
  let well_formed key :=
    String.length key = 32%nat /\ Forall is_hex_digit (list_ascii_of_string key) in
  (forall tenant_id provider model,
      well_formed (Vector._generate_embedding_cache_key tenant_id provider model)
      /\ well_formed (DataPostProcessor._generate_rerank_model_cache_key tenant_id provider model)
      /\ well_formed (WeightRerankRunner._generate_embedding_cache_key tenant_id provider model))
  /\ (forall dataset_id vector_type,
      well_formed (Vector._generate_processor_cache_key dataset_id vector_type)).
Proof.
  intros well_formed.
  assert (Hdigest : forall s, well_formed (Md5.hexdigest s)).
  { intros s. unfold well_formed, Md5.hexdigest.
    assert (Hr : Forall (fun b => 0 <= b < 256) (Md5.digest (Md5.bytes_of_string s))).
    { unfold Md5.digest. repeat (apply Forall_app; split); apply le_bytes_range. }
    destruct (hex_form _ Hr) as [Hl Hd]. split; [|exact Hd].
    rewrite Hl. unfold Md5.digest. rewrite !length_app, !le_bytes_length. reflexivity. }
  split; [intros; repeat split|intros]; apply Hdigest.
Qed.
